(** * Polymarket alert system: order-book math, scoring, scanning and the
      single-position lifecycle.

    Shallow embedding of [utils.js], [scan.js], [engine.js] and the monitor
    loop, followed by the properties of the specification.

    Numbers.  A JavaScript number is an IEEE double.  Finite values are
    idealised as exact rationals ([Q]); rounding is not modelled.  Where the
    source itself tests [Number.isFinite] (raw order-book levels, published
    reference prices) the model keeps the non-finite values in the type
    [number].  Scores use [Math.log10] and therefore live in [R].
    Timestamps ([Date.now()], [Date.parse]) are integers of milliseconds.

    The idealisation is not harmless everywhere, so the fill simulator is
    given twice more: in [Binary64] on the machine's doubles, where its
    results can be computed bit for bit, NaN and infinities included, and
    in [Rounded] on rationals with a rounding after every operation, which
    is where statements that must survive rounding are proved. *)

From Stdlib Require Import List Sorted Permutation Bool ZArith QArith Qreals String Lia.
From Stdlib Require Import Reals Psatz.
From Stdlib Require Import Qround Qpower.
From Stdlib Require Floats.
Import ListNotations.

Set Implicit Arguments.

(* ================================================================== *)
(** ** JavaScript numbers at the parsing boundary *)

Module Js.

(** The result of [Number(x)] on a raw JSON field. *)
Inductive number : Type :=
| Finite (q : Q)
| NaN
| Infinity (negative : bool).

(** [Number.isFinite(p)], returning the finite value when there is one. *)
Definition isFinite (x : number) : option Q :=
  match x with
  | Finite q => Some q
  | _ => None
  end.

(** Boolean comparisons on finite numbers. *)
Definition leb (a b : Q) : bool := Qle_bool a b.
Definition ltb (a b : Q) : bool := negb (Qle_bool b a).
Definition gtb (a b : Q) : bool := ltb b a.
Definition geb (a b : Q) : bool := leb b a.

(** [Math.min] and [Math.max] on finite numbers. *)
Definition min (a b : Q) : Q := if leb a b then a else b.
Definition max (a b : Q) : Q := if leb a b then b else a.

(** [Math.abs]. *)
Definition abs (a : Q) : Q := if leb 0 a then a else - a.

(** [Array.prototype.sort] is stable.  [before a b] stands for a
    comparator that does not put [b] strictly in front of [a]
    (that is, [cmp(a, b) <= 0]). *)
Section Sort.

Variable A : Type.
Variable before : A -> A -> bool.

Fixpoint insert (x : A) (l : list A) : list A :=
  match l with
  | [] => [x]
  | y :: l' => if before x y then x :: l else y :: insert x l'
  end.

Definition sort (l : list A) : list A := fold_right insert [] l.

End Sort.

End Js.

(* ================================================================== *)
(** ** utils.js *)

Module Utils.

(** One raw level of a book, after [Number(l.price)] and [Number(l.size)]. *)
Record rawLevel : Type := { rawPrice : Js.number; rawSize : Js.number }.

(** [book?.bids ?? []] and [book?.asks ?? []]: a missing side is empty. *)
Record book : Type := { bids : list rawLevel; asks : list rawLevel }.

Inductive side : Type := buy | sell.

(** A level that passed the filter of [sortedLevels]. *)
Record level : Type := { price : Q; size : Q }.

(** The loop of [bestBidAsk] over the bids: skip non-finite prices, keep
    the running value when [bestBid === null || p > bestBid] fails. *)
Definition bidStep (bestBid : option Q) (b : rawLevel) : option Q :=
  match Js.isFinite (rawPrice b) with
  | None => bestBid
  | Some p =>
      match bestBid with
      | None => Some p
      | Some cur => if Js.gtb p cur then Some p else Some cur
      end
  end.

Definition askStep (bestAsk : option Q) (a : rawLevel) : option Q :=
  match Js.isFinite (rawPrice a) with
  | None => bestAsk
  | Some p =>
      match bestAsk with
      | None => Some p
      | Some cur => if Js.ltb p cur then Some p else Some cur
      end
  end.

Record bidAsk : Type := { bestBid : option Q; bestAsk : option Q }.

(** [bestBidAsk(book)]; [utils.js] and [scan.js] carry the same text. *)
Definition bestBidAsk (bk : book) : bidAsk :=
  {| bestBid := fold_left bidStep (bids bk) None;
     bestAsk := fold_left askStep (asks bk) None |}.

(** The [filter] of [sortedLevels]: finite and strictly positive. *)
Definition keepLevel (l : rawLevel) : option level :=
  match Js.isFinite (rawPrice l), Js.isFinite (rawSize l) with
  | Some p, Some s =>
      if Js.gtb p 0 && Js.gtb s 0 then Some {| price := p; size := s |} else None
  | _, _ => None
  end.

Fixpoint filterLevels (raw : list rawLevel) : list level :=
  match raw with
  | [] => []
  | l :: raw' =>
      match keepLevel l with
      | Some lv => lv :: filterLevels raw'
      | None => filterLevels raw'
      end
  end.

(** The comparator of [sortedLevels]: [a.price - b.price] for a buy,
    [b.price - a.price] for a sell. *)
Definition levelBefore (sd : side) (a b : level) : bool :=
  match sd with
  | buy => Js.leb (price a) (price b)
  | sell => Js.leb (price b) (price a)
  end.

Definition rawSide (bk : book) (sd : side) : list rawLevel :=
  match sd with buy => asks bk | sell => bids bk end.

Definition sortedLevels (bk : book) (sd : side) : list level :=
  Js.sort (levelBefore sd) (filterLevels (rawSide bk sd)).

(** The three accumulators of the walk. *)
Record walk : Type := { remainingUsd : Q; accShares : Q; accCost : Q }.

Definition eps_break : Q := 1 # 1000000000.   (* 1e-9 *)
Definition eps_depth : Q := 1 # 1000000.      (* 1e-6 *)

(** One pass through the body of the [for] loop of [marketFill]. *)
Definition fillStep (w : walk) (lvl : level) : walk :=
  let lvlUsd := price lvl * size lvl in
  let takeUsd := Js.min (remainingUsd w) lvlUsd in
  let takeShares := takeUsd / price lvl in
  {| remainingUsd := remainingUsd w - takeUsd;
     accShares := accShares w + takeShares;
     accCost := accCost w + takeUsd |}.

(** The [for] loop with its [break]. *)
Fixpoint fillLoop (levels : list level) (w : walk) : walk :=
  match levels with
  | [] => w
  | lvl :: rest =>
      let w' := fillStep w lvl in
      if Js.leb (remainingUsd w') eps_break then w' else fillLoop rest w'
  end.

Record fill : Type := { avgPrice : Q; shares : Q; notional : Q }.

Definition startWalk (notionalUsd : Q) : walk :=
  {| remainingUsd := notionalUsd; accShares := 0; accCost := 0 |}.

(** The guard [cost <= 0 || shares <= 0 || remainingUsd > 1e-6]. *)
Definition insufficient (w : walk) : bool :=
  Js.leb (accCost w) 0 || Js.leb (accShares w) 0 || Js.gtb (remainingUsd w) eps_depth.

(** [marketFill(book, side, notionalUsd)] on a finite notional, in exact
    arithmetic; [None] is the [null] result.  [Rounded.marketFill] is the
    same walk with every operation rounded, [Binary64.marketFill] the same
    walk on doubles. *)
Definition marketFill (bk : book) (sd : side) (notionalUsd : Q) : option fill :=
  let w := fillLoop (sortedLevels bk sd) (startWalk notionalUsd) in
  if insufficient w then None
  else Some {| avgPrice := accCost w / accShares w;
               shares := accShares w;
               notional := accCost w |}.

(** The levels the walk visited, each with the currency amount it took. *)
Fixpoint takes (levels : list level) (remaining : Q) : list (level * Q) :=
  match levels with
  | [] => []
  | lvl :: rest =>
      let takeUsd := Js.min remaining (price lvl * size lvl) in
      (lvl, takeUsd) ::
        (if Js.leb (remaining - takeUsd) eps_break then []
         else takes rest (remaining - takeUsd))
  end.

(** The levels actually consumed: those a positive amount was taken from. *)
Definition consumedLevels (bk : book) (sd : side) (notionalUsd : Q) : list level :=
  map fst (filter (fun lt => Js.gtb (snd lt) 0)
             (takes (sortedLevels bk sd) notionalUsd)).


(** Every level has a positive price and a positive size. *)
Definition positiveLevels (levels : list level) : Prop :=
  forall l, In l levels -> 0 < price l /\ 0 < size l.

End Utils.

(* ================================================================== *)
(** ** The fill simulator on doubles *)

Module Binary64.

Import PrimFloat.

Local Open Scope float_scope.
Local Set Warnings "-inexact-float".

(** A level after [Number(l.price)] and [Number(l.size)]. *)
Record level : Type := { price : float; size : float }.

Record book : Type := { bids : list level; asks : list level }.

(** [Math.min] on two numbers: NaN if either is, and [-0] before [+0]. *)
Definition Math_min (a b : float) : float :=
  if is_nan a || is_nan b then nan
  else if a <? b then a
  else if b <? a then b
  else if get_sign a then a else b.

(** The [filter] of [sortedLevels]. *)
Definition keepLevel (l : level) : bool :=
  is_finite (price l) && is_finite (size l) && (0 <? price l) && (0 <? size l).

(** The comparator of [sortedLevels]; on the finite prices the filter
    lets through, [a.price - b.price <= 0] is [a.price <= b.price]. *)
Definition levelBefore (sd : Utils.side) (a b : level) : bool :=
  match sd with
  | Utils.buy => price a <=? price b
  | Utils.sell => price b <=? price a
  end.

Definition rawSide (bk : book) (sd : Utils.side) : list level :=
  match sd with Utils.buy => asks bk | Utils.sell => bids bk end.

Definition sortedLevels (bk : book) (sd : Utils.side) : list level :=
  Js.sort (levelBefore sd) (filter keepLevel (rawSide bk sd)).

Record walk : Type := { remainingUsd : float; accShares : float; accCost : float }.

Definition fillStep (w : walk) (lvl : level) : walk :=
  let lvlUsd := price lvl * size lvl in
  let takeUsd := Math_min (remainingUsd w) lvlUsd in
  let takeShares := takeUsd / price lvl in
  {| remainingUsd := remainingUsd w - takeUsd;
     accShares := accShares w + takeShares;
     accCost := accCost w + takeUsd |}.

Fixpoint fillLoop (levels : list level) (w : walk) : walk :=
  match levels with
  | [] => w
  | lvl :: rest =>
      let w' := fillStep w lvl in
      if remainingUsd w' <=? 1e-9 then w' else fillLoop rest w'
  end.

Record fill : Type := { avgPrice : float; shares : float; notional : float }.

(** [marketFill(book, side, notionalUsd)] on doubles. *)
Definition marketFill (bk : book) (sd : Utils.side) (notionalUsd : float)
  : option fill :=
  let w := fillLoop (sortedLevels bk sd)
             {| remainingUsd := notionalUsd; accShares := 0; accCost := 0 |} in
  if (accCost w <=? 0) || (accShares w <=? 0) || (1e-6 <? remainingUsd w) then None
  else Some {| avgPrice := accCost w / accShares w;
               shares := accShares w;
               notional := accCost w |}.

(** A bid of 0.765625 for 1000 shares, nothing else. *)
Definition oneBid : book :=
  {| bids := [{| price := 0.765625; size := 1000 |}]; asks := [] |}.


(** Asks of 0.50 for 100 shares and 0.52 for 200. *)
Definition twoAsks : book :=
  {| bids := [];
     asks := [{| price := 0.52; size := 200 |}; {| price := 0.50; size := 100 |}] |}.

(** The rational a finite double stands for. *)
Definition toQ (x : float) : option Q :=
  match FloatOps.Prim2SF x with
  | SpecFloat.S754_zero _ => Some 0%Q
  | SpecFloat.S754_finite s m e =>
      Some ((if s then -1 else 1) * inject_Z (Zpos m) * 2 ^ e)%Q
  | _ => None
  end.

End Binary64.

(* ================================================================== *)
(** ** The fill simulator with rounding *)

(** The walk of [marketFill] on rationals, with a rounding [rnd] applied
    to the result of every multiplication, division, addition and
    subtraction, and to the two decimal constants.  With [binary64] for
    the rounding this is the arithmetic of the code as long as nothing
    overflows; with the identity it is the walk of [Utils]. *)
Module Rounded.

Import Utils.

Section Rounding.

Variable rnd : Q -> Q.

Definition fillStep (w : walk) (lvl : level) : walk :=
  let lvlUsd := rnd (price lvl * size lvl) in
  let takeUsd := Js.min (remainingUsd w) lvlUsd in
  let takeShares := rnd (takeUsd / price lvl) in
  {| remainingUsd := rnd (remainingUsd w - takeUsd);
     accShares := rnd (accShares w + takeShares);
     accCost := rnd (accCost w + takeUsd) |}.

Fixpoint fillLoop (levels : list level) (w : walk) : walk :=
  match levels with
  | [] => w
  | lvl :: rest =>
      let w' := fillStep w lvl in
      if Js.leb (remainingUsd w') (rnd eps_break) then w' else fillLoop rest w'
  end.

Definition insufficient (w : walk) : bool :=
  Js.leb (accCost w) 0 || Js.leb (accShares w) 0
  || Js.gtb (remainingUsd w) (rnd eps_depth).

Definition marketFill (bk : book) (sd : side) (notionalUsd : Q) : option fill :=
  let w := fillLoop (sortedLevels bk sd) (startWalk notionalUsd) in
  if insufficient w then None
  else Some {| avgPrice := rnd (accCost w / accShares w);
               shares := accShares w;
               notional := accCost w |}.

(** The exit prices [buildPosition] sets,
    [Math.min(0.999, entryPrice + cfg.tp)] and
    [Math.max(0.001, entryPrice - cfg.sl)], with the sum, the difference
    and the two constants rounded. *)
Definition takeProfitPrice (entryPrice tp : Q) : Q :=
  Js.min (rnd 0.999) (rnd (entryPrice + tp)).

Definition stopLossPrice (entryPrice sl : Q) : Q :=
  Js.max (rnd 0.001) (rnd (entryPrice - sl)).

(** What is used of the rounding: it is monotone, it returns what it is
    given when that is one of its own results, and 0 and 1 are among
    them.  Rounding to nearest has these properties; [binary64] below is
    shown to. *)
Definition rounding : Prop :=
  (forall x y, (x <= y)%Q -> (rnd x <= rnd y)%Q) /\
  (forall x, rnd (rnd x) == rnd x) /\
  rnd 0 == 0 /\ rnd 1 == 1.

End Rounding.

(** The rounding of binary64, overflow aside: to the nearest number
    with 53 binary digits and an exponent of -1074 or more for its last
    place, ties to the even one. *)

Local Open Scope Q_scope.

(** The nearest integer, ties to even. *)
Definition nearestEven (q : Q) : Z :=
  let f := Qfloor q in
  match Qcompare (q - inject_Z f) (1 # 2) with
  | Lt => f
  | Gt => (f + 1)%Z
  | Eq => if Z.even f then f else (f + 1)%Z
  end.

(** The integer part of the binary logarithm of a positive number. *)
Definition ilog2 (x : Q) : Z :=
  let k := (Z.log2 (Qnum x) - Z.log2 (Zpos (Qden x)))%Z in
  if Qle_bool (2 ^ k) x then k else (k - 1)%Z.

(** The exponent of the last place of the doubles around a positive [x]. *)
Definition ulpExp (x : Q) : Z := Z.max (-1074) (ilog2 x - 52).

Definition nearestDouble (x : Q) : Q :=
  inject_Z (nearestEven (x / 2 ^ ulpExp x)) * 2 ^ ulpExp x.

Definition binary64 (x : Q) : Q :=
  match Qcompare x 0 with
  | Eq => 0
  | Gt => nearestDouble x
  | Lt => - nearestDouble (- x)
  end.

End Rounded.

(* ================================================================== *)
(** ** Scoring: [opportunityScore] of scan.js and the score of engine.js *)

Module Score.

Local Open Scope R_scope.

(** [clamp01 = (x) => Math.max(0, Math.min(1, x))]. *)
Definition clamp01 (x : R) : R := Rmax 0 (Rmin 1 x).

(** [Math.log10] on a positive argument. *)
Definition log10 (x : R) : R := ln x / ln 10.

(** [clamp01(Math.log10(1 + x) / 5)].  For [1 + x < 0] the logarithm is
    NaN and so is the whole score: [None].  At [1 + x = 0] JavaScript has
    [-Infinity], which [clamp01] sends to [0]; [ln 0 = 0] gives the same. *)
Definition logScore (x : R) : option R :=
  if Rlt_dec (1 + x) 0 then None else Some (clamp01 (log10 (1 + x) / 5)).

(** [x ?? 0]. *)
Definition orZero (x : option R) : R :=
  match x with Some v => v | None => 0 end.

(** [Math.round]: nearest integer, halves towards plus infinity. *)
Definition Math_round (x : R) : Z := Zfloor (x + / 2).

(** The weighted sum [raw] of [opportunityScore]. *)
Definition rawScore (volScore liqScore moveScore spreadPenalty slipPenalty : R) : R :=
  45 * volScore + 25 * liqScore + 30 * moveScore
  - 25 * spreadPenalty - 25 * slipPenalty.

(** [opportunityScore({ spread, vol24h, liq, absMove1h, slipBuy, slipSell })];
    [None] is a NaN score. *)
Definition opportunityScore (spread vol24h liq absMove1h : R)
    (slipBuy slipSell : option R) : option Z :=
  match logScore vol24h, logScore liq with
  | Some volScore, Some liqScore =>
      let moveScore := clamp01 (absMove1h / 0.08) in
      let spreadPenalty := clamp01 (spread / 0.02) in
      let slipPenalty := clamp01 ((orZero slipBuy + orZero slipSell) / 0.04) in
      let raw := rawScore volScore liqScore moveScore spreadPenalty slipPenalty in
      Some (Math_round (Rmax 0 (Rmin 100 raw)))
  | _, _ => None
  end.

(** The score computed inside [findOpportunity] (engine.js), over the
    reals; meant for [maxSpread <> 0] and [vol24hr > -1], where every term
    is finite. *)
Definition engineScore (absMove spread maxSpread vol24hr : R) : R :=
  (absMove / 0.05) * 50
  + (1 - Rmin 1 (spread / maxSpread)) * 20
  + Rmin 20 (log10 (1 + vol24hr) * 3).

End Score.

(* ================================================================== *)
(** ** Records shared by the two scanners *)

Module Catalog.

(** One market record of the remote catalog, after the coercions the
    scanners apply to its fields.  Volume and liquidity are finite numbers
    or absent; [null] entries of the list, which the first filter drops,
    are left out. *)
Record market : Type := {
  marketId : string;
  question : string;
  slug : string;
  closed : option bool;            (* [m.closed]; [None] when not a boolean *)
  enableOrderBook : bool;          (* truthiness of [m.enableOrderBook] *)
  acceptingOrders : option bool;   (* [None] when absent *)
  volume24hr : option Q;           (* [None] when null or undefined *)
  liquidityNum : option Q;
  liquidity : option Q;
  endDate : option Z;              (* [Date.parse(m.endDate)]; [None] is NaN *)
  outcomes : list string;          (* [safeParseJsonArray(m.outcomes)] *)
  outcomePrices : list Js.number;  (* [...(m.outcomePrices).map(Number)] *)
  clobTokenIds : list string       (* [...(m.clobTokenIds)], as strings *)
}.

(** [Number(m.volume24hr ?? 0)]. *)
Definition vol24h (m : market) : Q :=
  match volume24hr m with Some v => v | None => 0 end.

(** [Number(m.liquidityNum ?? m.liquidity ?? 0)]. *)
Definition liqOf (m : market) : Q :=
  match liquidityNum m with
  | Some v => v
  | None => match liquidity m with Some v => v | None => 0 end
  end.

(** [Number(m.liquidityNum ?? 0)]. *)
Definition liqNumOf (m : market) : Q :=
  match liquidityNum m with Some v => v | None => 0 end.

(** One entry of a snapshot document. *)
Record snapshot : Type := { mid : Q; bid : Q; ask : Q; t : Z }.

(** [{ t, byToken }]: a JavaScript object used as a map from token id. *)
Record snapshots : Type := { byToken : string -> option snapshot; snapT : Z }.

(** [doc.byToken[k] = v]. *)
Definition setToken (k : string) (v : snapshot) (f : string -> option snapshot)
  : string -> option snapshot :=
  fun k' => if String.eqb k k' then Some v else f k'.

(** The entry of token [tok] was written at time [at_]. *)
Definition writtenAt (at_ : Z) (g : string -> option snapshot) (tok : string) : Prop :=
  exists e, g tok = Some e /\ t e = at_.

(** The remote order-book query; [None] is a rejected fetch. *)
Definition fetcher : Type := string -> option Utils.book.

(** A value that is neither [null] nor [0]: the test [!x] fails. *)
Definition truthy (x : option Q) : option Q :=
  match x with
  | Some q => if Qeq_bool q 0 then None else Some q
  | None => None
  end.

End Catalog.

(* ================================================================== *)
(** ** scan.js: the single-shot report *)

Module Scan.

Import Catalog.

(** The arguments, for numbers that are all finite and counts that are
    whole and not negative; [ScanCli.finiteArgs] says which parsed
    arguments are read as one of these. *)
Record args : Type := {
  maxAlerts : nat;
  limit : nat;
  minVolume24h : Q;
  minLiquidity : Q;
  notional : Q;
  maxEndHours : Q;
  maxSpread : Q
}.

(** The defaults of [parseArgs]. *)
Definition defaultArgs : args :=
  {| maxAlerts := 5; limit := 200; minVolume24h := 3000; minLiquidity := 1500;
     notional := 100; maxEndHours := 24 * 365 * 2; maxSpread := 0.12 |}.

Record slip : Type := { slAvgPrice : Q; slRefPrice : Q; slippage : Q; slShares : Q }.

(** [slippageForNotional]: the walk of [marketFill], written out a second
    time in scan.js, followed by the distance to the reference price. *)
Definition slippageForNotional (bk : Utils.book) (sd : Utils.side) (notionalUsd : Q)
  : option slip :=
  let w := Utils.fillLoop (Utils.sortedLevels bk sd) (Utils.startWalk notionalUsd) in
  if Utils.insufficient w then None
  else
    let avg := Utils.accCost w / Utils.accShares w in
    let ba := Utils.bestBidAsk bk in
    let ref := match sd with
               | Utils.buy => Utils.bestAsk ba
               | Utils.sell => Utils.bestBid ba
               end in
    match truthy ref with
    | None => None
    | Some r => Some {| slAvgPrice := avg; slRefPrice := r;
                        slippage := Js.abs (avg - r); slShares := Utils.accShares w |}
    end.

(** [now + args.maxEndHours * 3600_000]. *)
Definition endCutoffMs (now : Z) (a : args) : Q :=
  inject_Z now + maxEndHours a * 3600000.

(** [Number.isFinite(end) && end > now && end < endCutoffMs]. *)
Definition endWithinWindow (now : Z) (a : args) (m : market) : bool :=
  match endDate m with
  | Some e => Z.ltb now e && Js.ltb (inject_Z e) (endCutoffMs now a)
  | None => false
  end.

(** The chain of [filter] calls that builds [candidates]. *)
Definition passesFilters (now : Z) (a : args) (m : market) : bool :=
  match closed m with Some false => true | _ => false end
  && enableOrderBook m
  && Js.geb (vol24h m) (minVolume24h a)
  && Js.geb (liqOf m) (minLiquidity a)
  && endWithinWindow now a m.

Definition candidates (now : Z) (a : args) (markets : list market) : list market :=
  firstn 30 (filter (passesFilters now a) markets).

(** [outcomes.length < 2 || prices.length < 2 || tokenIds.length < 2]. *)
Definition tooFewOutcomes (m : market) : bool :=
  (List.length (outcomes m) <? 2)%nat
  || (List.length (outcomePrices m) <? 2)%nat
  || (List.length (clobTokenIds m) <? 2)%nat.

Record tokenCandidate : Type := {
  idx : nat; token : string; refPrice : Q; tcBook : Utils.book;
  tcBid : Q; tcAsk : Q; tcMid : Q; tcSpread : Q; err : Q
}.

(** The inner loop over [idx < Math.min(tokenIds.length, prices.length)].
    Returns the token ids whose book was requested, in order, and the
    candidates pushed. *)
Fixpoint tokenLoop (fetch : fetcher) (i : nat) (tokenIds : list string)
    (prices : list Js.number) : list string * list tokenCandidate :=
  match tokenIds, prices with
  | tok :: toks, pr :: prs =>
      let rest := tokenLoop fetch (S i) toks prs in
      match Js.isFinite pr with
      | None => rest
      | Some ref =>
          match fetch tok with
          | None => (tok :: fst rest, snd rest)
          | Some bk =>
              let ba := Utils.bestBidAsk bk in
              match truthy (Utils.bestBid ba), truthy (Utils.bestAsk ba) with
              | Some b, Some a =>
                  let m := (b + a) / 2 in
                  (tok :: fst rest,
                   {| idx := i; token := tok; refPrice := ref; tcBook := bk;
                      tcBid := b; tcAsk := a; tcMid := m; tcSpread := a - b;
                      err := Js.abs (m - ref) |} :: snd rest)
              | _, _ => (tok :: fst rest, snd rest)
              end
          end
      end
  | _, _ => ([], [])
  end.

Record row : Type := {
  score : option Z; rowQuestion : string; rowUrl : string; rowMarketId : string;
  rowEndDate : option Z; rowVol24h : Q; rowLiq : Q;
  rowBid : Q; rowAsk : Q; rowMid : Q; rowSpread : Q; absMove1h : Q;
  slipBuy : Q; slipSell : option Q; rowToken : string; rowRefPrice : Q
}.

(** What the loop over [candidates] mutates: the rows, the snapshot
    document [prev], and (for the order of I/O) the book requests issued. *)
Record scanState : Type := {
  requested : list string;
  rows : list row;
  prev : snapshots
}.

(** The body of [for (const m of candidates)]. *)
Definition scanMarket (fetch : fetcher) (now : Z) (a : args)
    (st : scanState) (m : market) : scanState :=
  if tooFewOutcomes m then st
  else
    let tl := tokenLoop fetch 0 (clobTokenIds m) (outcomePrices m) in
    let st1 := {| requested := requested st ++ fst tl;
                  rows := rows st; prev := prev st |} in
    match Js.sort (fun x y => Js.leb (err x) (err y)) (snd tl) with
    | [] => st1
    | chosen :: _ =>
        let prevMid := option_map mid (byToken (prev st) (token chosen)) in
        let absMove := match truthy prevMid with
                       | Some pm => Js.abs (tcMid chosen - pm)
                       | None => 0
                       end in
        let sBuy := option_map slippage
                      (slippageForNotional (tcBook chosen) Utils.buy (notional a)) in
        let sSell := option_map slippage
                       (slippageForNotional (tcBook chosen) Utils.sell (notional a)) in
        if Js.gtb (tcSpread chosen) (maxSpread a) then st1
        else
          match sBuy with
          | None => st1
          | Some sb =>
              let sc := Score.opportunityScore
                          (Q2R (tcSpread chosen)) (Q2R (vol24h m)) (Q2R (liqNumOf m))
                          (Q2R absMove) (Some (Q2R sb)) (option_map Q2R sSell) in
              {| requested := requested st1;
                 rows := rows st1 ++
                   [{| score := sc; rowQuestion := question m;
                       rowUrl := String.append "https://polymarket.com/market/" (slug m);
                       rowMarketId := marketId m; rowEndDate := endDate m;
                       rowVol24h := vol24h m; rowLiq := liqNumOf m;
                       rowBid := tcBid chosen; rowAsk := tcAsk chosen;
                       rowMid := tcMid chosen; rowSpread := tcSpread chosen;
                       absMove1h := absMove; slipBuy := sb; slipSell := sSell;
                       rowToken := token chosen; rowRefPrice := refPrice chosen |}];
                 prev := {| byToken := setToken (token chosen)
                                         {| mid := tcMid chosen; bid := tcBid chosen;
                                            ask := tcAsk chosen; t := now |}
                                         (byToken (prev st1));
                            snapT := snapT (prev st1) |} |}
          end
    end.

(** [rows.sort((a, b) => b.score - a.score)]; a NaN difference leaves
    the two rows in place.  With a NaN among the scores the comparison is
    not an order and the engine's sort may arrange the rows otherwise;
    what is proved of the alerts below holds of every row, whatever the
    order. *)
Definition rowBefore (x y : row) : bool :=
  match score x, score y with
  | Some sx, Some sy => (sy <=? sx)%Z
  | _, _ => true
  end.

Record report : Type := {
  booksRequested : list string;   (* order-book requests, in order *)
  saved : snapshots;              (* the document written to the snapshot file *)
  top : list row                  (* the alerts printed *)
}.

(** [main], from the catalog response onwards. *)
Definition main (fetch : fetcher) (now : Z) (a : args) (prev0 : snapshots)
    (markets : list market) : report :=
  let st := fold_left (scanMarket fetch now a) (candidates now a markets)
              {| requested := []; rows := []; prev := prev0 |} in
  {| booksRequested := requested st;
     saved := {| byToken := byToken (prev st); snapT := now |};
     top := firstn (maxAlerts a) (Js.sort rowBefore (rows st)) |}.

End Scan.

(* ================================================================== *)
(** ** engine.js: the live scanner and the exit rule *)

Module Engine.

Import Catalog.

(** The configuration, for numbers that are all finite.  What
    [parseArgs] returns can hold a NaN or an infinity, on which every
    gate of the scanner compares false; [MonitorCli.finiteConfig] says
    which parsed configurations are read as one of these. *)
Record config : Type := {
  notional : Q;
  scanLimit : nat;
  minVolume24h : Q;
  minLiquidity : Q;
  maxSpread : Q;
  minMove : Q;
  tp : Q;
  sl : Q;
  maxHoldMs : Z;
  pollMs : Z
}.

Definition defaultConfig : config :=
  {| notional := 200; scanLimit := 200; minVolume24h := 50000;
     minLiquidity := 10000; maxSpread := 0.02; minMove := 0.02;
     tp := 0.02; sl := 0.02; maxHoldMs := 60 * 60000; pollMs := 30000 |}.

(** One element of the array handed to [pickTokenByMove]. *)
Record tokenView : Type := {
  tvTokenId : string; tvMid : Q; tvPrevMid : Q; tvSpread : Q;
  tvBook : Utils.book; tvMove : Q
}.

Definition absMoveOf (x : tokenView) : Q := Js.abs (tvMid x - tvPrevMid x).

(** [[...tokens].sort((a, b) => |b.mid - b.prevMid| - |a.mid - a.prevMid|)[0] ?? null]. *)
Definition pickTokenByMove (tokens : list tokenView) : option tokenView :=
  hd_error (Js.sort (fun x y => Js.leb (absMoveOf y) (absMoveOf x)) tokens).

(** One element of [snapshotUpdates]. *)
Record update : Type := { uTokenId : string; uMid : Q; uBid : Q; uAsk : Q }.

Record chosenToken : Type := {
  tokenId : string; chMid : Q; chPrevMid : Q; chMove : Q; chSpread : Q;
  chBid : Q; chAsk : Q; entry : Utils.fill
}.

(** One element of [scored], and the [best] result; the formatted
    [reason] text is left out. *)
Record opportunity : Type := {
  score : R; market : Catalog.market; chosen : chosenToken; url : string
}.

(** The chain of [filter] calls of [findOpportunity]. *)
Definition passesFilters (cfg : config) (m : Catalog.market) : bool :=
  match closed m with Some false => true | _ => false end
  && enableOrderBook m
  && match acceptingOrders m with Some false => false | _ => true end
  && Js.geb (vol24h m) (minVolume24h cfg)
  && Js.geb (liqOf m) (minLiquidity cfg)
  && (List.length (outcomes m) =? 2)%nat.

Definition candidates (cfg : config) (markets : list Catalog.market)
  : list Catalog.market :=
  firstn 40 (filter (passesFilters cfg) markets).

(** What the loop over [candidates] accumulates, with the book requests
    issued so far. *)
Record scanAcc : Type := {
  requested : list string;
  snapshotUpdates : list update;
  scored : list opportunity
}.

(** The body of [for (const m of candidates)].  [Promise.all] issues both
    requests; a rejection of either abandons the market. *)
Definition scanMarket (fetch : fetcher) (snaps : snapshots) (cfg : config)
    (acc : scanAcc) (m : Catalog.market) : scanAcc :=
  match clobTokenIds m with
  | tokenA :: tokenB :: _ =>
      let acc1 := {| requested := requested acc ++ [tokenA; tokenB];
                     snapshotUpdates := snapshotUpdates acc;
                     scored := scored acc |} in
      match fetch tokenA, fetch tokenB with
      | Some bookA, Some bookB =>
          let baA := Utils.bestBidAsk bookA in
          let baB := Utils.bestBidAsk bookB in
          match Utils.bestBid baA, Utils.bestAsk baA,
                Utils.bestBid baB, Utils.bestAsk baB with
          | Some bidA, Some askA, Some bidB, Some askB =>
              let midA := (bidA + askA) / 2 in
              let midB := (bidB + askB) / 2 in
              let acc2 :=
                {| requested := requested acc1;
                   snapshotUpdates := snapshotUpdates acc1 ++
                     [{| uTokenId := tokenA; uMid := midA; uBid := bidA; uAsk := askA |};
                      {| uTokenId := tokenB; uMid := midB; uBid := bidB; uAsk := askB |}];
                   scored := scored acc1 |} in
              let spreadA := askA - bidA in
              let spreadB := askB - bidB in
              if Js.gtb spreadA (maxSpread cfg) && Js.gtb spreadB (maxSpread cfg)
              then acc2
              else
                let prevA := match byToken snaps tokenA with
                             | Some e => mid e | None => midA end in
                let prevB := match byToken snaps tokenB with
                             | Some e => mid e | None => midB end in
                match pickTokenByMove
                        [{| tvTokenId := tokenA; tvMid := midA; tvPrevMid := prevA;
                            tvSpread := spreadA; tvBook := bookA; tvMove := midA - prevA |};
                         {| tvTokenId := tokenB; tvMid := midB; tvPrevMid := prevB;
                            tvSpread := spreadB; tvBook := bookB; tvMove := midB - prevB |}]
                with
                | None => acc2
                | Some best =>
                    let absMove := Js.abs (tvMid best - tvPrevMid best) in
                    if Js.ltb absMove (minMove cfg) then acc2
                    else if Js.gtb (tvSpread best) (maxSpread cfg) then acc2
                    else
                      match Utils.marketFill (tvBook best) Utils.buy (notional cfg) with
                      | None => acc2
                      | Some e =>
                          let isA := String.eqb (tvTokenId best) tokenA in
                          {| requested := requested acc2;
                             snapshotUpdates := snapshotUpdates acc2;
                             scored := scored acc2 ++
                               [{| score := Score.engineScore (Q2R absMove)
                                              (Q2R (tvSpread best)) (Q2R (maxSpread cfg))
                                              (Q2R (vol24h m));
                                   market := m;
                                   chosen :=
                                     {| tokenId := tvTokenId best; chMid := tvMid best;
                                        chPrevMid := tvPrevMid best;
                                        chMove := tvMid best - tvPrevMid best;
                                        chSpread := tvSpread best;
                                        chBid := if isA then bidA else bidB;
                                        chAsk := if isA then askA else askB;
                                        entry := e |};
                                   url := String.append "https://polymarket.com/market/"
                                            (slug m) |}] |}
                      end
                end
          | _, _, _, _ => acc1
          end
      | _, _ => acc1
      end
  | _ => acc
  end.

(** [scored.sort((a, b) => b.score - a.score)]. *)
Definition scoreBefore (x y : opportunity) : bool :=
  if Rle_dec (score y) (score x) then true else false.

Record scanResult : Type := {
  best : option opportunity;
  updates : list update;          (* [snapshotUpdates] *)
  booksRequested : list string    (* order-book requests, in order *)
}.

(** [findOpportunity(state, cfg)], from the catalog response onwards. *)
Definition findOpportunity (fetch : fetcher) (snaps : snapshots) (cfg : config)
    (markets : list Catalog.market) : scanResult :=
  let acc := fold_left (scanMarket fetch snaps cfg) (candidates cfg markets)
               {| requested := []; snapshotUpdates := []; scored := [] |} in
  {| best := hd_error (Js.sort scoreBefore (scored acc));
     updates := snapshotUpdates acc;
     booksRequested := requested acc |}.

(** The identifier [`t${now}-${op.market.id}-${op.chosen.tokenId}`],
    kept as its three components. *)
Record positionId : Type := { idOpened : Z; idMarket : string; idToken : string }.

Record entryFill : Type := {
  entryAvgPrice : Q; entryShares : Q; bookBid : Q; bookAsk : Q; entrySpread : Q
}.

Record exits : Type := { takeProfitPrice : Q; stopLossPrice : Q; exitMaxHoldMs : Z }.

(** [{ t, mid, bid, ask }]. *)
Record mark : Type := { markT : Z; markMid : Q; markBid : Q; markAsk : Q }.

Inductive status : Type := OPEN.

Record position : Type := {
  id : positionId;
  openedAt : Z;
  posMarketId : string;
  posQuestion : string;
  posUrl : string;
  posTokenId : string;
  posNotional : Q;
  posEntry : entryFill;
  posExits : exits;
  posStatus : status;
  lastMark : mark
}.

(** [buildPosition(op, cfg)]; [now] is the value of [Date.now()].  The
    two exit prices are exact here; [Rounded.takeProfitPrice] and
    [Rounded.stopLossPrice] have the sum and the difference rounded. *)
Definition buildPosition (op : opportunity) (cfg : config) (now : Z) : position :=
  let entryPrice := Utils.avgPrice (entry (chosen op)) in
  {| id := {| idOpened := now; idMarket := marketId (market op);
              idToken := tokenId (chosen op) |};
     openedAt := now;
     posMarketId := marketId (market op);
     posQuestion := question (market op);
     posUrl := url op;
     posTokenId := tokenId (chosen op);
     posNotional := notional cfg;
     posEntry := {| entryAvgPrice := entryPrice;
                    entryShares := Utils.shares (entry (chosen op));
                    bookBid := chBid (chosen op);
                    bookAsk := chAsk (chosen op);
                    entrySpread := chSpread (chosen op) |};
     posExits := {| takeProfitPrice := Js.min 0.999 (entryPrice + tp cfg);
                    stopLossPrice := Js.max 0.001 (entryPrice - sl cfg);
                    exitMaxHoldMs := maxHoldMs cfg |};
     posStatus := OPEN;
     lastMark := {| markT := now; markMid := chMid (chosen op);
                    markBid := chBid (chosen op); markAsk := chAsk (chosen op) |} |}.

Inductive exitReason : Type := TIME_STOP | TAKE_PROFIT | STOP_LOSS.

Record exitDecision : Type := { reason : exitReason; exitAt : Z }.

(** [shouldExit(position, mark)]; [now] is the value of [Date.now()]. *)
Definition shouldExit (p : position) (mk : mark) (now : Z) : option exitDecision :=
  let ageMs := (now - openedAt p)%Z in
  if (exitMaxHoldMs (posExits p) <=? ageMs)%Z then
    Some {| reason := TIME_STOP; exitAt := now |}
  else
    let px := markBid mk in
    if Js.geb px (takeProfitPrice (posExits p)) then
      Some {| reason := TAKE_PROFIT; exitAt := now |}
    else if Js.leb px (stopLossPrice (posExits p)) then
      Some {| reason := STOP_LOSS; exitAt := now |}
    else None.

End Engine.

(* ================================================================== *)
(** ** The monitor loop ([run]) with state.js as its store *)

Module Monitor.

Import Catalog Engine.

(** The run state document of state.js. *)
Record state : Type := {
  createdAt : Z;
  lastScanAt : option Z;
  openPosition : option position;
  lastClosedId : option positionId;
  snapshots : Catalog.snapshots
}.

(** One line of a trade log. *)
Inductive event : Type :=
| EvOpen (at_ : Z) (marketId tokenId : string) (notional : Q)
         (entry : entryFill) (ex : exits)
| EvMark (at_ : Z) (bid ask mid : Q)
| EvClose (at_ : Z) (why : exitReason) (exitAvg pnl : Q).

(** The closed-trade summary; its text fields and the rounded
    [pnlCents] are left out. *)
Record closedTrade : Type := {
  closedId : positionId;
  closedOpenedAt : Z;
  closedAt : Z;
  durationMs : Z;
  closedTokenId : string;
  closedNotional : Q;
  entryAvg : Q;
  exitAvg : Q;
  closedShares : Q;
  pnl : Q;
  closedReason : exitReason;
  closedExits : exits;
  closedLastMark : mark
}.

(** Everything under [data/]: the state file (absent before the first
    write), the trade logs in append order, the summaries, the pointer. *)
Record store : Type := {
  stateFile : option state;
  tradeLog : list (positionId * event);
  closedFiles : list closedTrade;
  lastClosedPointer : option (positionId * Z)
}.

(** What one pass of the loop reads from outside: the clock, the catalog
    response ([None]: the request was rejected) and the order books.  The
    code reads the clock several times in a pass; the model gives all the
    readings of a pass one value, so a time stands for "read in this
    pass", and the summaries of the second part leave the times out. *)
Record tick : Type := {
  now : Z;
  catalog : option (list Catalog.market);
  fetch : fetcher
}.

(** [readState()]. *)
Definition readState (tk : tick) (d : store) : state :=
  match stateFile d with
  | Some s => s
  | None => {| createdAt := now tk; lastScanAt := None; openPosition := None;
               lastClosedId := None;
               snapshots := {| byToken := fun _ => None; snapT := 0 |} |}
  end.

(** [writeState(state)]. *)
Definition writeState (s : state) (d : store) : store :=
  {| stateFile := Some s; tradeLog := tradeLog d;
     closedFiles := closedFiles d; lastClosedPointer := lastClosedPointer d |}.

(** [appendTradeLog(tradeId, obj)]. *)
Definition appendTradeLog (i : positionId) (e : event) (d : store) : store :=
  {| stateFile := stateFile d; tradeLog := tradeLog d ++ [(i, e)];
     closedFiles := closedFiles d; lastClosedPointer := lastClosedPointer d |}.

(** [writeClosedSummary(tradeId, summary)]. *)
Definition writeClosedSummary (i : positionId) (c : closedTrade) (at_ : Z) (d : store)
  : store :=
  {| stateFile := stateFile d; tradeLog := tradeLog d;
     closedFiles := closedFiles d ++ [c]; lastClosedPointer := Some (i, at_) |}.

Definition withSnapshots (s : state) (sn : Catalog.snapshots) : state :=
  {| createdAt := createdAt s; lastScanAt := lastScanAt s;
     openPosition := openPosition s; lastClosedId := lastClosedId s;
     snapshots := sn |}.

Definition withOpenPosition (s : state) (p : option position) : state :=
  {| createdAt := createdAt s; lastScanAt := lastScanAt s;
     openPosition := p; lastClosedId := lastClosedId s;
     snapshots := snapshots s |}.

(** [markAndSnapshot(state, tokenId, mid, bid, ask)]. *)
Definition markAndSnapshot (s : state) (tok : string) (m b a : Q) (at_ : Z) : state :=
  withSnapshots s
    {| byToken := setToken tok {| mid := m; bid := b; ask := a; t := at_ |}
                    (byToken (snapshots s));
       snapT := at_ |}.

(** The loop [for (const u of res.snapshotUpdates ?? [])]. *)
Definition applyUpdates (at_ : Z) (us : list update)
    (f : string -> option snapshot) : string -> option snapshot :=
  fold_left (fun g u => setToken (uTokenId u)
                          {| mid := uMid u; bid := uBid u; ask := uAsk u; t := at_ |} g)
            us f.

(** The branch [if (!state.openPosition)]: scan, save the snapshots, and
    open a position when there is a best opportunity.  [None]: the
    catalog request was rejected and [run] ends with the error. *)
Definition scanBranch (cfg : config) (tk : tick) (s : state) (d : store)
  : option store :=
  match catalog tk with
  | None => None
  | Some markets =>
      let res := findOpportunity (fetch tk) (snapshots s) cfg markets in
      let s1 := {| createdAt := createdAt s;
                   lastScanAt := Some (now tk);
                   openPosition := openPosition s;
                   lastClosedId := lastClosedId s;
                   snapshots := {| byToken := applyUpdates (now tk) (updates res)
                                                (byToken (snapshots s));
                                   snapT := now tk |} |} in
      let d1 := writeState s1 d in
      match best res with
      | None => Some d1
      | Some op =>
          let p := buildPosition op cfg (now tk) in
          let s2 := withOpenPosition s1 (Some p) in
          let d2 := appendTradeLog (id p)
                      (EvOpen (now tk) (posMarketId p) (posTokenId p) (posNotional p)
                              (posEntry p) (posExits p)) d1 in
          let s3 := markAndSnapshot s2 (posTokenId p) (markMid (lastMark p))
                      (markBid (lastMark p)) (markAsk (lastMark p)) (now tk) in
          Some (writeState s3 d2)
      end
  end.

Definition withLastMark (p : position) (mk : mark) : position :=
  {| id := id p; openedAt := openedAt p; posMarketId := posMarketId p;
     posQuestion := posQuestion p; posUrl := posUrl p; posTokenId := posTokenId p;
     posNotional := posNotional p; posEntry := posEntry p; posExits := posExits p;
     posStatus := posStatus p; lastMark := mk |}.

(** The rest of the loop body: monitor the open position [p], which is
    the object held in [state.openPosition]. *)
Definition monitorBranch (tk : tick) (s : state) (p : position) (d : store) : store :=
  match fetch tk (posTokenId p) with
  | None => d
  | Some bk =>
      let ba := Utils.bestBidAsk bk in
      match Utils.bestBid ba, Utils.bestAsk ba with
      | Some bestBid, Some bestAsk =>
          let m := (bestBid + bestAsk) / 2 in
          let mk := {| markT := now tk; markMid := m;
                       markBid := bestBid; markAsk := bestAsk |} in
          let p1 := withLastMark p mk in
          let d1 := appendTradeLog (id p1) (EvMark (now tk) bestBid bestAsk m) d in
          let s1 := markAndSnapshot (withOpenPosition s (Some p1)) (posTokenId p1)
                      m bestBid bestAsk (now tk) in
          match shouldExit p1 mk (now tk) with
          | None => writeState s1 d1
          | Some decision =>
              let exitFill :=
                Utils.marketFill bk Utils.sell
                  (Js.min (posNotional p1)
                     (entryAvgPrice (posEntry p1) * entryShares (posEntry p1))) in
              let xAvg := match exitFill with
                          | Some f => Utils.avgPrice f
                          | None => bestBid
                          end in
              let pnlPerShare := xAvg - entryAvgPrice (posEntry p1) in
              let pl := pnlPerShare * entryShares (posEntry p1) in
              let c := {| closedId := id p1; closedOpenedAt := openedAt p1;
                          closedAt := now tk;
                          durationMs := (now tk - openedAt p1)%Z;
                          closedTokenId := posTokenId p1;
                          closedNotional := posNotional p1;
                          entryAvg := entryAvgPrice (posEntry p1);
                          exitAvg := xAvg;
                          closedShares := entryShares (posEntry p1);
                          pnl := pl; closedReason := reason decision;
                          closedExits := posExits p1;
                          closedLastMark := lastMark p1 |} in
              let d2 := appendTradeLog (id p1)
                          (EvClose (now tk) (reason decision) xAvg pl) d1 in
              let d3 := writeClosedSummary (id p1) c (now tk) d2 in
              let s2 := {| createdAt := createdAt s1; lastScanAt := lastScanAt s1;
                           openPosition := None; lastClosedId := Some (id p1);
                           snapshots := snapshots s1 |} in
              writeState s2 d3
          end
      | _, _ => d
      end
  end.

(** One pass through the body of [while (true)]. *)
Definition cycle (cfg : config) (tk : tick) (d : store) : option store :=
  let s := readState tk d in
  match openPosition s with
  | None => scanBranch cfg tk s d
  | Some p => Some (monitorBranch tk s p d)
  end.

(** The loop over a finite sequence of passes; it stops at an uncaught
    error, keeping the store as the last pass left it. *)
Fixpoint run (cfg : config) (ticks : list tick) (d : store) : store :=
  match ticks with
  | [] => d
  | tk :: rest =>
      match cycle cfg tk d with
      | Some d' => run cfg rest d'
      | None => d
      end
  end.

Definition isOpenEvent (e : positionId * event) : bool :=
  match snd e with EvOpen _ _ _ _ _ _ => true | _ => false end.

Definition isCloseEvent (e : positionId * event) : bool :=
  match snd e with EvClose _ _ _ _ => true | _ => false end.

(** The OPEN and the CLOSE lines ever appended, in order. *)
Definition openEvents (d : store) : list (positionId * event) :=
  filter isOpenEvent (tradeLog d).

Definition closeEvents (d : store) : list (positionId * event) :=
  filter isCloseEvent (tradeLog d).

(** The open-position slot as the state file holds it. *)
Definition persistedOpen (d : store) : option position :=
  match stateFile d with
  | Some s => openPosition s
  | None => None
  end.

(** Number of positions open according to the state file: 0 or 1. *)
Definition openCount (d : store) : nat :=
  match persistedOpen d with Some _ => 1 | None => 0 end.

(** The trade logs and the state file agree: every OPEN line but the
    CLOSEd ones belongs to the position in the slot. *)
Definition balanced (d : store) : Prop :=
  List.length (openEvents d) = (List.length (closeEvents d) + openCount d)%nat.

End Monitor.

(* ================================================================== *)
(** ** report-closed.js: the notifier *)

Module Notifier.

Import Engine Monitor.

(** [lastSeen === ptr.tradeId] on two trade identifiers. *)
Definition sameId (x y : positionId) : bool :=
  Z.eqb (idOpened x) (idOpened y)
  && String.eqb (idMarket x) (idMarket y)
  && String.eqb (idToken x) (idToken y).

(** The files under [data/] as the notifier sees them: those of the
    monitor loop, and the field [notifierLastSeen] that it keeps in
    state.json (it has a value only when that file exists). *)
Record disk : Type := {
  files : store;
  notifierLastSeen : option positionId
}.

(** [data/closed/<tradeId>.json]: the summary written last under that
    identifier. *)
Fixpoint closedFile (i : positionId) (written : list closedTrade) : option closedTrade :=
  match written with
  | [] => None
  | c :: rest =>
      match closedFile i rest with
      | Some c' => Some c'
      | None => if sameId (closedId c) i then Some c else None
      end
  end.

(** What a run of the script does: nothing, or print the message built
    from a summary and rewrite state.json, or end with the TypeError of
    assigning to [null]. *)
Inductive outcome : Type :=
| Silent
| Announced (c : closedTrade) (after : disk)
| Crashed.

(** [main] of report-closed.js; the text of the message is left out,
    the summary it is built from stands for it. *)
Definition main (d : disk) : outcome :=
  match lastClosedPointer (files d) with
  | None => Silent
  | Some (tradeId, _) =>
      let lastSeen := match stateFile (files d) with
                      | Some _ => notifierLastSeen d
                      | None => None
                      end in
      if match lastSeen with Some x => sameId x tradeId | None => false end
      then Silent
      else
        match closedFile tradeId (closedFiles (files d)) with
        | None => Silent
        | Some c =>
            match stateFile (files d) with
            | None => Crashed
            | Some _ => Announced c {| files := files d;
                                       notifierLastSeen := Some tradeId |}
            end
        end
  end.

End Notifier.

(* ================================================================== *)
(** ** Command lines: the three [parseArgs] *)

Module Cli.

Import Ascii.

Local Open Scope string_scope.

(** [a.startsWith('--')] and [a.slice(2)]: the text after the two
    dashes, for an argument that starts with them. *)
Definition flagBody (a : string) : option string :=
  match a with
  | String "-"%char (String "-"%char body) => Some body
  | _ => None
  end.

(** The text of [s] before its first ['='], and the text after it. *)
Fixpoint cutAtEq (s : string) : string * option string :=
  match s with
  | EmptyString => (EmptyString, None)
  | String c s' =>
      if Ascii.eqb c "="%char then (EmptyString, Some s')
      else let (k, r) := cutAtEq s' in (String c k, r)
  end.

(** [const [k, v] = body.split('=')]: the first two pieces; [v] is
    [undefined] when [body] has no ['=']. *)
Definition keyValue (body : string) : string * option string :=
  let (k, r) := cutAtEq body in
  (k, option_map (fun t => fst (cutAtEq t)) r).

(** [v ? ... : ...] on a string or [undefined]. *)
Definition given (v : option string) : bool :=
  match v with
  | Some (String _ _) => true
  | _ => false
  end.

(** Whether ['='] occurs in [s]. *)
Fixpoint hasEq (s : string) : bool :=
  match s with
  | EmptyString => false
  | String c s' => Ascii.eqb c "="%char || hasEq s'
  end.

(** A number that is a whole number, and one that is also not negative. *)
Definition wholeZ (x : Js.number) : option Z :=
  match x with
  | Js.Finite q => if Qeq_bool q (inject_Z (Qfloor q)) then Some (Qfloor q) else None
  | _ => None
  end.

Definition wholeNat (x : Js.number) : option nat :=
  match wholeZ x with
  | Some z => if (0 <=? z)%Z then Some (Z.to_nat z) else None
  | None => None
  end.

(** [String(x)] on a string or [undefined]. *)
Definition String_ (x : option string) : string :=
  match x with
  | Some s => s
  | None => "undefined"
  end.

(** The arguments [--k] and [--k=v]. *)
Definition flag (k : string) : string := "--" ++ k.
Definition flagWith (k v : string) : string := "--" ++ k ++ "=" ++ v.

Section Loop.

Variable settings : Type.

(** The chain [if (k === '...') args.... = ...(read())]: the assignment
    that key [k] selects, if any, as a function of what [read()]
    returns. *)
Variable assign : string -> option (option string -> settings -> settings).

(** The loop [for (let i = 2; i < argv.length; i++)] over [argv.slice(2)].
    [read()] returns [v] when it is a non-empty string; otherwise it
    steps over the next argument and returns [v ?? argv[i + 1]]. *)
Fixpoint parseLoop (args : settings) (argv : list string) : settings :=
  match argv with
  | [] => args
  | a :: rest =>
      match flagBody a with
      | None => parseLoop args rest
      | Some body =>
          let (k, v) := keyValue body in
          match assign k with
          | None => parseLoop args rest
          | Some store =>
              if given v then parseLoop (store v args) rest
              else
                let next := match v with
                            | Some e => Some e
                            | None => hd_error rest
                            end in
                match rest with
                | [] => store next args
                | _ :: rest' => parseLoop (store next args) rest'
                end
          end
      end
  end.

(** An argument that the loop passes over without any effect: one that
    does not start with two dashes, or whose key selects no assignment. *)
Definition ignored (a : string) : Prop :=
  match flagBody a with
  | None => True
  | Some body => assign (fst (keyValue body)) = None
  end.

End Loop.

End Cli.

(** [parseArgs] of the monitor loop.  [Number] is left open: what
    matters here is which text it is applied to. *)
Module MonitorCli.

Local Open Scope string_scope.

Record config : Type := {
  notional : Js.number; scanLimit : Js.number; minVolume24h : Js.number;
  minLiquidity : Js.number; maxSpread : Js.number; minMove : Js.number;
  tp : Js.number; sl : Js.number; maxHoldMs : Js.number; pollMs : Js.number
}.

(** [defaultConfig()]. *)
Definition defaultConfig : config :=
  {| notional := Js.Finite (Engine.notional Engine.defaultConfig);
     scanLimit := Js.Finite (inject_Z (Z.of_nat (Engine.scanLimit Engine.defaultConfig)));
     minVolume24h := Js.Finite (Engine.minVolume24h Engine.defaultConfig);
     minLiquidity := Js.Finite (Engine.minLiquidity Engine.defaultConfig);
     maxSpread := Js.Finite (Engine.maxSpread Engine.defaultConfig);
     minMove := Js.Finite (Engine.minMove Engine.defaultConfig);
     tp := Js.Finite (Engine.tp Engine.defaultConfig);
     sl := Js.Finite (Engine.sl Engine.defaultConfig);
     maxHoldMs := Js.Finite (inject_Z (Engine.maxHoldMs Engine.defaultConfig));
     pollMs := Js.Finite (inject_Z (Engine.pollMs Engine.defaultConfig)) |}.

Section Parse.

Variable Number : option string -> Js.number.

Definition assign (k : string)
  : option (option string -> config -> config) :=
  if String.eqb k "notional" then
    Some (fun r c =>
      {| notional := Number r; scanLimit := scanLimit c;
         minVolume24h := minVolume24h c; minLiquidity := minLiquidity c;
         maxSpread := maxSpread c; minMove := minMove c; tp := tp c; sl := sl c;
         maxHoldMs := maxHoldMs c; pollMs := pollMs c |})
  else if String.eqb k "minMove" then
    Some (fun r c =>
      {| notional := notional c; scanLimit := scanLimit c;
         minVolume24h := minVolume24h c; minLiquidity := minLiquidity c;
         maxSpread := maxSpread c; minMove := Number r; tp := tp c; sl := sl c;
         maxHoldMs := maxHoldMs c; pollMs := pollMs c |})
  else if String.eqb k "maxSpread" then
    Some (fun r c =>
      {| notional := notional c; scanLimit := scanLimit c;
         minVolume24h := minVolume24h c; minLiquidity := minLiquidity c;
         maxSpread := Number r; minMove := minMove c; tp := tp c; sl := sl c;
         maxHoldMs := maxHoldMs c; pollMs := pollMs c |})
  else if String.eqb k "pollMs" then
    Some (fun r c =>
      {| notional := notional c; scanLimit := scanLimit c;
         minVolume24h := minVolume24h c; minLiquidity := minLiquidity c;
         maxSpread := maxSpread c; minMove := minMove c; tp := tp c; sl := sl c;
         maxHoldMs := maxHoldMs c; pollMs := Number r |})
  else if String.eqb k "minVolume24h" then
    Some (fun r c =>
      {| notional := notional c; scanLimit := scanLimit c;
         minVolume24h := Number r; minLiquidity := minLiquidity c;
         maxSpread := maxSpread c; minMove := minMove c; tp := tp c; sl := sl c;
         maxHoldMs := maxHoldMs c; pollMs := pollMs c |})
  else if String.eqb k "minLiquidity" then
    Some (fun r c =>
      {| notional := notional c; scanLimit := scanLimit c;
         minVolume24h := minVolume24h c; minLiquidity := Number r;
         maxSpread := maxSpread c; minMove := minMove c; tp := tp c; sl := sl c;
         maxHoldMs := maxHoldMs c; pollMs := pollMs c |})
  else None.

(** [parseArgs(process.argv)], as a function of [process.argv.slice(2)]. *)
Definition parseArgs (argv : list string) : config :=
  Cli.parseLoop assign defaultConfig argv.

End Parse.

(** A configuration all of whose numbers are finite, the counts and the
    times whole, read as the configuration the engine is modelled on.
    Any other configuration, one with a NaN for instance, has no such
    reading. *)
Definition finiteConfig (c : config) : option Engine.config :=
  match Js.isFinite (notional c), Js.isFinite (minVolume24h c),
        Js.isFinite (minLiquidity c), Js.isFinite (maxSpread c),
        Js.isFinite (minMove c), Js.isFinite (tp c), Js.isFinite (sl c) with
  | Some n, Some v, Some l, Some ms, Some mm, Some t, Some s =>
      match Cli.wholeNat (scanLimit c), Cli.wholeZ (maxHoldMs c),
            Cli.wholeZ (pollMs c) with
      | Some k, Some h, Some p =>
          Some {| Engine.notional := n; Engine.scanLimit := k;
                  Engine.minVolume24h := v; Engine.minLiquidity := l;
                  Engine.maxSpread := ms; Engine.minMove := mm;
                  Engine.tp := t; Engine.sl := s;
                  Engine.maxHoldMs := h; Engine.pollMs := p |}
      | _, _, _ => None
      end
  | _, _, _, _, _, _, _ => None
  end.

End MonitorCli.

(** [parseArgs] of the single-shot scan. *)
Module ScanCli.

Local Open Scope string_scope.

Record args : Type := {
  maxAlerts : Js.number; limit : Js.number; minVolume24h : Js.number;
  minLiquidity : Js.number; notional : Js.number; maxEndHours : Js.number;
  maxSpread : Js.number; snapshotFile : string
}.

Definition defaultArgs : args :=
  {| maxAlerts := Js.Finite 5; limit := Js.Finite 200;
     minVolume24h := Js.Finite 3000; minLiquidity := Js.Finite 1500;
     notional := Js.Finite 100; maxEndHours := Js.Finite (24 * 365 * 2);
     maxSpread := Js.Finite 0.12; snapshotFile := "data/snapshots.json" |}.

Section Parse.

Variable Number : option string -> Js.number.

Definition assign (k : string) : option (option string -> args -> args) :=
  if String.eqb k "maxAlerts" then
    Some (fun r c =>
      {| maxAlerts := Number r; limit := limit c; minVolume24h := minVolume24h c;
         minLiquidity := minLiquidity c; notional := notional c;
         maxEndHours := maxEndHours c; maxSpread := maxSpread c;
         snapshotFile := snapshotFile c |})
  else if String.eqb k "limit" then
    Some (fun r c =>
      {| maxAlerts := maxAlerts c; limit := Number r; minVolume24h := minVolume24h c;
         minLiquidity := minLiquidity c; notional := notional c;
         maxEndHours := maxEndHours c; maxSpread := maxSpread c;
         snapshotFile := snapshotFile c |})
  else if String.eqb k "minVolume24h" then
    Some (fun r c =>
      {| maxAlerts := maxAlerts c; limit := limit c; minVolume24h := Number r;
         minLiquidity := minLiquidity c; notional := notional c;
         maxEndHours := maxEndHours c; maxSpread := maxSpread c;
         snapshotFile := snapshotFile c |})
  else if String.eqb k "minLiquidity" then
    Some (fun r c =>
      {| maxAlerts := maxAlerts c; limit := limit c; minVolume24h := minVolume24h c;
         minLiquidity := Number r; notional := notional c;
         maxEndHours := maxEndHours c; maxSpread := maxSpread c;
         snapshotFile := snapshotFile c |})
  else if String.eqb k "notional" then
    Some (fun r c =>
      {| maxAlerts := maxAlerts c; limit := limit c; minVolume24h := minVolume24h c;
         minLiquidity := minLiquidity c; notional := Number r;
         maxEndHours := maxEndHours c; maxSpread := maxSpread c;
         snapshotFile := snapshotFile c |})
  else if String.eqb k "maxEndHours" then
    Some (fun r c =>
      {| maxAlerts := maxAlerts c; limit := limit c; minVolume24h := minVolume24h c;
         minLiquidity := minLiquidity c; notional := notional c;
         maxEndHours := Number r; maxSpread := maxSpread c;
         snapshotFile := snapshotFile c |})
  else if String.eqb k "maxSpread" then
    Some (fun r c =>
      {| maxAlerts := maxAlerts c; limit := limit c; minVolume24h := minVolume24h c;
         minLiquidity := minLiquidity c; notional := notional c;
         maxEndHours := maxEndHours c; maxSpread := Number r;
         snapshotFile := snapshotFile c |})
  else if String.eqb k "snapshotFile" then
    Some (fun r c =>
      {| maxAlerts := maxAlerts c; limit := limit c; minVolume24h := minVolume24h c;
         minLiquidity := minLiquidity c; notional := notional c;
         maxEndHours := maxEndHours c; maxSpread := maxSpread c;
         snapshotFile := Cli.String_ r |})
  else None.

Definition parseArgs (argv : list string) : args :=
  Cli.parseLoop assign defaultArgs argv.

End Parse.

(** Arguments all of whose numbers are finite, the two counts whole and
    not negative, read as the arguments the scan is modelled on. *)
Definition finiteArgs (a : args) : option Scan.args :=
  match Cli.wholeNat (maxAlerts a), Cli.wholeNat (limit a),
        Js.isFinite (minVolume24h a), Js.isFinite (minLiquidity a),
        Js.isFinite (notional a), Js.isFinite (maxEndHours a),
        Js.isFinite (maxSpread a) with
  | Some k, Some lim, Some v, Some l, Some n, Some h, Some ms =>
      Some {| Scan.maxAlerts := k; Scan.limit := lim; Scan.minVolume24h := v;
              Scan.minLiquidity := l; Scan.notional := n; Scan.maxEndHours := h;
              Scan.maxSpread := ms |}
  | _, _, _, _, _, _, _ => None
  end.

End ScanCli.

(** [parseArgs] of paper.js. *)
Module PaperCli.

Local Open Scope string_scope.

Record args : Type := { bankroll : Js.number }.

Section Parse.

Variable Number : option string -> Js.number.

Definition assign (k : string) : option (option string -> args -> args) :=
  if String.eqb k "bankroll" then Some (fun r _ => {| bankroll := Number r |})
  else None.

Definition parseArgs (argv : list string) : args :=
  Cli.parseLoop assign {| bankroll := Js.Finite 1000 |} argv.

End Parse.

End PaperCli.

(* ================================================================== *)
(** ** Vocabulary for the properties of the scanners *)

Module Invariants.

Import Catalog.

(** The snapshot of token [tok], if there is one, holds the mid that the
    book served by [f] shows now. *)
Definition currentAt (f : fetcher) (sn : snapshots) (tok : string) : Prop :=
  forall e bk b a,
    byToken sn tok = Some e ->
    f tok = Some bk ->
    Utils.bestBid (Utils.bestBidAsk bk) = Some b ->
    Utils.bestAsk (Utils.bestBidAsk bk) = Some a ->
    mid e == (b + a) / 2.

(** The book of token [tok] is served and shows a bid and an ask. *)
Definition quoted (f : fetcher) (tok : string) : Prop :=
  exists bk b a,
    f tok = Some bk /\
    Utils.bestBid (Utils.bestBidAsk bk) = Some b /\
    Utils.bestAsk (Utils.bestBidAsk bk) = Some a.

(** [tok] is one of the first two tokens of [m], and both are quoted:
    the live scanner gets as far as comparing moves for this market. *)
Definition observed (f : fetcher) (m : market) (tok : string) : Prop :=
  exists tA tB rest,
    clobTokenIds m = tA :: tB :: rest /\
    quoted f tA /\ quoted f tB /\ (tok = tA \/ tok = tB).

(** What [findOpportunity] promises about an opportunity it returns:
    the market passed the filters, the token is one of its first two, the
    quotes are those of the token's book, the recorded spread and move
    passed the hard filters, and the entry is the buy fill of that book at
    the configured notional.  The recorded mid, spread and move are taken
    as the code computed them; no arithmetic is redone on them. *)
Definition soundOpportunity (f : fetcher) (sn : snapshots) (cfg : Engine.config)
    (markets : list market) (op : Engine.opportunity) : Prop :=
  let ch := Engine.chosen op in
  In (Engine.market op) markets /\
  Engine.passesFilters cfg (Engine.market op) = true /\
  In (Engine.tokenId ch) (firstn 2 (clobTokenIds (Engine.market op))) /\
  exists bk,
    f (Engine.tokenId ch) = Some bk /\
    Utils.bestBid (Utils.bestBidAsk bk) = Some (Engine.chBid ch) /\
    Utils.bestAsk (Utils.bestBidAsk bk) = Some (Engine.chAsk ch) /\
    Engine.chSpread ch <= Engine.maxSpread cfg /\
    Engine.chPrevMid ch = match byToken sn (Engine.tokenId ch) with
                          | Some e => mid e
                          | None => Engine.chMid ch
                          end /\
    Engine.minMove cfg <= Js.abs (Engine.chMove ch) /\
    Utils.marketFill bk Utils.buy (Engine.notional cfg) = Some (Engine.entry ch).

(** What the single-shot scan promises about a row it ranks: the
    recorded spread passed the filter, the market is a listed one that
    passed the filters, the token is the candidate of that market whose
    recorded distance to its reference price is least, the quotes are the
    non-zero best bid and ask of the token's book, and a buy of the
    configured notional has a slippage result. *)
Definition soundRow (f : fetcher) (now : Z) (a : Scan.args)
    (markets : list market) (r : Scan.row) : Prop :=
  Scan.rowSpread r <= Scan.maxSpread a /\
  exists m,
    In m markets /\
    Scan.passesFilters now a m = true /\
    Scan.tooFewOutcomes m = false /\
    Scan.rowMarketId r = marketId m /\
    In (Scan.rowToken r) (clobTokenIds m) /\
    (exists ch,
       In ch (snd (Scan.tokenLoop f 0 (clobTokenIds m) (outcomePrices m))) /\
       Scan.token ch = Scan.rowToken r /\
       Scan.refPrice ch = Scan.rowRefPrice r /\
       forall c, In c (snd (Scan.tokenLoop f 0 (clobTokenIds m) (outcomePrices m))) ->
                 Scan.err ch <= Scan.err c) /\
    exists bk,
      f (Scan.rowToken r) = Some bk /\
      Utils.bestBid (Utils.bestBidAsk bk) = Some (Scan.rowBid r) /\
      Utils.bestAsk (Utils.bestBidAsk bk) = Some (Scan.rowAsk r) /\
      ~ Scan.rowBid r == 0 /\ ~ Scan.rowAsk r == 0 /\
      exists s,
        Scan.slippageForNotional bk Utils.buy (Scan.notional a) = Some s /\
        Scan.slipBuy r = Scan.slippage s.

(** The summary [c] and the CLOSE line [e] tell of the same close: the
    same position, reason, exit price and PnL.  The times are left out:
    the summary and the line each read the clock for themselves. *)
Definition sameClose (c : Monitor.closedTrade) (e : Engine.positionId * Monitor.event)
  : Prop :=
  Monitor.closedId c = fst e /\
  exists at_, snd e = Monitor.EvClose at_ (Monitor.closedReason c)
                        (Monitor.exitAvg c) (Monitor.pnl c).

(** The identifier of the summary written last. *)
Definition lastClosedOf (d : Monitor.store) : option Engine.positionId :=
  option_map Monitor.closedId (last (map Some (Monitor.closedFiles d)) None).

(** The books of closed trades are in order: one summary per CLOSE line,
    and both the pointer file and the state file name the last one. *)
Definition ledger (d : Monitor.store) : Prop :=
  Forall2 sameClose (Monitor.closedFiles d) (Monitor.closeEvents d) /\
  option_map fst (Monitor.lastClosedPointer d) = lastClosedOf d /\
  match Monitor.stateFile d with
  | Some s => Monitor.lastClosedId s = lastClosedOf d
  | None => Monitor.closedFiles d = []
  end.

End Invariants.

(* ================================================================== *)
(** ** Concrete books, markets and stores used below *)

Module Examples.

Import Utils.

Local Open Scope string_scope.

Definition lvl (p s : Q) : rawLevel :=
  {| rawPrice := Js.Finite p; rawSize := Js.Finite s |}.

(** A bid of 0.765625 for 1000 shares, nothing else. *)
Definition oneBid : book := {| bids := [lvl 0.765625 1000]; asks := [] |}.

(** Asks [(0.50, 100), (0.52, 200)] delivered out of order, one bid. *)
Definition twoAsks : book :=
  {| bids := [lvl 0.48 50]; asks := [lvl 0.52 200; lvl 0.50 100] |}.

(** A book whose sides carry a zero-priced ask and a negative bid next
    to ordinary levels. *)
Definition strayPrices : book :=
  {| bids := [lvl (-0.10) 5]; asks := [lvl 0.60 10; lvl 0 5] |}.

(** A position entered at 0.40 at time 0 with the default offsets:
    take profit at 0.42, stop loss at 0.38, at most one hour. *)
Definition heldPosition : Engine.position :=
  {| Engine.id := {| Engine.idOpened := 0; Engine.idMarket := "m1";
                     Engine.idToken := "A" |};
     Engine.openedAt := 0;
     Engine.posMarketId := "m1";
     Engine.posQuestion := "q";
     Engine.posUrl := "u";
     Engine.posTokenId := "A";
     Engine.posNotional := 200;
     Engine.posEntry := {| Engine.entryAvgPrice := 0.40; Engine.entryShares := 500;
                           Engine.bookBid := 0.39; Engine.bookAsk := 0.40;
                           Engine.entrySpread := 0.01 |};
     Engine.posExits := {| Engine.takeProfitPrice := 0.42;
                           Engine.stopLossPrice := 0.38;
                           Engine.exitMaxHoldMs := 3600000 |};
     Engine.posStatus := Engine.OPEN;
     Engine.lastMark := {| Engine.markT := 0; Engine.markMid := 0.395;
                           Engine.markBid := 0.39; Engine.markAsk := 0.40 |} |}.

(** A state file holding [heldPosition], its OPEN line in the log. *)
Definition holdingStore : Monitor.store :=
  {| Monitor.stateFile :=
       Some {| Monitor.createdAt := 0; Monitor.lastScanAt := Some 0%Z;
               Monitor.openPosition := Some heldPosition;
               Monitor.lastClosedId := None;
               Monitor.snapshots := {| Catalog.byToken := fun _ => None;
                                       Catalog.snapT := 0 |} |};
     Monitor.tradeLog :=
       [(Engine.id heldPosition,
         Monitor.EvOpen 0 "m1" "A" 200 (Engine.posEntry heldPosition)
           (Engine.posExits heldPosition))];
     Monitor.closedFiles := [];
     Monitor.lastClosedPointer := None |}.

(** A pass at time 1000 in which the book of token A shows a bid of
    0.425 and an ask of 0.43, and the catalog lists nothing. *)
Definition profitTick : Monitor.tick :=
  {| Monitor.now := 1000;
     Monitor.catalog := Some [];
     Monitor.fetch := fun tok =>
       if String.eqb tok "A"
       then Some {| bids := [lvl 0.425 1000]; asks := [lvl 0.43 1000] |}
       else None |}.

(** No snapshot yet. *)
Definition noSnapshots : Catalog.snapshots :=
  {| Catalog.byToken := fun _ => None; Catalog.snapT := 0 |}.

(** A bid of 0.40 and an ask of 0.60: a spread of 0.20. *)
Definition wideBook : book :=
  {| bids := [lvl 0.40 1000]; asks := [lvl 0.60 1000] |}.

(** The books of tokens A and B are both [wideBook]; no other token
    answers. *)
Definition wideFetch : Catalog.fetcher :=
  fun tok => if String.eqb tok "A" || String.eqb tok "B" then Some wideBook else None.

(** An open, liquid binary market on tokens A and B, ending at time
    5000000. *)
Definition wideMarket : Catalog.market :=
  {| Catalog.marketId := "m1"; Catalog.question := "q"; Catalog.slug := "s";
     Catalog.closed := Some false; Catalog.enableOrderBook := true;
     Catalog.acceptingOrders := Some true;
     Catalog.volume24hr := Some 60000; Catalog.liquidityNum := Some 20000;
     Catalog.liquidity := None; Catalog.endDate := Some 5000000%Z;
     Catalog.outcomes := ["Yes"; "No"];
     Catalog.outcomePrices := [Js.Finite 0.5; Js.Finite 0.5];
     Catalog.clobTokenIds := ["A"; "B"] |}.

(** The same market with an end date that does not parse. *)
Definition undatedMarket : Catalog.market :=
  {| Catalog.marketId := "m1"; Catalog.question := "q"; Catalog.slug := "s";
     Catalog.closed := Some false; Catalog.enableOrderBook := true;
     Catalog.acceptingOrders := Some true;
     Catalog.volume24hr := Some 60000; Catalog.liquidityNum := Some 20000;
     Catalog.liquidity := None; Catalog.endDate := None;
     Catalog.outcomes := ["Yes"; "No"];
     Catalog.outcomePrices := [Js.Finite 0.5; Js.Finite 0.5];
     Catalog.clobTokenIds := ["A"; "B"] |}.

(** Token A answers with [wideBook]; the book of token B has no bid. *)
Definition lopsidedFetch : Catalog.fetcher :=
  fun tok =>
    if String.eqb tok "A" then Some wideBook
    else if String.eqb tok "B" then Some {| bids := []; asks := [lvl 0.60 1000] |}
    else None.

(** Token A was last seen at a mid of 0.20. *)
Definition movedSnapshots : Catalog.snapshots :=
  {| Catalog.byToken := fun tok =>
       if String.eqb tok "A"
       then Some {| Catalog.mid := 0.20; Catalog.bid := 0.195; Catalog.ask := 0.205;
                    Catalog.t := 0 |}
       else None;
     Catalog.snapT := 0 |}.

(** Token A now trades at 0.695 / 0.705 and token B at 0.295 / 0.305. *)
Definition movedFetch : Catalog.fetcher :=
  fun tok =>
    if String.eqb tok "A"
    then Some {| bids := [lvl 0.695 1000]; asks := [lvl 0.705 1000] |}
    else if String.eqb tok "B"
    then Some {| bids := [lvl 0.295 1000]; asks := [lvl 0.305 1000] |}
    else None.

(** An open binary market with a 24h volume of 99999. *)
Definition busyMarket : Catalog.market :=
  {| Catalog.marketId := "m2"; Catalog.question := "q"; Catalog.slug := "s";
     Catalog.closed := Some false; Catalog.enableOrderBook := true;
     Catalog.acceptingOrders := Some true;
     Catalog.volume24hr := Some 99999; Catalog.liquidityNum := Some 20000;
     Catalog.liquidity := None; Catalog.endDate := Some 5000000%Z;
     Catalog.outcomes := ["Yes"; "No"];
     Catalog.outcomePrices := [Js.Finite 0.7; Js.Finite 0.3];
     Catalog.clobTokenIds := ["A"; "B"] |}.

(** A bid of 0.50 and an ask of 0.51, 1000 shares each. *)
Definition tightBook : book :=
  {| bids := [lvl 0.50 1000]; asks := [lvl 0.51 1000] |}.

(** Token A answers with [tightBook], token B with [wideBook]. *)
Definition tightFetch : Catalog.fetcher :=
  fun tok =>
    if String.eqb tok "A" then Some tightBook
    else if String.eqb tok "B" then Some wideBook
    else None.

(** [tightBook] with a stray ask of price zero delivered in front. *)
Definition zeroAskBook : book :=
  {| bids := [lvl 0.50 1000]; asks := [lvl 0 5; lvl 0.51 1000] |}.

(** Tokens A and B both answer with [tightBook]. *)
Definition tightFetchBoth : Catalog.fetcher :=
  fun tok => if String.eqb tok "A" || String.eqb tok "B" then Some tightBook else None.

(** The same, but the book of token A carries the stray ask. *)
Definition zeroAskFetch : Catalog.fetcher :=
  fun tok =>
    if String.eqb tok "A" then Some zeroAskBook
    else if String.eqb tok "B" then Some tightBook
    else None.

(** Tokens A and B were last seen at the quotes of [tightBook]. *)
Definition restingSnapshots : Catalog.snapshots :=
  {| Catalog.byToken := fun tok =>
       if String.eqb tok "A" || String.eqb tok "B"
       then Some {| Catalog.mid := 0.505; Catalog.bid := 0.50; Catalog.ask := 0.51;
                    Catalog.t := 0 |}
       else None;
     Catalog.snapT := 0 |}.

(** The single-shot report at time 1000 over [wideMarket] alone. *)
Definition wideReport : Scan.report :=
  Scan.main wideFetch 1000 Scan.defaultArgs noSnapshots [wideMarket].

(** A pass of the monitor loop at time 1000 over [wideMarket] alone. *)
Definition wideTick : Monitor.tick :=
  {| Monitor.now := 1000; Monitor.catalog := Some [wideMarket];
     Monitor.fetch := wideFetch |}.

(** A pass at time 2000 over the same catalog and books as [wideTick]. *)
Definition wideTickLater : Monitor.tick :=
  {| Monitor.now := 2000; Monitor.catalog := Some [wideMarket];
     Monitor.fetch := wideFetch |}.

(** A pass at time 3600000 in which the book of token A shows a bid of
    0.40 and an ask of 0.41. *)
Definition lateTick : Monitor.tick :=
  {| Monitor.now := 3600000;
     Monitor.catalog := Some [];
     Monitor.fetch := fun tok =>
       if String.eqb tok "A"
       then Some {| bids := [lvl 0.40 1000]; asks := [lvl 0.41 1000] |}
       else None |}.

(** A pass in which no book can be fetched. *)
Definition outageTick : Monitor.tick :=
  {| Monitor.now := 5000; Monitor.catalog := Some []; Monitor.fetch := fun _ => None |}.

(** A state file without a position whose snapshots are
    [movedSnapshots]. *)
Definition movedStore : Monitor.store :=
  {| Monitor.stateFile :=
       Some {| Monitor.createdAt := 0; Monitor.lastScanAt := Some 0%Z;
               Monitor.openPosition := None; Monitor.lastClosedId := None;
               Monitor.snapshots := movedSnapshots |};
     Monitor.tradeLog := []; Monitor.closedFiles := [];
     Monitor.lastClosedPointer := None |}.

(** A pass at time 1000 over [busyMarket] with the books of
    [movedFetch]. *)
Definition movedTick : Monitor.tick :=
  {| Monitor.now := 1000; Monitor.catalog := Some [busyMarket];
     Monitor.fetch := movedFetch |}.

(** A pass at time 2000 over the same catalog and books as [movedTick]. *)
Definition movedTickLater : Monitor.tick :=
  {| Monitor.now := 2000; Monitor.catalog := Some [busyMarket];
     Monitor.fetch := movedFetch |}.

(** An open market whose first token was last published at 0.505. *)
Definition tightMarket : Catalog.market :=
  {| Catalog.marketId := "m3"; Catalog.question := "q"; Catalog.slug := "s";
     Catalog.closed := Some false; Catalog.enableOrderBook := true;
     Catalog.acceptingOrders := Some true;
     Catalog.volume24hr := Some 60000; Catalog.liquidityNum := Some 20000;
     Catalog.liquidity := None; Catalog.endDate := Some 5000000%Z;
     Catalog.outcomes := ["Yes"; "No"];
     Catalog.outcomePrices := [Js.Finite 0.505; Js.Finite 0.3];
     Catalog.clobTokenIds := ["A"; "B"] |}.

(** A pass at time 1000 over [tightMarket] alone, both tokens quoted
    0.50 / 0.51, and a pass at time 2000 over the same catalog and books. *)
Definition tightTick : Monitor.tick :=
  {| Monitor.now := 1000; Monitor.catalog := Some [tightMarket];
     Monitor.fetch := tightFetchBoth |}.

Definition tightTickLater : Monitor.tick :=
  {| Monitor.now := 2000; Monitor.catalog := Some [tightMarket];
     Monitor.fetch := tightFetchBoth |}.

(** The single-shot report at time 1000 over [tightMarket] alone. *)
Definition tightReport : Scan.report :=
  Scan.main tightFetch 1000 Scan.defaultArgs noSnapshots [tightMarket].

(** An opportunity on token A entered at 0.40. *)
Definition sampleOpportunity : Engine.opportunity :=
  {| Engine.score := 0%R;
     Engine.market := wideMarket;
     Engine.chosen :=
       {| Engine.tokenId := "A"; Engine.chMid := 0.395; Engine.chPrevMid := 0.36;
          Engine.chMove := 0.035; Engine.chSpread := 0.01;
          Engine.chBid := 0.39; Engine.chAsk := 0.40;
          Engine.entry := {| avgPrice := 0.40; shares := 500; notional := 200 |} |};
     Engine.url := "u" |}.

(** A store that has never been written. *)
Definition freshStore : Monitor.store :=
  {| Monitor.stateFile := None; Monitor.tradeLog := [];
     Monitor.closedFiles := []; Monitor.lastClosedPointer := None |}.

Definition markAt (b a : Q) : Engine.mark :=
  {| Engine.markT := 0; Engine.markMid := (b + a) / 2;
     Engine.markBid := b; Engine.markAsk := a |}.

(** Token [tok] seen at [mid] after [prevMid], on [tightBook]. *)
Definition viewOf (tok : string) (mid prevMid : Q) : Engine.tokenView :=
  {| Engine.tvTokenId := tok; Engine.tvMid := mid; Engine.tvPrevMid := prevMid;
     Engine.tvSpread := 0.01; Engine.tvBook := tightBook;
     Engine.tvMove := mid - prevMid |}.

(** A stand-in for [Number] that agrees with it on [undefined], on the
    empty string and on the texts of the command lines below. *)
Definition numberOf (x : option string) : Js.number :=
  match x with
  | None => Js.NaN
  | Some s =>
      if String.eqb s "" then Js.Finite 0
      else if String.eqb s "50" then Js.Finite 50
      else if String.eqb s "0.05" then Js.Finite 0.05
      else Js.NaN
  end.

(** Token A moved up by 0.01, token B down by 0.04. *)
Definition twoViews : list Engine.tokenView :=
  [viewOf "A" 0.50 0.49; viewOf "B" 0.50 0.54].

End Examples.

(* ================================================================== *)
(** * Properties *)

Unset Implicit Arguments.

Arguments Js.leb : simpl never.
Arguments Js.ltb : simpl never.
Arguments Js.gtb : simpl never.
Arguments Js.geb : simpl never.
Arguments Js.min : simpl never.
Arguments Js.max : simpl never.
Arguments Js.abs : simpl never.

(** ** Comparisons and sorting *)

Section JsFacts.

Local Open Scope Q_scope.

Lemma leb_true (a b : Q) : Js.leb a b = true <-> a <= b.
Proof. unfold Js.leb. apply Qle_bool_iff. Qed.

Lemma leb_false (a b : Q) : Js.leb a b = false <-> b < a.
Proof.
  unfold Js.leb. split; intro H.
  - apply Qnot_le_lt. intro Hle. apply Qle_bool_iff in Hle. congruence.
  - destruct (Qle_bool a b) eqn:E; [|reflexivity].
    apply Qle_bool_iff in E. exfalso. apply (Qlt_not_le _ _ H E).
Qed.

Lemma ltb_true (a b : Q) : Js.ltb a b = true <-> a < b.
Proof.
  unfold Js.ltb. rewrite negb_true_iff. apply (leb_false b a).
Qed.

Lemma ltb_false (a b : Q) : Js.ltb a b = false <-> b <= a.
Proof.
  unfold Js.ltb. rewrite negb_false_iff. apply (leb_true b a).
Qed.

Lemma gtb_true (a b : Q) : Js.gtb a b = true <-> b < a.
Proof. unfold Js.gtb. apply ltb_true. Qed.

Lemma gtb_false (a b : Q) : Js.gtb a b = false <-> a <= b.
Proof. unfold Js.gtb. apply ltb_false. Qed.

Lemma geb_true (a b : Q) : Js.geb a b = true <-> b <= a.
Proof. unfold Js.geb. apply leb_true. Qed.

Lemma geb_false (a b : Q) : Js.geb a b = false <-> a < b.
Proof. unfold Js.geb. apply leb_false. Qed.

Lemma min_cases (a b : Q) :
  (a <= b /\ Js.min a b = a) \/ (b < a /\ Js.min a b = b).
Proof.
  unfold Js.min. destruct (Js.leb a b) eqn:E.
  - left. split; [apply leb_true; exact E | reflexivity].
  - right. split; [apply leb_false; exact E | reflexivity].
Qed.

End JsFacts.

Section SortFacts.

Variable A : Type.
Variable before : A -> A -> bool.

Lemma insert_In (x y : A) (l : list A) :
  In y (Js.insert before x l) <-> y = x \/ In y l.
Proof.
  induction l as [|z l IH]; simpl.
  - intuition congruence.
  - destruct (before x z); simpl; [intuition congruence|].
    rewrite IH. intuition congruence.
Qed.

Lemma sort_In (y : A) (l : list A) : In y (Js.sort before l) <-> In y l.
Proof.
  induction l as [|z l IH]; simpl; [tauto|].
  rewrite insert_In, IH. intuition congruence.
Qed.

Hypothesis before_total : forall x y, before x y = false -> before y x = true.

Lemma insert_HdRel (x y : A) (l : list A) :
  before y x = true ->
  HdRel (fun a b => before a b = true) y l ->
  HdRel (fun a b => before a b = true) y (Js.insert before x l).
Proof.
  intros Hyx Hhd. destruct l as [|z l]; simpl.
  - constructor. exact Hyx.
  - destruct (before x z); constructor; [exact Hyx|].
    inversion Hhd; assumption.
Qed.

Lemma insert_Sorted (x : A) (l : list A) :
  Sorted (fun a b => before a b = true) l ->
  Sorted (fun a b => before a b = true) (Js.insert before x l).
Proof.
  induction l as [|z l IH]; intro Hs; simpl.
  - constructor; constructor.
  - destruct (before x z) eqn:E.
    + constructor; [exact Hs|]. constructor. exact E.
    + inversion Hs as [|? ? Hs' Hhd]; subst.
      constructor; [exact (IH Hs')|].
      apply insert_HdRel; [exact (before_total x z E)|exact Hhd].
Qed.

Lemma sort_Sorted (l : list A) : Sorted (fun a b => before a b = true) (Js.sort before l).
Proof.
  induction l as [|z l IH]; simpl; [constructor|].
  apply insert_Sorted. exact IH.
Qed.

Lemma sort_nil_inv (l : list A) : Js.sort before l = [] -> l = [].
Proof.
  destruct l as [|z l]; [reflexivity|]. intro H.
  assert (Hin : In z (Js.sort before (z :: l))) by (apply sort_In; left; reflexivity).
  rewrite H in Hin. destruct Hin.
Qed.

End SortFacts.

(** ** Order-book levels *)

Import Utils.

Section LevelFacts.

Local Open Scope Q_scope.

Lemma keepLevel_some (l : rawLevel) (x : level) :
  keepLevel l = Some x ->
  Js.isFinite (rawPrice l) = Some (price x) /\ 0 < price x /\ 0 < size x.
Proof.
  unfold keepLevel.
  destruct (Js.isFinite (rawPrice l)) as [p|]; [|discriminate].
  destruct (Js.isFinite (rawSize l)) as [s|]; [|discriminate].
  destruct (Js.gtb p 0) eqn:Ep; [|discriminate].
  destruct (Js.gtb s 0) eqn:Es; [|discriminate].
  simpl. intro H. injection H as <-. simpl.
  apply gtb_true in Ep. apply gtb_true in Es. auto.
Qed.

Lemma filterLevels_In (raw : list rawLevel) (x : level) :
  In x (filterLevels raw) ->
  exists l, In l raw /\ Js.isFinite (rawPrice l) = Some (price x)
            /\ 0 < price x /\ 0 < size x.
Proof.
  induction raw as [|l raw IH]; simpl; [tauto|].
  destruct (keepLevel l) as [y|] eqn:E.
  - intros [<-|Hin].
    + exists l. split; [left; reflexivity|]. apply keepLevel_some. exact E.
    + destruct (IH Hin) as [l' [H1 H2]]. exists l'. split; [right; exact H1|exact H2].
  - intro Hin. destruct (IH Hin) as [l' [H1 H2]].
    exists l'. split; [right; exact H1|exact H2].
Qed.

Lemma sortedLevels_In (bk : book) (sd : side) (x : level) :
  In x (sortedLevels bk sd) ->
  exists l, In l (rawSide bk sd) /\ Js.isFinite (rawPrice l) = Some (price x)
            /\ 0 < price x /\ 0 < size x.
Proof.
  unfold sortedLevels. rewrite sort_In. apply filterLevels_In.
Qed.

Lemma sortedLevels_positive (bk : book) (sd : side) :
  positiveLevels (sortedLevels bk sd).
Proof.
  intros x Hin. destruct (sortedLevels_In _ _ _ Hin) as [l [_ [_ H]]]. exact H.
Qed.

Lemma positiveLevels_tail (l : level) (rest : list level) :
  positiveLevels (l :: rest) -> positiveLevels rest.
Proof. intros H x Hx. apply H. right. exact Hx. Qed.

Lemma levelUsd_pos (l : level) : 0 < price l -> 0 < size l -> 0 < price l * size l.
Proof. intros Hp Hs. apply Qmult_lt_0_compat; assumption. Qed.


End LevelFacts.

(** ** The fill simulator *)

Section FillFacts.

Local Open Scope Q_scope.

Lemma marketFill_insufficient (bk : book) (sd : side) (n : Q) :
  insufficient (fillLoop (sortedLevels bk sd) (startWalk n)) = true ->
  marketFill bk sd n = None.
Proof. unfold marketFill. intros ->. reflexivity. Qed.

Lemma marketFill_some_inv (bk : book) (sd : side) (n : Q) (r : fill) :
  marketFill bk sd n = Some r ->
  let w := fillLoop (sortedLevels bk sd) (startWalk n) in
  0 < accCost w /\ 0 < accShares w /\ remainingUsd w <= eps_depth /\
  avgPrice r = accCost w / accShares w /\ shares r = accShares w.
Proof.
  unfold marketFill, insufficient.
  destruct (Js.leb (accCost _) 0) eqn:Ec; [discriminate|].
  destruct (Js.leb (accShares _) 0) eqn:Es; [discriminate|].
  destruct (Js.gtb (remainingUsd _) eps_depth) eqn:Er; [discriminate|].
  simpl. intro H. injection H as <-. simpl.
  apply leb_false in Ec. apply leb_false in Es. apply gtb_false in Er.
  repeat split; assumption.
Qed.

(** With a notional of zero or less the first level takes the whole
    (non-positive) amount and the loop stops there. *)
Lemma fillLoop_nonpositive (levels : list level) (n : Q) :
  positiveLevels levels -> n <= 0 ->
  accCost (fillLoop levels (startWalk n)) <= 0 /\
  accShares (fillLoop levels (startWalk n)) <= 0.
Proof.
  intros Hpos Hn. destruct levels as [|l rest]; simpl; [lra|].
  destruct (Hpos l (or_introl eq_refl)) as [Hp Hs].
  pose proof (levelUsd_pos l Hp Hs) as Hu.
  unfold fillStep. simpl.
  destruct (min_cases n (price l * size l)) as [[_ E]|[Hlt _]]; [|lra].
  rewrite E.
  assert (Hb : Js.leb (n - n) eps_break = true).
  { apply leb_true. unfold eps_break. lra. }
  rewrite Hb. simpl.
  assert (Hq : n / price l <= 0).
  { apply Qle_shift_div_r; [exact Hp|]. lra. }
  lra.
Qed.


Lemma take_share_lower (lo p tk : Q) : 0 < p -> 0 <= tk -> lo <= p -> lo * (tk / p) <= tk.
Proof.
  intros Hp Ht Hlo.
  assert (Hq : 0 <= tk / p).
  { apply Qle_shift_div_l; [exact Hp|]. lra. }
  assert (E : p * (tk / p) == tk).
  { apply Qmult_div_r. intro H0. rewrite H0 in Hp. apply (Qlt_irrefl 0 Hp). }
  rewrite <- E at 2. apply Qmult_le_compat_r; assumption.
Qed.

Lemma take_share_upper (hi p tk : Q) : 0 < p -> 0 <= tk -> p <= hi -> tk <= hi * (tk / p).
Proof.
  intros Hp Ht Hhi.
  assert (Hq : 0 <= tk / p).
  { apply Qle_shift_div_l; [exact Hp|]. lra. }
  assert (E : p * (tk / p) == tk).
  { apply Qmult_div_r. intro H0. rewrite H0 in Hp. apply (Qlt_irrefl 0 Hp). }
  rewrite <- E at 1. apply Qmult_le_compat_r; assumption.
Qed.

(** What the walk keeps true: every amount taken is positive, the shares
    grow, and the cost stays between [lo] and [hi] times the shares as
    long as the prices of the levels taken from lie between [lo] and [hi]. *)
Lemma fillLoop_bounds (lo hi : Q) (levels : list level) :
  positiveLevels levels ->
  forall w,
    0 < remainingUsd w ->
    0 <= accShares w ->
    (forall l tk, In (l, tk) (takes levels (remainingUsd w)) -> 0 < tk) /\
    ((forall l tk, In (l, tk) (takes levels (remainingUsd w)) ->
                   0 < tk -> lo <= price l) ->
     lo * accShares w <= accCost w ->
     lo * accShares (fillLoop levels w) <= accCost (fillLoop levels w)) /\
    ((forall l tk, In (l, tk) (takes levels (remainingUsd w)) ->
                   0 < tk -> price l <= hi) ->
     accCost w <= hi * accShares w ->
     accCost (fillLoop levels w) <= hi * accShares (fillLoop levels w)) /\
    0 <= accShares (fillLoop levels w) /\
    (levels <> [] -> 0 < accShares (fillLoop levels w)).
Proof.
  induction levels as [|l rest IH]; intros Hpos w Hrem Hsh.
  - simpl. repeat split; try tauto; try congruence.
  - destruct (Hpos l (or_introl eq_refl)) as [Hp Hs].
    pose proof (levelUsd_pos l Hp Hs) as Hu.
    set (tk0 := Js.min (remainingUsd w) (price l * size l)).
    assert (Htk : 0 < tk0 /\ tk0 <= remainingUsd w).
    { unfold tk0.
      destruct (min_cases (remainingUsd w) (price l * size l)) as [[H E]|[H E]];
        rewrite E; split; lra. }
    destruct Htk as [Htk Htk'].
    assert (Hq : 0 < tk0 / price l).
    { apply Qlt_shift_div_l; [exact Hp|]. lra. }
    assert (Hstep : fillStep w l =
                    {| remainingUsd := remainingUsd w - tk0;
                       accShares := accShares w + tk0 / price l;
                       accCost := accCost w + tk0 |}) by reflexivity.
    cbn [fillLoop takes]. fold tk0. rewrite Hstep. cbn [remainingUsd].
    destruct (Js.leb (remainingUsd w - tk0) eps_break) eqn:Eb.
    + cbn [accShares accCost].
      split; [|split; [|split; [|split]]].
      * intros l' tk' [Heq|[]]. injection Heq as <- <-. exact Htk.
      * intros Hlo Hinv.
        pose proof (take_share_lower lo (price l) tk0 Hp (Qlt_le_weak _ _ Htk)
                      (Hlo l tk0 (or_introl eq_refl) Htk)).
        lra.
      * intros Hhi Hinv.
        pose proof (take_share_upper hi (price l) tk0 Hp (Qlt_le_weak _ _ Htk)
                      (Hhi l tk0 (or_introl eq_refl) Htk)).
        lra.
      * lra.
      * intros _. lra.
    + apply leb_false in Eb.
      assert (Hrem' : 0 < remainingUsd w - tk0) by (unfold eps_break in Eb; lra).
      set (w1 := {| remainingUsd := remainingUsd w - tk0;
                    accShares := accShares w + tk0 / price l;
                    accCost := accCost w + tk0 |}).
      assert (Hsh1 : 0 <= accShares w1) by (simpl; lra).
      destruct (IH (positiveLevels_tail l rest Hpos) w1 Hrem' Hsh1)
        as [IHt [IHlo [IHhi [IHs IHp]]]].
      cbn [remainingUsd] in IHt, IHlo, IHhi.
      split; [|split; [|split; [|split]]].
      * intros l' tk' [Heq|Hin].
        -- injection Heq as <- <-. exact Htk.
        -- exact (IHt l' tk' Hin).
      * intros Hlo Hinv. apply IHlo.
        -- intros l' tk' Hin Hpos'. apply (Hlo l' tk'); [right; exact Hin|exact Hpos'].
        -- pose proof (take_share_lower lo (price l) tk0 Hp (Qlt_le_weak _ _ Htk)
                         (Hlo l tk0 (or_introl eq_refl) Htk)).
           simpl. lra.
      * intros Hhi Hinv. apply IHhi.
        -- intros l' tk' Hin Hpos'. apply (Hhi l' tk'); [right; exact Hin|exact Hpos'].
        -- pose proof (take_share_upper hi (price l) tk0 Hp (Qlt_le_weak _ _ Htk)
                         (Hhi l tk0 (or_introl eq_refl) Htk)).
           simpl. lra.
      * exact IHs.
      * intros _. destruct rest as [|l2 rest2].
        -- simpl. lra.
        -- apply IHp. discriminate.
Qed.


(** [takes] lists exactly the amounts the loop adds up. *)
Lemma fillLoop_takes (levels : list level) :
  forall w,
    accCost (fillLoop levels w)
    == accCost w + fold_right (fun lt acc => snd lt + acc) 0
                     (takes levels (remainingUsd w)) /\
    accShares (fillLoop levels w)
    == accShares w + fold_right (fun lt acc => snd lt / price (fst lt) + acc) 0
                       (takes levels (remainingUsd w)).
Proof.
  induction levels as [|l rest IH]; intro w; cbn [fillLoop takes].
  - simpl. split; ring.
  - change (remainingUsd (fillStep w l))
      with (remainingUsd w - Js.min (remainingUsd w) (price l * size l)).
    destruct (Js.leb (remainingUsd w - Js.min (remainingUsd w) (price l * size l))
                eps_break).
    + unfold fillStep. simpl. split; ring.
    + destruct (IH (fillStep w l)) as [Hc Hs]. rewrite Hc, Hs.
      unfold fillStep. simpl. split; ring.
Qed.

(** The levels are walked best price first: ascending asks for a buy,
    descending bids for a sell. *)
Lemma sortedLevels_best_first (bk : book) (sd : side) :
  Sorted (fun a b => match sd with
                     | buy => price a <= price b
                     | sell => price b <= price a
                     end) (sortedLevels bk sd).
Proof.
  unfold sortedLevels.
  assert (Hs : Sorted (fun a b => levelBefore sd a b = true)
                 (Js.sort (levelBefore sd) (filterLevels (rawSide bk sd)))).
  { apply sort_Sorted. intros x y H. destruct sd; simpl in *.
    - apply leb_false in H. apply leb_true. lra.
    - apply leb_false in H. apply leb_true. lra. }
  induction Hs as [|a l Hs IH Hhd]; constructor; [exact IH|].
  destruct Hhd as [|b l' Hab]; constructor.
  destruct sd; simpl in Hab; apply leb_true in Hab; exact Hab.
Qed.

Lemma consumedLevels_In (bk : book) (sd : side) (n : Q) (l : level) :
  In l (consumedLevels bk sd n) <->
  exists tk, In (l, tk) (takes (sortedLevels bk sd) n) /\ 0 < tk.
Proof.
  unfold consumedLevels. rewrite in_map_iff. split.
  - intros [[l' tk] [Heq Hin]]. simpl in Heq. subst l'.
    apply filter_In in Hin. destruct Hin as [Hin Hgt]. simpl in Hgt.
    exists tk. split; [exact Hin|apply gtb_true; exact Hgt].
  - intros [tk [Hin Hgt]]. exists (l, tk). split; [reflexivity|].
    apply filter_In. split; [exact Hin|]. simpl. apply gtb_true. exact Hgt.
Qed.

Lemma takes_In_levels (levels : list level) :
  forall rem l tk, In (l, tk) (takes levels rem) -> In l levels.
Proof.
  induction levels as [|l0 rest IH]; intros rem l tk; simpl; [tauto|].
  intros [Heq|Hin].
  - injection Heq as <- _. left. reflexivity.
  - destruct (Js.leb _ eps_break); [destruct Hin|]. right. exact (IH _ _ _ Hin).
Qed.

End FillFacts.

(** ** Best bid and best ask *)

Section BestBidAskFacts.

Local Open Scope Q_scope.

Lemma bidStep_fold (l : list rawLevel) :
  forall acc,
    match fold_left bidStep l acc with
    | Some b =>
        (acc = Some b \/
         exists x, In x l /\ Js.isFinite (rawPrice x) = Some b) /\
        (forall y, acc = Some y -> y <= b) /\
        (forall x p, In x l -> Js.isFinite (rawPrice x) = Some p -> p <= b)
    | None =>
        acc = None /\ forall x, In x l -> Js.isFinite (rawPrice x) = None
    end.
Proof.
  induction l as [|x l IH]; intro acc; simpl.
  - destruct acc as [b|].
    + split; [left; reflexivity|]. split.
      * intros y Hy. injection Hy as <-. apply Qle_refl.
      * intros ? ? [].
    + split; [reflexivity|]. intros ? [].
  - specialize (IH (bidStep acc x)).
    destruct (fold_left bidStep l (bidStep acc x)) as [b|].
    + destruct IH as [Hsrc [Hacc Hall]].
      unfold bidStep in Hsrc, Hacc.
      destruct (Js.isFinite (rawPrice x)) as [p|] eqn:Ep.
      * destruct acc as [cur|].
        -- destruct (Js.gtb p cur) eqn:Eg.
           ++ apply gtb_true in Eg. split; [|split].
              ** right. destruct Hsrc as [Hs|[x' [Hin Hx']]].
                 --- injection Hs as <-. exists x. split; [left; reflexivity|exact Ep].
                 --- exists x'. split; [right; exact Hin|exact Hx'].
              ** intros y Hy. injection Hy as <-.
                 pose proof (Hacc p eq_refl). lra.
              ** intros x' p' [<-|Hin] Hp'.
                 --- rewrite Ep in Hp'. injection Hp' as <-. exact (Hacc p eq_refl).
                 --- exact (Hall x' p' Hin Hp').
           ++ apply gtb_false in Eg. split; [|split].
              ** destruct Hsrc as [Hs|[x' [Hin Hx']]].
                 --- left. exact Hs.
                 --- right. exists x'. split; [right; exact Hin|exact Hx'].
              ** exact Hacc.
              ** intros x' p' [<-|Hin] Hp'.
                 --- rewrite Ep in Hp'. injection Hp' as <-.
                     pose proof (Hacc cur eq_refl). lra.
                 --- exact (Hall x' p' Hin Hp').
        -- split; [|split].
           ++ right. destruct Hsrc as [Hs|[x' [Hin Hx']]].
              ** injection Hs as <-. exists x. split; [left; reflexivity|exact Ep].
              ** exists x'. split; [right; exact Hin|exact Hx'].
           ++ intros y Hy. discriminate.
           ++ intros x' p' [<-|Hin] Hp'.
              ** rewrite Ep in Hp'. injection Hp' as <-. exact (Hacc p eq_refl).
              ** exact (Hall x' p' Hin Hp').
      * split; [|split].
        -- destruct Hsrc as [Hs|[x' [Hin Hx']]].
           ++ left. exact Hs.
           ++ right. exists x'. split; [right; exact Hin|exact Hx'].
        -- exact Hacc.
        -- intros x' p' [<-|Hin] Hp'.
           ++ rewrite Ep in Hp'. discriminate.
           ++ exact (Hall x' p' Hin Hp').
    + destruct IH as [Hnone Hall]. unfold bidStep in Hnone.
      destruct (Js.isFinite (rawPrice x)) as [p|] eqn:Ep.
      * destruct acc as [cur|]; [destruct (Js.gtb p cur)|]; discriminate.
      * split; [exact Hnone|]. intros x' [<-|Hin]; [exact Ep|exact (Hall x' Hin)].
Qed.

Lemma askStep_fold (l : list rawLevel) :
  forall acc,
    match fold_left askStep l acc with
    | Some a =>
        (acc = Some a \/
         exists x, In x l /\ Js.isFinite (rawPrice x) = Some a) /\
        (forall y, acc = Some y -> a <= y) /\
        (forall x p, In x l -> Js.isFinite (rawPrice x) = Some p -> a <= p)
    | None =>
        acc = None /\ forall x, In x l -> Js.isFinite (rawPrice x) = None
    end.
Proof.
  induction l as [|x l IH]; intro acc; simpl.
  - destruct acc as [b|].
    + split; [left; reflexivity|]. split.
      * intros y Hy. injection Hy as <-. apply Qle_refl.
      * intros ? ? [].
    + split; [reflexivity|]. intros ? [].
  - specialize (IH (askStep acc x)).
    destruct (fold_left askStep l (askStep acc x)) as [b|].
    + destruct IH as [Hsrc [Hacc Hall]].
      unfold askStep in Hsrc, Hacc.
      destruct (Js.isFinite (rawPrice x)) as [p|] eqn:Ep.
      * destruct acc as [cur|].
        -- destruct (Js.ltb p cur) eqn:Eg.
           ++ apply ltb_true in Eg. split; [|split].
              ** right. destruct Hsrc as [Hs|[x' [Hin Hx']]].
                 --- injection Hs as <-. exists x. split; [left; reflexivity|exact Ep].
                 --- exists x'. split; [right; exact Hin|exact Hx'].
              ** intros y Hy. injection Hy as <-.
                 pose proof (Hacc p eq_refl). lra.
              ** intros x' p' [<-|Hin] Hp'.
                 --- rewrite Ep in Hp'. injection Hp' as <-. exact (Hacc p eq_refl).
                 --- exact (Hall x' p' Hin Hp').
           ++ apply ltb_false in Eg. split; [|split].
              ** destruct Hsrc as [Hs|[x' [Hin Hx']]].
                 --- left. exact Hs.
                 --- right. exists x'. split; [right; exact Hin|exact Hx'].
              ** exact Hacc.
              ** intros x' p' [<-|Hin] Hp'.
                 --- rewrite Ep in Hp'. injection Hp' as <-.
                     pose proof (Hacc cur eq_refl). lra.
                 --- exact (Hall x' p' Hin Hp').
        -- split; [|split].
           ++ right. destruct Hsrc as [Hs|[x' [Hin Hx']]].
              ** injection Hs as <-. exists x. split; [left; reflexivity|exact Ep].
              ** exists x'. split; [right; exact Hin|exact Hx'].
           ++ intros y Hy. discriminate.
           ++ intros x' p' [<-|Hin] Hp'.
              ** rewrite Ep in Hp'. injection Hp' as <-. exact (Hacc p eq_refl).
              ** exact (Hall x' p' Hin Hp').
      * split; [|split].
        -- destruct Hsrc as [Hs|[x' [Hin Hx']]].
           ++ left. exact Hs.
           ++ right. exists x'. split; [right; exact Hin|exact Hx'].
        -- exact Hacc.
        -- intros x' p' [<-|Hin] Hp'.
           ++ rewrite Ep in Hp'. discriminate.
           ++ exact (Hall x' p' Hin Hp').
    + destruct IH as [Hnone Hall]. unfold askStep in Hnone.
      destruct (Js.isFinite (rawPrice x)) as [p|] eqn:Ep.
      * destruct acc as [cur|]; [destruct (Js.ltb p cur)|]; discriminate.
      * split; [exact Hnone|]. intros x' [<-|Hin]; [exact Ep|exact (Hall x' Hin)].
Qed.

End BestBidAskFacts.

(** ** The claims about the fill simulator and the best quotes *)

Section UtilsClaims.

Local Open Scope Q_scope.

(** In exact arithmetic: whenever [marketFill] returns a fill, its shares
    are strictly positive and its average price lies between the lowest
    and the highest price among the levels actually consumed (there is at
    least one): every lower bound of those prices is below the average and
    every upper bound above it.  On doubles the average can miss either
    bound by a rounding error, see [Binary64]. *)
Lemma marketFill_avgPrice_within_consumed :
  forall (bk : book) (sd : side) (n : Q) (r : fill),
    marketFill bk sd n = Some r ->
    0 < shares r /\
    consumedLevels bk sd n <> [] /\
    (forall lo, (forall l, In l (consumedLevels bk sd n) -> lo <= price l) ->
                lo <= avgPrice r) /\
    (forall hi, (forall l, In l (consumedLevels bk sd n) -> price l <= hi) ->
                avgPrice r <= hi) /\
    0 <= avgPrice r /\
    ((forall l p, In l (rawSide bk sd) -> Js.isFinite (rawPrice l) = Some p ->
                  0 <= p <= 1) ->
     avgPrice r <= 1).
Proof.
  intros bk sd n r Hfill.
  destruct (marketFill_some_inv bk sd n r Hfill) as [Hc [Hs [_ [Havg Hsh]]]].
  pose proof (sortedLevels_positive bk sd) as Hpos.
  assert (Hn : 0 < n).
  { apply Qnot_le_lt. intro Hle.
    pose proof (proj1 (fillLoop_nonpositive (sortedLevels bk sd) n Hpos Hle)). lra. }
  assert (Hne : sortedLevels bk sd <> []).
  { intro E. rewrite E in Hc. simpl in Hc. lra. }
  assert (Hboth : forall lo hi,
    (forall l tk, In (l, tk) (takes (sortedLevels bk sd) n) -> 0 < tk) /\
    ((forall l, In l (consumedLevels bk sd n) -> lo <= price l) -> lo <= avgPrice r) /\
    ((forall l, In l (consumedLevels bk sd n) -> price l <= hi) -> avgPrice r <= hi)).
  { intros lo hi.
    destruct (fillLoop_bounds lo hi (sortedLevels bk sd) Hpos (startWalk n))
      as [Ht [Hlo [Hhi _]]]; [exact Hn|simpl; lra|].
    cbn [startWalk remainingUsd accShares accCost] in Ht, Hlo, Hhi.
    split; [exact Ht|]. rewrite Havg. split; intro Hb.
    - apply Qle_shift_div_l; [exact Hs|]. apply Hlo.
      + intros l tk Hin Htk. apply Hb. apply consumedLevels_In. exists tk. auto.
      + lra.
    - apply Qle_shift_div_r; [exact Hs|]. apply Hhi.
      + intros l tk Hin Htk. apply Hb. apply consumedLevels_In. exists tk. auto.
      + lra. }
  split; [rewrite Hsh; exact Hs|].
  split.
  { destruct (sortedLevels bk sd) as [|l rest] eqn:E; [congruence|].
    intro Hnil.
    assert (Hin : In l (consumedLevels bk sd n)).
    { apply consumedLevels_In. rewrite E.
      exists (Js.min n (price l * size l)).
      assert (Hin : In (l, Js.min n (price l * size l)) (takes (l :: rest) n))
        by (left; reflexivity).
      split; [exact Hin|]. exact (proj1 (Hboth 0 0) _ _ Hin). }
    rewrite Hnil in Hin. destruct Hin. }
  split; [intros lo; exact (proj1 (proj2 (Hboth lo 0)))|].
  split; [intros hi; exact (proj2 (proj2 (Hboth 0 hi)))|].
  split.
  { rewrite Havg. apply Qle_shift_div_l; [exact Hs|]. lra. }
  intro Hunit. apply (proj2 (proj2 (Hboth 0 1))).
  intros l Hl. apply consumedLevels_In in Hl. destruct Hl as [tk [Hin _]].
  apply takes_In_levels in Hin.
  destruct (sortedLevels_In bk sd l Hin) as [raw [Hraw [Hfin _]]].
  exact (proj2 (Hunit raw (price l) Hraw Hfin)).
Qed.

Lemma marketFill_avgPrice_within_consumed_witness :
  exists r, marketFill Examples.twoAsks buy 60 = Some r /\
            0 < shares r /\ 0.50 <= avgPrice r /\ avgPrice r <= 0.52.
Proof.
  destruct (marketFill Examples.twoAsks buy 60) as [r|] eqn:E;
    [|vm_compute in E; discriminate].
  exists r. split; [reflexivity|].
  destruct (marketFill_avgPrice_within_consumed Examples.twoAsks buy 60 r E)
    as [H1 [_ [H3 [H4 _]]]].
  split; [exact H1|]. split.
  - apply H3. intros l Hl. vm_compute in Hl.
    destruct Hl as [<-|[<-|[]]]; vm_compute; discriminate.
  - apply H4. intros l Hl. vm_compute in Hl.
    destruct Hl as [<-|[<-|[]]]; vm_compute; discriminate.
Defined.



(** C10, for a finite notional.  For every book, however deep, a finite
    requested notional of zero or less leaves the walk with a cost and a
    share count of zero or less, and [marketFill] returns the absent
    value.  Every operation the walk performs on such a notional is exact
    on doubles: the first level takes the notional itself, adds it to
    zero and subtracts it from itself. *)
Theorem marketFill_none_when_notional_nonpositive :
  forall (bk : book) (sd : side) (n : Q),
    n <= 0 ->
    accCost (fillLoop (sortedLevels bk sd) (startWalk n)) <= 0 /\
    accShares (fillLoop (sortedLevels bk sd) (startWalk n)) <= 0 /\
    marketFill bk sd n = None.
Proof.
  intros bk sd n Hn.
  destruct (fillLoop_nonpositive (sortedLevels bk sd) n
              (sortedLevels_positive bk sd) Hn) as [Hc Hs].
  split; [exact Hc|]. split; [exact Hs|].
  apply marketFill_insufficient. unfold insufficient.
  apply leb_true in Hc. rewrite Hc. reflexivity.
Qed.

Lemma marketFill_none_when_notional_nonpositive_witness :
  -5 <= 0 /\ marketFill Examples.twoAsks buy (-5) = None /\
  marketFill Examples.twoAsks sell 0 = None.
Proof.
  assert (H5 : -5 <= 0) by (vm_compute; discriminate).
  assert (H0 : 0 <= 0) by (vm_compute; discriminate).
  split; [exact H5|]. split.
  - exact (proj2 (proj2 (marketFill_none_when_notional_nonpositive
                           Examples.twoAsks buy (-5) H5))).
  - exact (proj2 (proj2 (marketFill_none_when_notional_nonpositive
                           Examples.twoAsks sell 0 H0))).
Defined.

(** What [bestBidAsk] computes: the greatest finite bid price and the
    least finite ask price, and no quote exactly when the side has no
    finite price.  Only non-finite prices are skipped: a finite price of
    zero or less takes part like any other. *)
Lemma bestBidAsk_extremes_of_finite_prices :
  forall bk : book,
    (forall b, bestBid (bestBidAsk bk) = Some b ->
       (exists l, In l (bids bk) /\ Js.isFinite (rawPrice l) = Some b) /\
       (forall l p, In l (bids bk) -> Js.isFinite (rawPrice l) = Some p -> p <= b)) /\
    (bestBid (bestBidAsk bk) = None <->
       forall l, In l (bids bk) -> Js.isFinite (rawPrice l) = None) /\
    (forall a, bestAsk (bestBidAsk bk) = Some a ->
       (exists l, In l (asks bk) /\ Js.isFinite (rawPrice l) = Some a) /\
       (forall l p, In l (asks bk) -> Js.isFinite (rawPrice l) = Some p -> a <= p)) /\
    (bestAsk (bestBidAsk bk) = None <->
       forall l, In l (asks bk) -> Js.isFinite (rawPrice l) = None).
Proof.
  intro bk. unfold bestBidAsk. cbn [bestBid bestAsk].
  pose proof (bidStep_fold (bids bk) None) as Hb.
  pose proof (askStep_fold (asks bk) None) as Ha.
  split; [|split; [|split]].
  - intros b E. rewrite E in Hb. destruct Hb as [[Habs|Hsrc] [_ Hall]];
      [discriminate|]. split; assumption.
  - split.
    + intro E. rewrite E in Hb. exact (proj2 Hb).
    + intro Hnone. destruct (fold_left bidStep (bids bk) None) as [b|]; [|reflexivity].
      destruct Hb as [[Habs|[x [Hin Hx]]] _]; [discriminate|].
      rewrite (Hnone x Hin) in Hx. discriminate.
  - intros a E. rewrite E in Ha. destruct Ha as [[Habs|Hsrc] [_ Hall]];
      [discriminate|]. split; assumption.
  - split.
    + intro E. rewrite E in Ha. exact (proj2 Ha).
    + intro Hnone. destruct (fold_left askStep (asks bk) None) as [a|]; [|reflexivity].
      destruct Ha as [[Habs|[x [Hin Hx]]] _]; [discriminate|].
      rewrite (Hnone x Hin) in Hx. discriminate.
Qed.

(** A zero-priced ask becomes the best ask and a negative bid becomes
    the best bid. *)
Lemma bestBidAsk_keeps_nonpositive_prices :
  bestAsk (bestBidAsk Examples.strayPrices) = Some 0 /\
  bestBid (bestBidAsk Examples.strayPrices) = Some (-0.10).
Proof. split; reflexivity. Qed.

(** C9 at a failing input.  A book quoted 0.50 / 0.51 is delivered with a
    stray ask of price zero.  [bestBidAsk] takes the zero for the best
    ask, although [sortedLevels] drops that level from the same side: its
    filter asks for [price > 0], the loop of [bestBidAsk] does not.  The
    live scanner then sees a mid of 0.25 and a spread of -0.5 on quotes
    that have not moved since the snapshot, and returns an opportunity on
    token A where the same book without the stray level gives none. *)
Theorem bestBidAsk_takes_zero_priced_ask :
  bestBid (bestBidAsk Examples.zeroAskBook) = Some 0.50 /\
  bestAsk (bestBidAsk Examples.zeroAskBook) = Some 0 /\
  sortedLevels Examples.zeroAskBook buy = [{| price := 0.51; size := 1000 |}] /\
  Engine.best (Engine.findOpportunity Examples.tightFetchBoth
                 Examples.restingSnapshots Engine.defaultConfig
                 [Examples.tightMarket]) = None /\
  exists op,
    Engine.best (Engine.findOpportunity Examples.zeroAskFetch
                   Examples.restingSnapshots Engine.defaultConfig
                   [Examples.tightMarket]) = Some op /\
    Engine.tokenId (Engine.chosen op) = "A"%string /\
    Engine.chAsk (Engine.chosen op) = 0 /\
    Engine.chMid (Engine.chosen op) == 0.25 /\
    Engine.chSpread (Engine.chosen op) == -0.5.
Proof.
  split; [reflexivity|]. split; [reflexivity|]. split; [reflexivity|].
  split; [lazy -[Score.engineScore Q2R]; reflexivity|].
  eexists. split; [lazy -[Score.engineScore Q2R]; reflexivity|].
  cbn [Engine.chosen Engine.tokenId Engine.chAsk Engine.chMid Engine.chSpread].
  split; [reflexivity|]. split; [reflexivity|]. split; reflexivity.
Qed.

End UtilsClaims.

(** ** The fill simulator under rounding *)

Section RoundedFacts.

Import Utils.

Local Open Scope Q_scope.

Variable rnd : Q -> Q.
Hypothesis rnd_rounding : Rounded.rounding rnd.

Lemma rnd_mono (x y : Q) : x <= y -> rnd x <= rnd y.
Proof. exact (proj1 rnd_rounding x y). Qed.










End RoundedFacts.

Section RoundingFacts.

Local Open Scope Q_scope.

Lemma pow2_pos (k : Z) : 0 < 2 ^ k.
Proof. apply Qpower_0_lt. reflexivity. Qed.

Lemma pow2_plus (a b : Z) : 2 ^ (a + b) == 2 ^ a * 2 ^ b.
Proof. apply Qpower_plus. discriminate. Qed.

Lemma pow2_le (a b : Z) : (a <= b)%Z -> 2 ^ a <= 2 ^ b.
Proof. intro H. apply Qpower_le_compat_l; [exact H|discriminate]. Qed.

Lemma pow2_lt (a b : Z) : (a < b)%Z -> 2 ^ a < 2 ^ b.
Proof. intro H. apply Qpower_lt_compat_l; [exact H|reflexivity]. Qed.

Lemma pow2_Z (k : Z) : (0 <= k)%Z -> inject_Z (2 ^ k) == 2 ^ k.
Proof. intro H. apply (Zpower_Qpower 2 k H). Qed.

(** Cancelling a positive factor. *)
Lemma mul_le_cancel (a b c : Q) : 0 < c -> a * c <= b * c -> a <= b.
Proof. intros Hc H. apply (Qmult_le_r a b c Hc). exact H. Qed.

Lemma mul_lt_cancel (a b c : Q) : 0 < c -> a * c < b * c -> a < b.
Proof. intros Hc H. apply (Qmult_lt_r a b c Hc). exact H. Qed.

Lemma ilog2_rough (x : Q) :
  0 < x ->
  let k := (Z.log2 (Qnum x) - Z.log2 (Zpos (Qden x)))%Z in
  2 ^ (k - 1) <= x /\ x < 2 ^ (k + 1).
Proof.
  intros Hx k. destruct x as [n d]. cbn [Qnum Qden] in k.
  assert (Hn : (0 < n)%Z).
  { unfold Qlt in Hx. simpl in Hx. lia. }
  pose proof (Z.log2_spec n Hn) as [Hn1 Hn2].
  pose proof (Z.log2_spec (Zpos d) (Pos2Z.is_pos d)) as [Hd1 Hd2].
  pose proof (Z.log2_nonneg n) as Hln.
  pose proof (Z.log2_nonneg (Zpos d)) as Hld.
  set (ln := Z.log2 n) in *. set (ld := Z.log2 (Zpos d)) in *.
  assert (Ex : (n # d) * inject_Z (Zpos d) == inject_Z n).
  { unfold Qeq, Qmult, inject_Z. simpl. lia. }
  rewrite Zle_Qle in Hn1, Hd1. rewrite Zlt_Qlt in Hn2, Hd2.
  rewrite pow2_Z in Hn1, Hd1 by lia.
  replace (Z.succ ln) with (ln + 1)%Z in Hn2 by lia.
  replace (Z.succ ld) with (ld + 1)%Z in Hd2 by lia.
  rewrite pow2_Z in Hn2, Hd2 by lia.
  pose proof (pow2_pos ld) as Pld. pose proof (pow2_pos (ld + 1)) as Pld1.
  split.
  - apply (mul_le_cancel _ _ (2 ^ (ld + 1)) Pld1).
    rewrite <- pow2_plus. replace (k - 1 + (ld + 1))%Z with ln by (unfold k; lia).
    apply Qle_trans with (inject_Z n); [exact Hn1|]. rewrite <- Ex.
    apply Qmult_le_l; [exact Hx|]. apply Qlt_le_weak. exact Hd2.
  - apply (mul_lt_cancel _ _ (2 ^ ld) Pld).
    rewrite <- pow2_plus. replace (k + 1 + ld)%Z with (ln + 1)%Z by (unfold k; lia).
    apply Qle_lt_trans with (inject_Z n); [|exact Hn2]. rewrite <- Ex.
    apply Qmult_le_l; [exact Hx|]. exact Hd1.
Qed.

Lemma ilog2_spec (x : Q) : 0 < x -> 2 ^ Rounded.ilog2 x <= x /\ x < 2 ^ (Rounded.ilog2 x + 1).
Proof.
  intro Hx. destruct (ilog2_rough x Hx) as [Hlo Hhi]. cbv zeta in Hlo, Hhi.
  unfold Rounded.ilog2.
  set (k := (Z.log2 (Qnum x) - Z.log2 (Zpos (Qden x)))%Z) in *.
  destruct (Qle_bool (2 ^ k) x) eqn:E.
  - apply Qle_bool_iff in E. split; assumption.
  - split; [exact Hlo|]. replace (k - 1 + 1)%Z with k by lia.
    apply Qnot_le_lt. intro H. apply Qle_bool_iff in H. congruence.
Qed.

Lemma ilog2_unique (x : Q) (k : Z) :
  2 ^ k <= x -> x < 2 ^ (k + 1) -> Rounded.ilog2 x = k.
Proof.
  intros Hlo Hhi.
  assert (Hx : 0 < x) by (pose proof (pow2_pos k); lra).
  destruct (ilog2_spec x Hx) as [Hlo' Hhi'].
  assert (H1 : 2 ^ k < 2 ^ (Rounded.ilog2 x + 1)) by lra.
  assert (H2 : 2 ^ Rounded.ilog2 x < 2 ^ (k + 1)) by lra.
  apply Qpower_lt_compat_l_inv in H1; [|reflexivity].
  apply Qpower_lt_compat_l_inv in H2; [|reflexivity]. lia.
Qed.

Lemma ilog2_mono (x y : Q) : 0 < x -> x <= y -> (Rounded.ilog2 x <= Rounded.ilog2 y)%Z.
Proof.
  intros Hx Hxy.
  destruct (ilog2_spec x Hx) as [Hlo _].
  destruct (ilog2_spec y) as [_ Hhi]; [lra|].
  assert (H : 2 ^ Rounded.ilog2 x < 2 ^ (Rounded.ilog2 y + 1)) by lra.
  apply Qpower_lt_compat_l_inv in H; [|reflexivity]. lia.
Qed.

(** Rounded.nearestEven *)
Lemma nearestEven_bounds (q : Q) :
  (Qfloor q <= Rounded.nearestEven q <= Qfloor q + 1)%Z.
Proof.
  unfold Rounded.nearestEven.
  destruct (Qcompare (q - inject_Z (Qfloor q)) (1 # 2)); [destruct (Z.even _)| |]; lia.
Qed.

Lemma nearestEven_Z (m : Z) : Rounded.nearestEven (inject_Z m) = m.
Proof.
  unfold Rounded.nearestEven. rewrite Qfloor_Z.
  assert (E : inject_Z m - inject_Z m == 0) by ring.
  assert (H : Qcompare (inject_Z m - inject_Z m) (1 # 2) = Lt).
  { rewrite (Qcompare_comp _ _ E _ _ (Qeq_refl _)). reflexivity. }
  rewrite H. reflexivity.
Qed.

Lemma nearestEven_comp (x y : Q) : x == y -> Rounded.nearestEven x = Rounded.nearestEven y.
Proof.
  intro E. unfold Rounded.nearestEven. rewrite (Qfloor_comp _ _ E).
  assert (E' : x - inject_Z (Qfloor y) == y - inject_Z (Qfloor y)) by (rewrite E; reflexivity).
  rewrite (Qcompare_comp _ _ E' _ _ (Qeq_refl _)). reflexivity.
Qed.

Lemma nearestEven_mono (x y : Q) : x <= y -> (Rounded.nearestEven x <= Rounded.nearestEven y)%Z.
Proof.
  intro Hxy.
  pose proof (Qfloor_resp_le x y Hxy) as Hf.
  pose proof (nearestEven_bounds x) as Bx. pose proof (nearestEven_bounds y) as By.
  destruct (Z.eq_dec (Qfloor x) (Qfloor y)) as [E|NE]; [|lia].
  unfold Rounded.nearestEven in *. rewrite <- E in *. clear Bx By Hf E.
  destruct (Qcompare_spec (x - inject_Z (Qfloor x)) (1 # 2)) as [Cx|Cx|Cx];
    destruct (Qcompare_spec (y - inject_Z (Qfloor x)) (1 # 2)) as [Cy|Cy|Cy];
    try (destruct (Z.even (Qfloor x))); try lia;
    exfalso; generalize dependent (inject_Z (Qfloor x)); intros q Hx Hy; lra.
Qed.

Lemma nearestEven_nonneg (q : Q) : 0 <= q -> (0 <= Rounded.nearestEven q)%Z.
Proof.
  intro H. pose proof (nearestEven_mono 0 q H) as H1.
  change 0 with (inject_Z 0) in H1. rewrite nearestEven_Z in H1. exact H1.
Qed.

Lemma ilog2_comp (x y : Q) : 0 < x -> x == y -> Rounded.ilog2 x = Rounded.ilog2 y.
Proof.
  intros Hx E. symmetry. destruct (ilog2_spec x Hx) as [Hlo Hhi].
  apply ilog2_unique; rewrite <- E; assumption.
Qed.

Lemma ulpExp_comp (x y : Q) : 0 < x -> x == y -> Rounded.ulpExp x = Rounded.ulpExp y.
Proof. intros Hx E. unfold Rounded.ulpExp. rewrite (ilog2_comp x y Hx E). reflexivity. Qed.

Lemma nearestDouble_comp (x y : Q) : 0 < x -> x == y -> Rounded.nearestDouble x == Rounded.nearestDouble y.
Proof.
  intros Hx E. unfold Rounded.nearestDouble. rewrite (ulpExp_comp x y Hx E).
  rewrite (nearestEven_comp (x / 2 ^ Rounded.ulpExp y) (y / 2 ^ Rounded.ulpExp y)); [reflexivity|].
  rewrite E. reflexivity.
Qed.


Lemma scale_back (x : Q) (e : Z) : x / 2 ^ e * 2 ^ e == x.
Proof. field. pose proof (pow2_pos e). lra. Qed.

Lemma scaled_lt (x : Q) : 0 < x -> x / 2 ^ Rounded.ulpExp x < inject_Z (2 ^ 53).
Proof.
  intro Hx. destruct (ilog2_spec x Hx) as [_ Hhi].
  pose proof (pow2_pos (Rounded.ulpExp x)) as Pe.
  apply Qlt_shift_div_r; [exact Pe|].
  rewrite pow2_Z by lia. rewrite <- pow2_plus.
  apply Qlt_le_trans with (2 ^ (Rounded.ilog2 x + 1)); [exact Hhi|].
  apply pow2_le. unfold Rounded.ulpExp. lia.
Qed.

Lemma scaled_ge (x : Q) :
  0 < x -> Rounded.ulpExp x = (Rounded.ilog2 x - 52)%Z -> inject_Z (2 ^ 52) <= x / 2 ^ Rounded.ulpExp x.
Proof.
  intros Hx He. destruct (ilog2_spec x Hx) as [Hlo _].
  pose proof (pow2_pos (Rounded.ulpExp x)) as Pe.
  apply Qle_shift_div_l; [exact Pe|].
  rewrite pow2_Z by lia. rewrite <- pow2_plus.
  replace (52 + Rounded.ulpExp x)%Z with (Rounded.ilog2 x) by lia. exact Hlo.
Qed.

Lemma mantissa_le (x : Q) : 0 < x -> (Rounded.nearestEven (x / 2 ^ Rounded.ulpExp x) <= 2 ^ 53)%Z.
Proof.
  intro Hx.
  pose proof (nearestEven_mono _ _ (Qlt_le_weak _ _ (scaled_lt x Hx))) as H.
  rewrite nearestEven_Z in H. exact H.
Qed.

Lemma mantissa_ge (x : Q) :
  0 < x -> Rounded.ulpExp x = (Rounded.ilog2 x - 52)%Z -> (2 ^ 52 <= Rounded.nearestEven (x / 2 ^ Rounded.ulpExp x))%Z.
Proof.
  intros Hx He.
  pose proof (nearestEven_mono _ _ (scaled_ge x Hx He)) as H.
  rewrite nearestEven_Z in H. exact H.
Qed.

Lemma mantissa_nonneg (x : Q) : 0 < x -> (0 <= Rounded.nearestEven (x / 2 ^ Rounded.ulpExp x))%Z.
Proof.
  intro Hx. apply nearestEven_nonneg. apply Qlt_le_weak.
  apply Qlt_shift_div_l; [apply pow2_pos|]. lra.
Qed.

Lemma nearestDouble_nonneg (x : Q) : 0 < x -> 0 <= Rounded.nearestDouble x.
Proof.
  intro Hx. unfold Rounded.nearestDouble. apply Qmult_le_0_compat.
  - change 0 with (inject_Z 0). rewrite <- Zle_Qle. apply mantissa_nonneg. exact Hx.
  - apply Qlt_le_weak. apply pow2_pos.
Qed.

Lemma nearestDouble_upper (x : Q) : 0 < x -> Rounded.nearestDouble x <= 2 ^ (Rounded.ulpExp x + 53).
Proof.
  intro Hx. unfold Rounded.nearestDouble.
  pose proof (mantissa_le x Hx) as H. rewrite Zle_Qle in H.
  rewrite pow2_Z in H by lia.
  rewrite (Z.add_comm (Rounded.ulpExp x) 53), pow2_plus.
  apply Qmult_le_compat_r; [exact H|]. apply Qlt_le_weak. apply pow2_pos.
Qed.

Lemma nearestDouble_lower (x : Q) :
  0 < x -> Rounded.ulpExp x = (Rounded.ilog2 x - 52)%Z -> 2 ^ (Rounded.ulpExp x + 52) <= Rounded.nearestDouble x.
Proof.
  intros Hx He. unfold Rounded.nearestDouble.
  pose proof (mantissa_ge x Hx He) as H. rewrite Zle_Qle in H.
  rewrite pow2_Z in H by lia.
  rewrite (Z.add_comm (Rounded.ulpExp x) 52), pow2_plus.
  apply Qmult_le_compat_r; [exact H|]. apply Qlt_le_weak. apply pow2_pos.
Qed.

Lemma nearestDouble_mono (x y : Q) :
  0 < x -> x <= y -> Rounded.nearestDouble x <= Rounded.nearestDouble y.
Proof.
  intros Hx Hxy. assert (Hy : 0 < y) by lra.
  pose proof (ilog2_mono x y Hx Hxy) as Hl.
  assert (He : (Rounded.ulpExp x <= Rounded.ulpExp y)%Z) by (unfold Rounded.ulpExp; lia).
  destruct (Z.eq_dec (Rounded.ulpExp x) (Rounded.ulpExp y)) as [E|NE].
  - unfold Rounded.nearestDouble. rewrite E.
    apply Qmult_le_compat_r; [|apply Qlt_le_weak; apply pow2_pos].
    rewrite <- Zle_Qle. apply nearestEven_mono.
    apply Qmult_le_compat_r; [exact Hxy|].
    apply Qlt_le_weak. apply Qinv_lt_0_compat. apply pow2_pos.
  - assert (Hey : Rounded.ulpExp y = (Rounded.ilog2 y - 52)%Z) by (unfold Rounded.ulpExp in *; lia).
    apply Qle_trans with (2 ^ (Rounded.ulpExp x + 53)); [apply nearestDouble_upper; exact Hx|].
    apply Qle_trans with (2 ^ (Rounded.ulpExp y + 52)); [apply pow2_le; lia|].
    apply nearestDouble_lower; assumption.
Qed.

(** A positive number whose quotient by its last place is whole is a double. *)
Lemma nearestDouble_fixed (z : Q) (k : Z) :
  z / 2 ^ Rounded.ulpExp z == inject_Z k -> Rounded.nearestDouble z == z.
Proof.
  intro H. unfold Rounded.nearestDouble. rewrite (nearestEven_comp _ _ H), nearestEven_Z.
  rewrite <- H. apply scale_back.
Qed.

Lemma ilog2_scaled (m e : Z) :
  (0 < m)%Z -> Rounded.ilog2 (inject_Z m * 2 ^ e) = (Z.log2 m + e)%Z.
Proof.
  intro Hm. destruct (Z.log2_spec m Hm) as [H1 H2].
  pose proof (Z.log2_nonneg m) as H0.
  rewrite Zle_Qle in H1. rewrite Zlt_Qlt in H2.
  replace (Z.succ (Z.log2 m)) with (Z.log2 m + 1)%Z in H2 by lia.
  rewrite pow2_Z in H1, H2 by lia.
  pose proof (pow2_pos e) as Pe.
  apply ilog2_unique.
  - rewrite pow2_plus. apply Qmult_le_compat_r; [exact H1|lra].
  - replace (Z.log2 m + e + 1)%Z with (Z.log2 m + 1 + e)%Z by lia.
    rewrite pow2_plus. apply Qmult_lt_r; [exact Pe|exact H2].
Qed.

Lemma nearestDouble_result (x : Q) :
  0 < x -> 0 < Rounded.nearestDouble x -> Rounded.nearestDouble (Rounded.nearestDouble x) == Rounded.nearestDouble x.
Proof.
  intros Hx Hz.
  pose proof (mantissa_le x Hx) as Hle.
  pose proof (mantissa_nonneg x Hx) as H0.
  set (e := Rounded.ulpExp x) in *. set (m := Rounded.nearestEven (x / 2 ^ e)) in *.
  assert (Ez : Rounded.nearestDouble x = inject_Z m * 2 ^ e) by reflexivity.
  pose proof (pow2_pos e) as Pe.
  assert (Hm : (0 < m)%Z).
  { destruct (Z.eq_dec m 0) as [E0|]; [|lia]. exfalso. rewrite Ez, E0 in Hz.
    change (inject_Z 0) with 0 in Hz. lra. }
  assert (Hlog : Rounded.ilog2 (Rounded.nearestDouble x) = (Z.log2 m + e)%Z).
  { rewrite Ez. apply ilog2_scaled. exact Hm. }
  assert (Hee : (-1074 <= e)%Z) by (unfold e, Rounded.ulpExp; lia).
  destruct (Z.eq_dec m (2 ^ 53)) as [Etop|Ntop].
  - apply (nearestDouble_fixed _ (2 ^ 52)).
    assert (Hu : Rounded.ulpExp (Rounded.nearestDouble x) = (e + 1)%Z).
    { unfold Rounded.ulpExp at 1. rewrite Hlog, Etop.
      replace (Z.log2 (2 ^ 53)) with 53%Z by reflexivity. lia. }
    rewrite Hu, Ez, Etop. rewrite pow2_plus.
    rewrite !pow2_Z by lia. change (2 ^ 53) with (2 ^ 52 * 2 ^ 1).
    field. lra.
  - apply (nearestDouble_fixed _ m).
    assert (Hu : Rounded.ulpExp (Rounded.nearestDouble x) = e).
    { unfold Rounded.ulpExp at 1. rewrite Hlog.
      assert (Hl : (Z.log2 m <= 52)%Z).
      { assert (Hlt : (m < 2 ^ 53)%Z) by lia.
        apply Z.log2_lt_pow2 in Hlt; lia. }
      destruct (Z.eq_dec e (-1074)) as [Emin|Nmin]; [lia|].
      assert (Hex : Rounded.ulpExp x = (Rounded.ilog2 x - 52)%Z) by (unfold e, Rounded.ulpExp in *; lia).
      pose proof (mantissa_ge x Hx Hex) as Hge. fold e in Hge. fold m in Hge.
      assert (Hl' : (52 <= Z.log2 m)%Z) by (apply Z.log2_le_pow2; lia).
      lia. }
    rewrite Hu, Ez. field. lra.
Qed.

Lemma binary64_nonneg (x : Q) : 0 <= x -> 0 <= Rounded.binary64 x.
Proof.
  intro H. unfold Rounded.binary64. destruct (Qcompare_spec x 0) as [E|L|G].
  - lra.
  - lra.
  - apply nearestDouble_nonneg. exact G.
Qed.

Lemma binary64_nonpos (x : Q) : x <= 0 -> Rounded.binary64 x <= 0.
Proof.
  intro H. unfold Rounded.binary64. destruct (Qcompare_spec x 0) as [E|L|G].
  - lra.
  - assert (H0 : 0 <= Rounded.nearestDouble (- x)) by (apply nearestDouble_nonneg; lra). lra.
  - lra.
Qed.

Lemma binary64_mono (x y : Q) : x <= y -> Rounded.binary64 x <= Rounded.binary64 y.
Proof.
  intro Hxy. destruct (Qlt_le_dec 0 x) as [Hx|Hx].
  - unfold Rounded.binary64.
    destruct (Qcompare_spec x 0) as [E|L|G]; [lra|lra|].
    destruct (Qcompare_spec y 0) as [E'|L'|G']; [lra|lra|].
    apply nearestDouble_mono; assumption.
  - destruct (Qlt_le_dec y 0) as [Hy|Hy].
    + unfold Rounded.binary64.
      destruct (Qcompare_spec x 0) as [E|L|G]; [lra| |lra].
      destruct (Qcompare_spec y 0) as [E'|L'|G']; [lra| |lra].
      assert (H : Rounded.nearestDouble (- y) <= Rounded.nearestDouble (- x))
        by (apply nearestDouble_mono; lra).
      lra.
    + apply Qle_trans with 0; [apply binary64_nonpos|apply binary64_nonneg]; assumption.
Qed.

Lemma binary64_result (x : Q) : Rounded.binary64 (Rounded.binary64 x) == Rounded.binary64 x.
Proof.
  unfold Rounded.binary64 at 2 3. destruct (Qcompare_spec x 0) as [E|L|G].
  - reflexivity.
  - assert (Hx : 0 < - x) by lra.
    pose proof (nearestDouble_nonneg (- x) Hx) as H0.
    unfold Rounded.binary64.
    destruct (Qcompare_spec (- Rounded.nearestDouble (- x)) 0) as [E'|L'|G']; [lra| |lra].
    assert (Hz : 0 < Rounded.nearestDouble (- x)) by lra.
    rewrite (nearestDouble_comp (- - Rounded.nearestDouble (- x)) (Rounded.nearestDouble (- x)))
      by (try ring; lra).
    rewrite (nearestDouble_result (- x) Hx Hz). reflexivity.
  - pose proof (nearestDouble_nonneg x G) as H0.
    unfold Rounded.binary64.
    destruct (Qcompare_spec (Rounded.nearestDouble x) 0) as [E'|L'|G']; [lra|lra|].
    apply nearestDouble_result; assumption.
Qed.

(** The rounding of binary64 is a rounding. *)
Lemma binary64_rounding : Rounded.rounding Rounded.binary64.
Proof.
  unfold Rounded.rounding. split; [exact binary64_mono|].
  split; [exact binary64_result|]. split; vm_compute; reflexivity.
Qed.

End RoundingFacts.

Section RoundedClaims.

Import Utils.

Local Open Scope Q_scope.



End RoundedClaims.

(** ** The fill simulator on doubles: where the claims stop *)

Section DoubleFacts.

Import PrimFloat.

Local Open Scope float_scope.
Local Set Warnings "-inexact-float".


(** On that sale the walk with every operation rounded by
    [Rounded.binary64] returns the very numbers the walk on doubles
    returns, and so an average price above the single bid as well. *)
Lemma marketFill_rounded_agrees_with_doubles :
  exists r r',
    Binary64.marketFill Binary64.oneBid Utils.sell 64 = Some r /\
    Rounded.marketFill Rounded.binary64 Examples.oneBid Utils.sell (64)%Q = Some r' /\
    option_map Qred (Binary64.toQ (Binary64.avgPrice r)) = Some (Qred (Utils.avgPrice r')) /\
    option_map Qred (Binary64.toQ (Binary64.shares r)) = Some (Qred (Utils.shares r')) /\
    option_map Qred (Binary64.toQ (Binary64.notional r)) = Some (Qred (Utils.notional r')) /\
    (0.765625 < Utils.avgPrice r')%Q.
Proof.
  do 2 eexists. split; [vm_compute; reflexivity|].
  split; [vm_compute; reflexivity|].
  repeat split; vm_compute; reflexivity.
Qed.

(** What [Rounded] leaves aside is overflow.  With the largest double
    for the notional and three asks at price 1, the first two too small
    to move the remainder, the sums of cost and shares overflow and the
    average price is NaN. *)
Lemma marketFill_overflow_gives_nan :
  let most := 0x1.fffffffffffffp+1023 in
  let few := 0x1.999999999999ap+969 in
  let bk := {| Binary64.bids := [];
               Binary64.asks := [{| Binary64.price := 1; Binary64.size := few |};
                                 {| Binary64.price := 1; Binary64.size := few |};
                                 {| Binary64.price := 1; Binary64.size := most |}] |} in
  exists r, Binary64.marketFill bk Utils.buy most = Some r /\
            Binary64.shares r = infinity /\
            Binary64.notional r = infinity /\
            is_nan (Binary64.avgPrice r) = true.
Proof.
  cbv zeta. eexists. split; [vm_compute; reflexivity|].
  repeat split; vm_compute; reflexivity.
Qed.

(** C10 as stated fails on doubles.  Minus infinity is at most zero, yet
    on a book with two valid asks [marketFill] returns a fill, all of
    whose fields are NaN: the first level leaves [-Infinity + Infinity]
    for the remainder, and no test of the guard holds of NaN. *)
Lemma marketFill_fills_minus_infinity :
  (neg_infinity <=? 0) = true /\
  exists r, Binary64.marketFill Binary64.twoAsks Utils.buy neg_infinity = Some r /\
            is_nan (Binary64.avgPrice r) = true /\
            is_nan (Binary64.shares r) = true /\
            is_nan (Binary64.notional r) = true.
Proof.
  split; [vm_compute; reflexivity|]. eexists.
  split; [vm_compute; reflexivity|]. repeat split; vm_compute; reflexivity.
Qed.

End DoubleFacts.

(** ** The exit rule *)

Section ExitFacts.

Import Engine.

Local Open Scope Q_scope.

(** C2.  [shouldExit] resolves in a fixed order.  Once the age of the
    position reaches [maxHoldMs] the answer is TIME_STOP whatever the bid,
    so also when the bid has reached the take-profit price; below that age
    a bid at or above the take-profit price gives TAKE_PROFIT; otherwise a
    bid at or below the stop-loss price gives STOP_LOSS; otherwise there is
    no exit. *)
Theorem shouldExit_priority :
  forall (p : position) (mk : mark) (now : Z),
    ((exitMaxHoldMs (posExits p) <= now - openedAt p)%Z ->
       shouldExit p mk now = Some {| reason := TIME_STOP; exitAt := now |}) /\
    ((now - openedAt p < exitMaxHoldMs (posExits p))%Z ->
     takeProfitPrice (posExits p) <= markBid mk ->
       shouldExit p mk now = Some {| reason := TAKE_PROFIT; exitAt := now |}) /\
    ((now - openedAt p < exitMaxHoldMs (posExits p))%Z ->
     markBid mk < takeProfitPrice (posExits p) ->
     markBid mk <= stopLossPrice (posExits p) ->
       shouldExit p mk now = Some {| reason := STOP_LOSS; exitAt := now |}) /\
    ((now - openedAt p < exitMaxHoldMs (posExits p))%Z ->
     markBid mk < takeProfitPrice (posExits p) ->
     stopLossPrice (posExits p) < markBid mk ->
       shouldExit p mk now = None) /\
    ((exitMaxHoldMs (posExits p) <= now - openedAt p)%Z ->
     takeProfitPrice (posExits p) <= markBid mk ->
       shouldExit p mk now = Some {| reason := TIME_STOP; exitAt := now |}).
Proof.
  intros p mk now. unfold shouldExit.
  destruct (Z.leb_spec (exitMaxHoldMs (posExits p)) (now - openedAt p)) as [Hold|Hyoung].
  - repeat split; intros; try reflexivity; lia.
  - destruct (Js.geb (markBid mk) (takeProfitPrice (posExits p))) eqn:Etp.
    + apply geb_true in Etp.
      repeat split; intros; try reflexivity; try lia; lra.
    + apply geb_false in Etp.
      destruct (Js.leb (markBid mk) (stopLossPrice (posExits p))) eqn:Esl.
      * apply leb_true in Esl.
        repeat split; intros; try reflexivity; try lia; lra.
      * apply leb_false in Esl.
        repeat split; intros; try reflexivity; try lia; lra.
Qed.

Lemma shouldExit_priority_witness :
  shouldExit Examples.heldPosition (Examples.markAt 0.425 0.43) 3600000
    = Some {| reason := TIME_STOP; exitAt := 3600000 |} /\
  shouldExit Examples.heldPosition (Examples.markAt 0.425 0.43) 1000
    = Some {| reason := TAKE_PROFIT; exitAt := 1000 |} /\
  shouldExit Examples.heldPosition (Examples.markAt 0.37 0.38) 1000
    = Some {| reason := STOP_LOSS; exitAt := 1000 |} /\
  shouldExit Examples.heldPosition (Examples.markAt 0.40 0.41) 1000 = None.
Proof.
  split; [|split; [|split]].
  - apply (proj1 (shouldExit_priority Examples.heldPosition
                    (Examples.markAt 0.425 0.43) 3600000)).
    vm_compute. discriminate.
  - apply (proj1 (proj2 (shouldExit_priority Examples.heldPosition
                           (Examples.markAt 0.425 0.43) 1000))).
    + vm_compute. reflexivity.
    + vm_compute. discriminate.
  - apply (proj1 (proj2 (proj2 (shouldExit_priority Examples.heldPosition
                                  (Examples.markAt 0.37 0.38) 1000)))).
    + vm_compute. reflexivity.
    + vm_compute. reflexivity.
    + vm_compute. discriminate.
  - apply (proj1 (proj2 (proj2 (proj2 (shouldExit_priority Examples.heldPosition
                                         (Examples.markAt 0.40 0.41) 1000))))).
    + vm_compute. reflexivity.
    + vm_compute. reflexivity.
    + vm_compute. reflexivity.
Defined.

End ExitFacts.

(** ** The monitor loop *)

Section MonitorFacts.

Import Engine Monitor.

Lemma openEvents_append (i : positionId) (e : event) (d : store) :
  openEvents (appendTradeLog i e d) = openEvents d ++ filter isOpenEvent [(i, e)].
Proof. unfold openEvents, appendTradeLog. simpl tradeLog. apply filter_app. Qed.

Lemma closeEvents_append (i : positionId) (e : event) (d : store) :
  closeEvents (appendTradeLog i e d) = closeEvents d ++ filter isCloseEvent [(i, e)].
Proof. unfold closeEvents, appendTradeLog. simpl tradeLog. apply filter_app. Qed.

Lemma withLastMark_same (p : position) : withLastMark p (lastMark p) = p.
Proof. destruct p. reflexivity. Qed.

(** With a position in the slot, a pass logs no OPEN line, and it leaves
    in the slot either nothing or the same position with a new mark. *)
Lemma monitorBranch_keeps_single (tk : tick) (s : state) (p : position) (d : store) :
  let d' := monitorBranch tk s p d in
  openEvents d' = openEvents d /\
  ((persistedOpen d' = persistedOpen d /\ closeEvents d' = closeEvents d) \/
   (exists mk, persistedOpen d' = Some (withLastMark p mk)
               /\ closeEvents d' = closeEvents d) \/
   (persistedOpen d' = None /\
    exists e, isCloseEvent e = true /\ closeEvents d' = closeEvents d ++ [e])).
Proof.
  unfold monitorBranch.
  destruct (fetch tk (posTokenId p)) as [bk|]; [|split; [reflexivity|left; tauto]].
  destruct (Utils.bestBid (bestBidAsk bk)) as [bb|]; [|split; [reflexivity|left; tauto]].
  destruct (Utils.bestAsk (bestBidAsk bk)) as [ba|]; [|split; [reflexivity|left; tauto]].
  cbv zeta.
  destruct (shouldExit _ _ (now tk)) as [dec|].
  - split.
    + unfold openEvents. simpl tradeLog. rewrite !filter_app. simpl.
      rewrite !app_nil_r. reflexivity.
    + right. right. split; [reflexivity|].
      eexists. split; [|unfold closeEvents; simpl tradeLog; rewrite !filter_app; simpl;
                         rewrite app_nil_r; reflexivity].
      reflexivity.
  - split.
    + unfold openEvents. simpl tradeLog. rewrite filter_app. simpl.
      rewrite app_nil_r. reflexivity.
    + right. left. eexists. split; [reflexivity|].
      unfold closeEvents. simpl tradeLog. rewrite filter_app. simpl.
      rewrite app_nil_r. reflexivity.
Qed.

(** With an empty slot, a pass either opens nothing or logs one OPEN line
    and stores the position it built. *)
Lemma scanBranch_opens_at_most_one (cfg : config) (tk : tick) (s : state)
    (d d' : store) :
  openPosition s = None ->
  scanBranch cfg tk s d = Some d' ->
  closeEvents d' = closeEvents d /\
  ((persistedOpen d' = None /\ openEvents d' = openEvents d) \/
   (exists p e, persistedOpen d' = Some p /\ isOpenEvent e = true /\
                openEvents d' = openEvents d ++ [e])).
Proof.
  intros Hnone. unfold scanBranch.
  destruct (catalog tk) as [markets|]; [|discriminate].
  cbv zeta.
  destruct (best (findOpportunity _ _ cfg markets)) as [op|]; intro H; injection H as <-.
  - split.
    + unfold closeEvents. simpl tradeLog. rewrite filter_app. simpl.
      rewrite app_nil_r. reflexivity.
    + right. eexists. eexists. split; [reflexivity|]. split;
        [|unfold openEvents; simpl tradeLog; rewrite filter_app; simpl; reflexivity].
      reflexivity.
  - split; [reflexivity|]. left. split; [|reflexivity].
    unfold persistedOpen. simpl. exact Hnone.
Qed.

Lemma readState_open (tk : tick) (d : store) :
  openPosition (readState tk d) = persistedOpen d.
Proof. unfold readState, persistedOpen. destruct (stateFile d); reflexivity. Qed.

Lemma cycle_balanced (cfg : config) (tk : tick) (d d' : store) :
  cycle cfg tk d = Some d' -> balanced d -> balanced d'.
Proof.
  unfold cycle, balanced, openCount.
  pose proof (readState_open tk d) as Hrd.
  destruct (openPosition (readState tk d)) as [p|] eqn:Ep.
  - intro H. injection H as <-. rewrite <- Hrd.
    destruct (monitorBranch_keeps_single tk (readState tk d) p d)
      as [Ho [[Hp Hc]|[[mk [Hp Hc]]|[Hp [e [_ Hc]]]]]];
      rewrite Ho, Hc; try rewrite Hp.
    + rewrite <- Hrd. tauto.
    + tauto.
    + rewrite length_app. simpl. lia.
  - intros H. rewrite <- Hrd.
    destruct (scanBranch_opens_at_most_one cfg tk (readState tk d) d d' Ep H)
      as [Hc [[Hp Ho]|[p [e [Hp [_ Ho]]]]]]; rewrite Hc, Ho, Hp.
    + tauto.
    + rewrite length_app. simpl. lia.
Qed.

Lemma run_balanced (cfg : config) (ticks : list tick) :
  forall d, balanced d -> balanced (run cfg ticks d).
Proof.
  induction ticks as [|tk rest IH]; intros d Hd; simpl; [exact Hd|].
  destruct (cycle cfg tk d) as [d'|] eqn:E; [|exact Hd].
  apply IH. exact (cycle_balanced cfg tk d d' E Hd).
Qed.

(** C1.  Across a run the logs and the slot stay in step, so the number
    of positions opened and not yet closed is the number in the slot, 0 or
    1.  In one pass: when the state file holds a position, no OPEN line is
    logged and the slot ends up empty or with that same position carrying
    a new mark, never with another one; an OPEN line is logged only when
    the slot read at the start of the pass was empty. *)
Theorem at_most_one_open_position :
  forall cfg : config,
    (forall ticks d,
       balanced d ->
       balanced (run cfg ticks d) /\ (openCount (run cfg ticks d) <= 1)%nat) /\
    (forall tk d d',
       cycle cfg tk d = Some d' ->
       (forall p, persistedOpen d = Some p ->
          openEvents d' = openEvents d /\
          (persistedOpen d' = None \/
           exists mk, persistedOpen d' = Some (withLastMark p mk))) /\
       (openEvents d' <> openEvents d -> persistedOpen d = None)).
Proof.
  intro cfg. split.
  - intros ticks d Hd. split; [exact (run_balanced cfg ticks d Hd)|].
    unfold openCount. destruct (persistedOpen _); lia.
  - intros tk d d'. unfold cycle.
    pose proof (readState_open tk d) as Hrd.
    destruct (openPosition (readState tk d)) as [p0|] eqn:Ep.
    + intro H. injection H as <-.
      destruct (monitorBranch_keeps_single tk (readState tk d) p0 d)
        as [Ho Hslot].
      split.
      * intros p Hp. rewrite <- Hrd in Hp. injection Hp as <-.
        split; [exact Ho|].
        destruct Hslot as [[Hp _]|[[mk [Hp _]]|[Hp _]]].
        -- right. exists (lastMark p0). rewrite Hp, <- Hrd, withLastMark_same.
           reflexivity.
        -- right. exists mk. exact Hp.
        -- left. exact Hp.
      * intro Hne. contradiction.
    + intros _. split.
      * intros p Hp. rewrite <- Hrd in Hp. discriminate.
      * intros _. symmetry. exact Hrd.
Qed.

Lemma at_most_one_open_position_witness :
  balanced Examples.holdingStore /\
  balanced (run defaultConfig [Examples.profitTick; Examples.profitTick]
              Examples.holdingStore) /\
  (exists d', cycle defaultConfig Examples.profitTick Examples.holdingStore = Some d' /\
              openEvents d' = openEvents Examples.holdingStore /\
              persistedOpen d' = None).
Proof.
  assert (Hb : balanced Examples.holdingStore) by reflexivity.
  destruct (at_most_one_open_position defaultConfig) as [Hrun Hpass].
  split; [exact Hb|]. split.
  - exact (proj1 (Hrun [Examples.profitTick; Examples.profitTick]
                    Examples.holdingStore Hb)).
  - destruct (cycle defaultConfig Examples.profitTick Examples.holdingStore)
      as [d'|] eqn:E; [|vm_compute in E; discriminate].
    exists d'. split; [reflexivity|].
    destruct (Hpass Examples.profitTick Examples.holdingStore d' E) as [Hopen _].
    destruct (Hopen Examples.heldPosition eq_refl) as [Hlog _].
    split; [exact Hlog|].
    injection E as <-. vm_compute. reflexivity.
Defined.

End MonitorFacts.

(** ** The scoring model *)

Section ScoreFacts.

Import Score.

Local Open Scope R_scope.

Lemma clamp01_range (x : R) : 0 <= clamp01 x <= 1.
Proof.
  unfold clamp01. split.
  - apply Rmax_l.
  - apply Rmax_lub; [lra|apply Rmin_l].
Qed.

Lemma clamp01_mono (x y : R) : x <= y -> clamp01 x <= clamp01 y.
Proof.
  intro H. unfold clamp01.
  apply Rle_max_compat_l. apply Rle_min_compat_l. exact H.
Qed.

Lemma ln_10_pos : 0 < ln 10.
Proof. rewrite <- ln_1. apply ln_increasing; lra. Qed.

Lemma log10_mono (x y : R) : 0 < x -> x <= y -> log10 x <= log10 y.
Proof.
  intros Hx Hxy. unfold log10, Rdiv.
  apply Rmult_le_compat_r.
  - left. apply Rinv_0_lt_compat. exact ln_10_pos.
  - destruct Hxy as [Hlt | ->]; [|apply Rle_refl].
    left. apply ln_increasing; assumption.
Qed.

Lemma logScore_defined (x : R) :
  -1 <= x -> logScore x = Some (clamp01 (log10 (1 + x) / 5)).
Proof.
  intro H. unfold logScore. destruct (Rlt_dec (1 + x) 0); [lra|reflexivity].
Qed.

Lemma logScore_term_mono (x y : R) :
  0 <= x -> x <= y ->
  clamp01 (log10 (1 + x) / 5) <= clamp01 (log10 (1 + y) / 5).
Proof.
  intros Hx Hxy. apply clamp01_mono.
  assert (H : log10 (1 + x) <= log10 (1 + y)) by (apply log10_mono; lra).
  lra.
Qed.

Lemma Math_round_range (x : R) : 0 <= x <= 100 -> (0 <= Math_round x <= 100)%Z.
Proof.
  intros [H0 H100]. unfold Math_round. split.
  - apply Zfloor_lub. simpl. lra.
  - pose proof (Zfloor_bound (x + / 2)) as [Hf _].
    assert (Hlt : IZR (Zfloor (x + / 2)) < IZR 101) by (simpl; lra).
    apply lt_IZR in Hlt. lia.
Qed.

Lemma Math_round_mono (x y : R) : x <= y -> (Math_round x <= Math_round y)%Z.
Proof. intro H. unfold Math_round. apply Zfloor_le. lra. Qed.

Lemma clamp100_range (x : R) : 0 <= Rmax 0 (Rmin 100 x) <= 100.
Proof.
  split; [apply Rmax_l|]. apply Rmax_lub; [lra|apply Rmin_l].
Qed.

Lemma Math_round_nearest (x : R) : Rabs (IZR (Math_round x) - x) <= / 2.
Proof.
  unfold Math_round. pose proof (Zfloor_bound (x + / 2)) as [Hlo Hhi].
  apply Rabs_le. lra.
Qed.

(** C5, as the code has it.  For every spread, move and slippage and for
    volume and liquidity of at least -1 (where the logarithms are not
    NaN), [opportunityScore] of the single-shot report is an integer
    between 0 and 100: the integer nearest to the weighted sum of the five
    clamped sub-scores, itself clamped to [0, 100]. *)
Theorem opportunityScore_range :
  forall (spread vol24h liq absMove1h : R) (slipBuy slipSell : option R),
    -1 <= vol24h -> -1 <= liq ->
    exists z : Z,
      opportunityScore spread vol24h liq absMove1h slipBuy slipSell = Some z /\
      (0 <= z <= 100)%Z /\
      Rabs (IZR z -
            Rmax 0 (Rmin 100
              (rawScore (clamp01 (log10 (1 + vol24h) / 5))
                        (clamp01 (log10 (1 + liq) / 5))
                        (clamp01 (absMove1h / 0.08))
                        (clamp01 (spread / 0.02))
                        (clamp01 ((orZero slipBuy + orZero slipSell) / 0.04)))))
      <= / 2.
Proof.
  intros spread vol liq mv sb ss Hv Hl. unfold opportunityScore.
  rewrite (logScore_defined vol Hv), (logScore_defined liq Hl).
  eexists. split; [reflexivity|]. split.
  - apply Math_round_range. apply clamp100_range.
  - apply Math_round_nearest.
Qed.

Lemma opportunityScore_range_witness :
  exists z : Z,
    opportunityScore 0.01 0 0 0 (Some 0.005) None = Some z /\ (0 <= z <= 100)%Z.
Proof.
  destruct (opportunityScore_range 0.01 0 0 0 (Some 0.005) None) as [z [E [Hr _]]];
    [lra|lra|].
  exists z. split; [exact E|exact Hr].
Defined.

(** C5 as stated fails twice over.  The score computed in
    [findOpportunity] is neither clamped nor rounded: for a token that
    moved from 0.20 to 0.70 with a spread of 0.01 in a market with a
    volume of 99999 the best opportunity carries a score of 525.  And
    [opportunityScore] is NaN for a volume below -1. *)
Lemma score_outside_0_100 :
  (exists op,
     Engine.best (Engine.findOpportunity Examples.movedFetch Examples.movedSnapshots
                    Engine.defaultConfig [Examples.busyMarket]) = Some op /\
     Engine.score op = 525 /\ 100 < Engine.score op) /\
  opportunityScore 0 (-2) 0 0 None None = None.
Proof.
  split.
  - eexists. split; [lazy -[engineScore Q2R]; reflexivity|].
    cbn [Engine.score].
    assert (E : engineScore (Q2R (100000000 # 200000000)) (Q2R (10000 # 1000000))
                  (Q2R 0.02) (Q2R 99999) = 525).
    { unfold engineScore, log10, Q2R. simpl.
      replace (1 + 99999 * / 1) with (10 ^ 5) by (simpl; field).
      rewrite ln_pow by lra.
      replace (INR 5 * ln 10 / ln 10 * 3) with 15
        by (simpl; field; apply Rgt_not_eq; exact ln_10_pos).
      rewrite (Rmin_right 1) by lra. rewrite (Rmin_right 20 15) by lra. lra. }
    rewrite E. split; [reflexivity|lra].
  - unfold opportunityScore, logScore.
    destruct (Rlt_dec (1 + -2) 0) as [_|Hn]; [reflexivity|]. exfalso. apply Hn. lra.
Qed.

(** C6.  On non-negative inputs [opportunityScore] does not decrease when
    volume, liquidity or move grow and does not increase when spread or
    either slippage grows; holding the other arguments fixed is the case
    where they are equal. *)
Theorem opportunityScore_monotone :
  forall (spread spread' vol vol' liq liq' mv mv' : R) (sb sb' ss ss' : option R),
    0 <= vol <= vol' ->
    0 <= liq <= liq' ->
    0 <= mv <= mv' ->
    0 <= spread' <= spread ->
    0 <= orZero sb' <= orZero sb ->
    0 <= orZero ss' <= orZero ss ->
    exists z z' : Z,
      opportunityScore spread vol liq mv sb ss = Some z /\
      opportunityScore spread' vol' liq' mv' sb' ss' = Some z' /\
      (z <= z')%Z.
Proof.
  intros spread spread' vol vol' liq liq' mv mv' sb sb' ss ss'
         [Hv Hv'] [Hl Hl'] [Hm Hm'] [Hs Hs'] [Hb Hb'] [Hc Hc'].
  unfold opportunityScore.
  rewrite (logScore_defined vol), (logScore_defined liq),
          (logScore_defined vol'), (logScore_defined liq') by lra.
  eexists. eexists. split; [reflexivity|]. split; [reflexivity|].
  apply Math_round_mono. apply Rle_max_compat_l. apply Rle_min_compat_l.
  pose proof (logScore_term_mono vol vol' Hv Hv') as Hvol.
  pose proof (logScore_term_mono liq liq' Hl Hl') as Hliq.
  assert (Hmove : clamp01 (mv / 0.08) <= clamp01 (mv' / 0.08))
    by (apply clamp01_mono; lra).
  assert (Hspread : clamp01 (spread' / 0.02) <= clamp01 (spread / 0.02))
    by (apply clamp01_mono; lra).
  assert (Hslip : clamp01 ((orZero sb' + orZero ss') / 0.04)
                  <= clamp01 ((orZero sb + orZero ss) / 0.04))
    by (apply clamp01_mono; lra).
  unfold rawScore. lra.
Qed.

Lemma opportunityScore_monotone_witness :
  exists z z' : Z,
    opportunityScore 0.02 1000 500 0.01 (Some 0.01) None = Some z /\
    opportunityScore 0.01 5000 900 0.03 (Some 0.005) None = Some z' /\
    (z <= z')%Z.
Proof.
  apply (opportunityScore_monotone 0.02 0.01 1000 5000 500 900 0.01 0.03
           (Some 0.01) (Some 0.005) None None); simpl; lra.
Defined.

End ScoreFacts.

(** ** Order-book requests come after the eligibility filters *)

Section RequestFacts.

Import Catalog.

Lemma firstn_In_inv (A : Type) (n : nat) (l : list A) (x : A) :
  In x (firstn n l) -> In x l.
Proof.
  revert l. induction n as [|n IH]; intros [|y l]; simpl; try tauto.
  intros [H|H]; [left; exact H|right; exact (IH l H)].
Qed.

Lemma tokenLoop_requests (f : fetcher) (toks : list string) :
  forall i prs tok,
    In tok (fst (Scan.tokenLoop f i toks prs)) -> In tok toks.
Proof.
  induction toks as [|t0 toks IH]; intros i prs tok; simpl; [tauto|].
  destruct prs as [|pr prs]; simpl; [tauto|].
  destruct (Js.isFinite pr) as [ref|].
  - destruct (f t0) as [bk|].
    + destruct (truthy _) as [b|]; [destruct (truthy _) as [a|]|];
        simpl; intros [H|H]; auto; right; exact (IH _ _ _ H).
    + simpl. intros [H|H]; auto. right. exact (IH _ _ _ H).
  - intro H. right. exact (IH _ _ _ H).
Qed.

(** One market of the single-shot scan adds requests only for its own
    tokens, and none when it has too few outcomes, prices or tokens. *)
Lemma Scan_scanMarket_requested (f : fetcher) (now : Z) (a : Scan.args)
    (st : Scan.scanState) (m : market) (tok : string) :
  In tok (Scan.requested (Scan.scanMarket f now a st m)) ->
  In tok (Scan.requested st) \/
  (Scan.tooFewOutcomes m = false /\ In tok (clobTokenIds m)).
Proof.
  unfold Scan.scanMarket.
  destruct (Scan.tooFewOutcomes m) eqn:Efew; [tauto|].
  assert (Hst1 : In tok (Scan.requested st ++
                         fst (Scan.tokenLoop f 0 (clobTokenIds m) (outcomePrices m))) ->
                 In tok (Scan.requested st) \/ (false = false /\ In tok (clobTokenIds m))).
  { intro H. apply in_app_or in H. destruct H as [H|H]; [left; exact H|].
    right. split; [reflexivity|]. exact (tokenLoop_requests _ _ _ _ _ H). }
  destruct (Js.sort _ (snd (Scan.tokenLoop f 0 (clobTokenIds m) (outcomePrices m))))
    as [|chosen others]; [exact Hst1|].
  cbv zeta.
  destruct (Js.gtb (Scan.tcSpread chosen) (Scan.maxSpread a)); [exact Hst1|].
  destruct (option_map Scan.slippage _) as [sb|]; exact Hst1.
Qed.

Lemma Scan_fold_requested (f : fetcher) (now : Z) (a : Scan.args)
    (ms : list market) :
  forall (st : Scan.scanState) (tok : string),
    In tok (Scan.requested (fold_left (Scan.scanMarket f now a) ms st)) ->
    In tok (Scan.requested st) \/
    exists m, In m ms /\ Scan.tooFewOutcomes m = false /\ In tok (clobTokenIds m).
Proof.
  induction ms as [|m ms IH]; intros st tok; simpl; [tauto|].
  intro H. destruct (IH _ _ H) as [H1|[m' [Hin Hm']]].
  - destruct (Scan_scanMarket_requested f now a st m tok H1) as [H2|H2].
    + left. exact H2.
    + right. exists m. split; [left; reflexivity|exact H2].
  - right. exists m'. split; [right; exact Hin|exact Hm'].
Qed.

(** One market of the live scan requests its first two tokens or
    nothing. *)
Lemma Engine_scanMarket_requested (f : fetcher) (sn : snapshots) (cfg : Engine.config)
    (acc : Engine.scanAcc) (m : market) (tok : string) :
  In tok (Engine.requested (Engine.scanMarket f sn cfg acc m)) ->
  In tok (Engine.requested acc) \/ In tok (clobTokenIds m).
Proof.
  unfold Engine.scanMarket.
  destruct (clobTokenIds m) as [|tA [|tB rest]]; try tauto.
  assert (Hacc1 : In tok (Engine.requested acc ++ [tA; tB]) ->
                  In tok (Engine.requested acc) \/ In tok (tA :: tB :: rest)).
  { intro H. apply in_app_or in H. destruct H as [H|H]; [left; exact H|].
    right. simpl in *. tauto. }
  destruct (f tA) as [bookA|]; [|exact Hacc1].
  destruct (f tB) as [bookB|]; [|exact Hacc1].
  destruct (bestBid (bestBidAsk bookA)) as [bidA|]; [|exact Hacc1].
  destruct (bestAsk (bestBidAsk bookA)) as [askA|]; [|exact Hacc1].
  destruct (bestBid (bestBidAsk bookB)) as [bidB|]; [|exact Hacc1].
  destruct (bestAsk (bestBidAsk bookB)) as [askB|]; [|exact Hacc1].
  cbv zeta.
  destruct (_ && _); [exact Hacc1|].
  destruct (Engine.pickTokenByMove _) as [best|]; [|exact Hacc1].
  destruct (Js.ltb _ _); [exact Hacc1|].
  destruct (Js.gtb _ _); [exact Hacc1|].
  destruct (marketFill _ _ _); exact Hacc1.
Qed.

Lemma Engine_fold_requested (f : fetcher) (sn : snapshots) (cfg : Engine.config)
    (ms : list market) :
  forall (acc : Engine.scanAcc) (tok : string),
    In tok (Engine.requested (fold_left (Engine.scanMarket f sn cfg) ms acc)) ->
    In tok (Engine.requested acc) \/
    exists m, In m ms /\ In tok (clobTokenIds m).
Proof.
  induction ms as [|m ms IH]; intros acc tok; simpl; [tauto|].
  intro H. destruct (IH _ _ H) as [H1|[m' [Hin Hm']]].
  - destruct (Engine_scanMarket_requested f sn cfg acc m tok H1) as [H2|H2].
    + left. exact H2.
    + right. exists m. split; [left; reflexivity|exact H2].
  - right. exists m'. split; [right; exact Hin|exact Hm'].
Qed.

(** C8, as the code has it.  In both scanners a book is requested only
    for a token of a market that passed the whole chain of filters of that
    scanner.  In the single-shot report the chain includes the end time
    lying inside the lookahead window (and an unparseable end time fails
    it), and the market has at least two outcomes, prices and tokens; the
    live scanner has no end-time test: its chain asks for exactly two
    outcomes and for order acceptance not being switched off. *)
Theorem book_requests_follow_filters :
  (forall (f : fetcher) (now : Z) (a : Scan.args) (prev0 : snapshots)
          (markets : list market) (tok : string),
     In tok (Scan.booksRequested (Scan.main f now a prev0 markets)) ->
     exists m, In m markets /\ In tok (clobTokenIds m) /\
               Scan.passesFilters now a m = true /\
               Scan.endWithinWindow now a m = true /\
               Scan.tooFewOutcomes m = false) /\
  (forall (f : fetcher) (sn : snapshots) (cfg : Engine.config)
          (markets : list market) (tok : string),
     In tok (Engine.booksRequested (Engine.findOpportunity f sn cfg markets)) ->
     exists m, In m markets /\ In tok (clobTokenIds m) /\
               Engine.passesFilters cfg m = true).
Proof.
  split.
  - intros f now a prev0 markets tok H. unfold Scan.main in H. simpl in H.
    apply Scan_fold_requested in H. destruct H as [[]|[m [Hin [Hfew Htok]]]].
    unfold Scan.candidates in Hin. apply firstn_In_inv in Hin.
    apply filter_In in Hin. destruct Hin as [Hin Hpass].
    exists m. repeat split; try assumption.
    unfold Scan.passesFilters in Hpass.
    apply andb_true_iff in Hpass. exact (proj2 Hpass).
  - intros f sn cfg markets tok H. unfold Engine.findOpportunity in H. simpl in H.
    apply Engine_fold_requested in H. destruct H as [[]|[m [Hin Htok]]].
    unfold Engine.candidates in Hin. apply firstn_In_inv in Hin.
    apply filter_In in Hin. destruct Hin as [Hin Hpass].
    exists m. repeat split; assumption.
Qed.

Lemma book_requests_follow_filters_witness :
  In "A"%string (Scan.booksRequested Examples.wideReport) /\
  exists m, In m [Examples.wideMarket] /\ In "A"%string (clobTokenIds m) /\
            Scan.passesFilters 1000 Scan.defaultArgs m = true /\
            Scan.endWithinWindow 1000 Scan.defaultArgs m = true /\
            Scan.tooFewOutcomes m = false.
Proof.
  assert (H : In "A"%string (Scan.booksRequested Examples.wideReport))
    by (vm_compute; left; reflexivity).
  split; [exact H|].
  exact (proj1 book_requests_follow_filters Examples.wideFetch 1000%Z
           Scan.defaultArgs Examples.noSnapshots [Examples.wideMarket] "A"%string H).
Defined.

(** C8 as stated fails for the live scanner: a market whose end date
    does not parse passes its filters and both of its books are requested,
    while the single-shot filter rejects the same market. *)
Lemma live_scan_requests_books_of_undated_market :
  endDate Examples.undatedMarket = None /\
  Scan.passesFilters 1000 Scan.defaultArgs Examples.undatedMarket = false /\
  Engine.booksRequested
    (Engine.findOpportunity Examples.wideFetch Examples.noSnapshots
       Engine.defaultConfig [Examples.undatedMarket]) = ["A"; "B"]%string.
Proof. repeat split; vm_compute; reflexivity. Qed.

End RequestFacts.

(** ** Snapshots of observed tokens *)

Section SnapshotFacts.

Import Catalog Engine Monitor.

(** The two updates the live scan pushes for a market. *)
Lemma Engine_scanMarket_updates (f : fetcher) (sn : Catalog.snapshots) (cfg : config)
    (acc : scanAcc) (m : Catalog.market) :
  (forall u, In u (snapshotUpdates acc) ->
             In u (snapshotUpdates (scanMarket f sn cfg acc m))) /\
  (forall tA tB rest bookA bookB bidA askA bidB askB,
     clobTokenIds m = tA :: tB :: rest ->
     f tA = Some bookA -> f tB = Some bookB ->
     bestBid (bestBidAsk bookA) = Some bidA -> bestAsk (bestBidAsk bookA) = Some askA ->
     bestBid (bestBidAsk bookB) = Some bidB -> bestAsk (bestBidAsk bookB) = Some askB ->
     In {| uTokenId := tA; uMid := (bidA + askA) / 2; uBid := bidA; uAsk := askA |}
        (snapshotUpdates (scanMarket f sn cfg acc m)) /\
     In {| uTokenId := tB; uMid := (bidB + askB) / 2; uBid := bidB; uAsk := askB |}
        (snapshotUpdates (scanMarket f sn cfg acc m))).
Proof.
  split.
  - intros u Hu. unfold scanMarket.
    destruct (clobTokenIds m) as [|tA [|tB rest]]; try exact Hu.
    destruct (f tA) as [bookA|]; [|exact Hu].
    destruct (f tB) as [bookB|]; [|exact Hu].
    destruct (bestBid (bestBidAsk bookA)) as [bidA|]; [|exact Hu].
    destruct (bestAsk (bestBidAsk bookA)) as [askA|]; [|exact Hu].
    destruct (bestBid (bestBidAsk bookB)) as [bidB|]; [|exact Hu].
    destruct (bestAsk (bestBidAsk bookB)) as [askB|]; [|exact Hu].
    cbv zeta.
    assert (Hgoal : In u (snapshotUpdates acc ++
              [{| uTokenId := tA; uMid := (bidA + askA) / 2; uBid := bidA; uAsk := askA |};
               {| uTokenId := tB; uMid := (bidB + askB) / 2; uBid := bidB; uAsk := askB |}]))
      by (apply in_or_app; left; exact Hu).
    destruct (_ && _); [exact Hgoal|].
    destruct (pickTokenByMove _) as [best|]; [|exact Hgoal].
    destruct (Js.ltb _ _); [exact Hgoal|].
    destruct (Js.gtb _ _); [exact Hgoal|].
    destruct (marketFill _ _ _); exact Hgoal.
  - intros tA tB rest bookA bookB bidA askA bidB askB Ht HA HB H1 H2 H3 H4.
    unfold scanMarket. rewrite Ht, HA, HB, H1, H2, H3, H4. cbv zeta.
    set (uA := {| uTokenId := tA; uMid := (bidA + askA) / 2; uBid := bidA; uAsk := askA |}).
    set (uB := {| uTokenId := tB; uMid := (bidB + askB) / 2; uBid := bidB; uAsk := askB |}).
    assert (Hgoal : In uA (snapshotUpdates acc ++ [uA; uB]) /\
                    In uB (snapshotUpdates acc ++ [uA; uB]))
      by (split; apply in_or_app; right; simpl; auto).
    destruct (_ && _); [exact Hgoal|].
    destruct (pickTokenByMove _) as [best|]; [|exact Hgoal].
    destruct (Js.ltb _ _); [exact Hgoal|].
    destruct (Js.gtb _ _); [exact Hgoal|].
    destruct (marketFill _ _ _); exact Hgoal.
Qed.

Lemma Engine_fold_updates_grow (f : fetcher) (sn : Catalog.snapshots) (cfg : config)
    (ms : list Catalog.market) :
  forall acc u, In u (snapshotUpdates acc) ->
                In u (snapshotUpdates (fold_left (scanMarket f sn cfg) ms acc)).
Proof.
  induction ms as [|m ms IH]; intros acc u Hu; simpl; [exact Hu|].
  apply IH. exact (proj1 (Engine_scanMarket_updates f sn cfg acc m) u Hu).
Qed.

Lemma findOpportunity_updates_observed (f : fetcher) (sn : Catalog.snapshots)
    (cfg : config) (markets : list Catalog.market) (m : Catalog.market)
    (tA tB : string) (rest : list string) (bookA bookB : book) (bidA askA bidB askB : Q) :
  In m (candidates cfg markets) ->
  clobTokenIds m = tA :: tB :: rest ->
  f tA = Some bookA -> f tB = Some bookB ->
  bestBid (bestBidAsk bookA) = Some bidA -> bestAsk (bestBidAsk bookA) = Some askA ->
  bestBid (bestBidAsk bookB) = Some bidB -> bestAsk (bestBidAsk bookB) = Some askB ->
  In {| uTokenId := tA; uMid := (bidA + askA) / 2; uBid := bidA; uAsk := askA |}
     (updates (findOpportunity f sn cfg markets)) /\
  In {| uTokenId := tB; uMid := (bidB + askB) / 2; uBid := bidB; uAsk := askB |}
     (updates (findOpportunity f sn cfg markets)).
Proof.
  intros Hin Ht HA HB H1 H2 H3 H4. unfold findOpportunity. simpl.
  generalize {| requested := []; snapshotUpdates := []; scored := [] |}.
  induction (candidates cfg markets) as [|m0 ms IH]; intro acc; [destruct Hin|].
  simpl. destruct Hin as [->|Hin].
  - destruct (proj2 (Engine_scanMarket_updates f sn cfg acc m)
                _ _ _ _ _ _ _ _ _ Ht HA HB H1 H2 H3 H4) as [Ha Hb].
    split; apply Engine_fold_updates_grow; assumption.
  - exact (IH Hin _).
Qed.

Lemma setToken_writtenAt (at_ : Z) (k tok : string) (m b a : Q)
    (g : string -> option snapshot) :
  writtenAt at_ g tok \/ k = tok ->
  writtenAt at_ (setToken k {| mid := m; bid := b; ask := a; t := at_ |} g) tok.
Proof.
  intros H. unfold writtenAt, setToken.
  destruct (String.eqb k tok) eqn:E.
  - eexists. split; reflexivity.
  - destruct H as [H|H]; [exact H|].
    apply String.eqb_neq in E. contradiction.
Qed.

Lemma applyUpdates_writtenAt (at_ : Z) (us : list update) (tok : string) :
  forall g,
    writtenAt at_ g tok \/ (exists u, In u us /\ uTokenId u = tok) ->
    writtenAt at_ (applyUpdates at_ us g) tok.
Proof.
  unfold applyUpdates.
  induction us as [|u us IH]; intros g H; simpl.
  - destruct H as [H|[u [[] _]]]. exact H.
  - apply IH. destruct H as [H|[u' [[<-|Hin] Htok]]].
    + left. apply setToken_writtenAt. left. exact H.
    + left. apply setToken_writtenAt. right. exact Htok.
    + right. exists u'. split; assumption.
Qed.

(** In the live loop a market both of whose books were fetched and show
    a bid and an ask has both tokens written to the persisted snapshots in
    that pass, whether or not a position is opened. *)
Lemma live_scan_records_observed_tokens (cfg : config) (tk : tick) (s : state)
    (d d' : store) (markets : list Catalog.market) (m : Catalog.market)
    (tA tB : string) (rest : list string) (bookA bookB : book) (bidA askA bidB askB : Q) :
  catalog tk = Some markets ->
  In m (candidates cfg markets) ->
  clobTokenIds m = tA :: tB :: rest ->
  fetch tk tA = Some bookA -> fetch tk tB = Some bookB ->
  bestBid (bestBidAsk bookA) = Some bidA -> bestAsk (bestBidAsk bookA) = Some askA ->
  bestBid (bestBidAsk bookB) = Some bidB -> bestAsk (bestBidAsk bookB) = Some askB ->
  scanBranch cfg tk s d = Some d' ->
  exists st, stateFile d' = Some st /\
             writtenAt (now tk) (byToken (snapshots st)) tA /\
             writtenAt (now tk) (byToken (snapshots st)) tB.
Proof.
  intros Hcat Hin Ht HA HB H1 H2 H3 H4. unfold scanBranch. rewrite Hcat. cbv zeta.
  destruct (findOpportunity_updates_observed (fetch tk) (snapshots s) cfg markets m
              tA tB rest bookA bookB bidA askA bidB askB Hin Ht HA HB H1 H2 H3 H4)
    as [Ha Hb].
  assert (Wa : writtenAt (now tk)
                 (applyUpdates (now tk)
                    (updates (findOpportunity (fetch tk) (snapshots s) cfg markets))
                    (byToken (snapshots s))) tA).
  { apply applyUpdates_writtenAt. right. eexists. split; [exact Ha|reflexivity]. }
  assert (Wb : writtenAt (now tk)
                 (applyUpdates (now tk)
                    (updates (findOpportunity (fetch tk) (snapshots s) cfg markets))
                    (byToken (snapshots s))) tB).
  { apply applyUpdates_writtenAt. right. eexists. split; [exact Hb|reflexivity]. }
  destruct (best (findOpportunity (fetch tk) (snapshots s) cfg markets)) as [op|];
    intro H; injection H as <-; eexists; (split; [reflexivity|]); simpl.
  - split; apply setToken_writtenAt; left; assumption.
  - split; assumption.
Qed.

(** C7 at a failing input.  The single-shot scan requests the books of
    tokens A and B, both show a bid of 0.40 and an ask of 0.60, the market
    is rejected for its spread, and the snapshot document that is saved
    has no entry for either token. *)
Theorem single_shot_scan_forgets_rejected_market :
  Scan.booksRequested Examples.wideReport = ["A"; "B"]%string /\
  bestBidAsk Examples.wideBook = {| bestBid := Some 0.40%Q; bestAsk := Some 0.60%Q |} /\
  Scan.top Examples.wideReport = [] /\
  byToken (Scan.saved Examples.wideReport) "A" = None /\
  byToken (Scan.saved Examples.wideReport) "B" = None.
Proof. repeat split; vm_compute; reflexivity. Qed.

(** The live loop on the same market: rejected as well, yet both tokens
    are in the state file afterwards. *)
Lemma live_scan_remembers_rejected_market :
  exists d' st,
    cycle defaultConfig Examples.wideTick Examples.freshStore = Some d' /\
    stateFile d' = Some st /\ openPosition st = None /\
    byToken (snapshots st) "A" = Some {| mid := (0.40 + 0.60) / 2; bid := 0.40;
                                         ask := 0.60; t := 1000 |} /\
    byToken (snapshots st) "B" = Some {| mid := (0.40 + 0.60) / 2; bid := 0.40;
                                         ask := 0.60; t := 1000 |}.
Proof.
  eexists. eexists. split; [vm_compute; reflexivity|].
  split; [reflexivity|]. repeat split.
Qed.

(** The live scan drops a market when one of its two books lacks a
    quote, before either token is pushed: token A, whose book shows both
    quotes, is not written. *)
Lemma live_scan_skips_token_of_lopsided_market :
  bestBidAsk Examples.wideBook = {| bestBid := Some 0.40%Q; bestAsk := Some 0.60%Q |} /\
  updates (findOpportunity Examples.lopsidedFetch Examples.noSnapshots defaultConfig
             [Examples.wideMarket]) = [].
Proof. split; vm_compute; reflexivity. Qed.

End SnapshotFacts.

(* ================================================================== *)
(** * Further properties of the code *)

(** ** [sortedLevels]: which levels survive, and in which order *)

Section SortedLevelsMore.

Local Open Scope Q_scope.

Lemma insert_Permutation (A : Type) (before : A -> A -> bool) (x : A) (l : list A) :
  Permutation (Js.insert before x l) (x :: l).
Proof.
  induction l as [|y l IH]; simpl; [apply Permutation_refl|].
  destruct (before x y); [apply Permutation_refl|].
  apply Permutation_trans with (y :: x :: l).
  - apply perm_skip. exact IH.
  - apply perm_swap.
Qed.

Lemma sort_Permutation (A : Type) (before : A -> A -> bool) (l : list A) :
  Permutation (Js.sort before l) l.
Proof.
  induction l as [|y l IH]; simpl; [apply Permutation_refl|].
  apply Permutation_trans with (y :: Js.sort before l).
  - apply insert_Permutation.
  - apply perm_skip. exact IH.
Qed.

Lemma keepLevel_iff (l : rawLevel) (x : level) :
  keepLevel l = Some x <->
  Js.isFinite (rawPrice l) = Some (price x) /\
  Js.isFinite (rawSize l) = Some (size x) /\ 0 < price x /\ 0 < size x.
Proof.
  unfold keepLevel. split.
  - destruct (Js.isFinite (rawPrice l)) as [p|]; [|discriminate].
    destruct (Js.isFinite (rawSize l)) as [s|]; [|discriminate].
    destruct (Js.gtb p 0) eqn:Ep; [|discriminate].
    destruct (Js.gtb s 0) eqn:Es; [|discriminate].
    simpl. intro H. injection H as <-. simpl.
    apply gtb_true in Ep. apply gtb_true in Es. auto.
  - intros [Hp [Hs [Hpp Hsp]]]. rewrite Hp, Hs.
    apply gtb_true in Hpp. apply gtb_true in Hsp. rewrite Hpp, Hsp.
    simpl. destruct x. reflexivity.
Qed.

Lemma filterLevels_In_iff (raw : list rawLevel) (x : level) :
  In x (filterLevels raw) <-> exists l, In l raw /\ keepLevel l = Some x.
Proof.
  induction raw as [|l raw IH]; simpl.
  - split; [tauto|]. intros [l [[] _]].
  - destruct (keepLevel l) as [y|] eqn:E; simpl; rewrite IH; split.
    + intros [<-|[l' [Hin Hk]]]; [exists l; auto|exists l'; auto].
    + intros [l' [[<-|Hin] Hk]].
      * left. congruence.
      * right. exists l'. auto.
    + intros [l' [Hin Hk]]. exists l'. auto.
    + intros [l' [[<-|Hin] Hk]]; [congruence|]. exists l'. auto.
Qed.

(** X1.  [sortedLevels] keeps exactly the levels whose price and size are
    finite and strictly positive, each as often as the book lists it, and
    puts them best price first: for a buy no level is dearer than any
    level after it, for a sell none is cheaper. *)
Theorem sortedLevels_valid_levels_best_first :
  forall (bk : book) (sd : side),
    Permutation (sortedLevels bk sd) (filterLevels (rawSide bk sd)) /\
    (forall x, In x (sortedLevels bk sd) <->
               exists l, In l (rawSide bk sd) /\
                         Js.isFinite (rawPrice l) = Some (price x) /\
                         Js.isFinite (rawSize l) = Some (size x) /\
                         0 < price x /\ 0 < size x) /\
    StronglySorted (fun a b => match sd with
                               | buy => price a <= price b
                               | sell => price b <= price a
                               end) (sortedLevels bk sd).
Proof.
  intros bk sd. split; [|split].
  - unfold sortedLevels. apply sort_Permutation.
  - intro x. unfold sortedLevels. rewrite sort_In, filterLevels_In_iff.
    split; intros [l [Hin H]]; exists l; (split; [exact Hin|]);
      apply keepLevel_iff; exact H.
  - apply Sorted_StronglySorted; [|apply sortedLevels_best_first].
    intros a b c Hab Hbc. destruct sd; lra.
Qed.

End SortedLevelsMore.

(** ** [slippageForNotional] *)

Section SlippageMore.

Import Catalog.

Local Open Scope Q_scope.

Lemma abs_of_nonneg (x : Q) : 0 <= x -> Js.abs x = x.
Proof. intro H. unfold Js.abs. apply leb_true in H. rewrite H. reflexivity. Qed.


Lemma truthy_some (x : option Q) (q : Q) :
  truthy x = Some q <-> x = Some q /\ ~ q == 0.
Proof.
  unfold truthy. destruct x as [p|]; [|split; [discriminate|intros [H _]; discriminate]].
  destruct (Qeq_bool p 0) eqn:E.
  - apply Qeq_bool_iff in E. split; [discriminate|].
    intros [H Hn]. injection H as ->. contradiction.
  - split.
    + intro H. injection H as <-. split; [reflexivity|].
      intro Hq. apply Qeq_bool_iff in Hq. congruence.
    + intros [H _]. exact H.
Qed.



End SlippageMore.

(** ** The head of a sorted array *)

Section SortHead.

Variable A : Type.
Variable before : A -> A -> bool.
Hypothesis before_total : forall x y, before x y = false -> before y x = true.
Hypothesis before_trans :
  forall x y z, before x y = true -> before y z = true -> before x z = true.

(** After [sort], the first element is in front of every other one. *)
Lemma sort_head_first (l : list A) (x : A) (tl : list A) :
  Js.sort before l = x :: tl ->
  In x l /\ forall y, In y l -> y = x \/ before x y = true.
Proof.
  intro E.
  assert (Hs : StronglySorted (fun a b => before a b = true) (Js.sort before l)).
  { apply Sorted_StronglySorted.
    - intros a b c. apply before_trans.
    - apply sort_Sorted. exact before_total. }
  rewrite E in Hs. inversion Hs as [|? ? _ Hall]; subst.
  split.
  - apply (sort_In A before). rewrite E. left. reflexivity.
  - intros y Hy. apply (sort_In A before) in Hy. rewrite E in Hy.
    destruct Hy as [<-|Hy]; [left; reflexivity|right].
    rewrite Forall_forall in Hall. exact (Hall y Hy).
Qed.

End SortHead.

(** ** [pickTokenByMove] *)

Section PickMore.

Import Engine.

Local Open Scope Q_scope.

(** X6.  [pickTokenByMove] answers [null] only for an empty array; otherwise
    it returns a token of the array whose move is at least as large, in
    absolute value, as that of every other token.  Of two tokens the
    first wins unless the second moved strictly more. *)
Theorem pickTokenByMove_largest_move :
  forall tokens : list tokenView,
    (pickTokenByMove tokens = None <-> tokens = []) /\
    (forall x, pickTokenByMove tokens = Some x ->
               In x tokens /\
               forall y, In y tokens -> absMoveOf y <= absMoveOf x) /\
    (forall a b, tokens = [a; b] ->
                 pickTokenByMove tokens
                 = Some (if Js.leb (absMoveOf b) (absMoveOf a) then a else b)).
Proof.
  intro tokens. unfold pickTokenByMove.
  set (bf := fun x y : tokenView => Js.leb (absMoveOf y) (absMoveOf x)).
  split; [|split].
  - split.
    + intro H. destruct (Js.sort bf tokens) eqn:E; [|discriminate].
      exact (sort_nil_inv _ bf tokens E).
    + intros ->. reflexivity.
  - intros x H. destruct (Js.sort bf tokens) as [|x' tl] eqn:E; [discriminate|].
    injection H as ->.
    destruct (sort_head_first _ bf) with (l := tokens) (x := x) (tl := tl)
      as [Hin Hall]; [| |exact E|].
    + intros u v Huv. unfold bf in *. apply leb_false in Huv. apply leb_true. lra.
    + intros u v w Huv Hvw. unfold bf in *.
      apply leb_true in Huv. apply leb_true in Hvw. apply leb_true. lra.
    + split; [exact Hin|]. intros y Hy.
      destruct (Hall y Hy) as [->|Hb]; [lra|].
      unfold bf in Hb. apply leb_true in Hb. exact Hb.
  - intros a b ->. simpl. unfold bf. destruct (Js.leb (absMoveOf b) (absMoveOf a));
      reflexivity.
Qed.

Lemma pickTokenByMove_largest_move_witness :
  exists x,
    pickTokenByMove Examples.twoViews = Some x /\
    In x Examples.twoViews /\
    forall y, In y Examples.twoViews -> absMoveOf y <= absMoveOf x.
Proof.
  destruct (pickTokenByMove Examples.twoViews) as [x|] eqn:E;
    [|vm_compute in E; discriminate].
  exists x. split; [reflexivity|].
  exact (proj1 (proj2 (pickTokenByMove_largest_move Examples.twoViews)) x E).
Defined.

End PickMore.

(** ** The live scanner: what it returns, what it asks for *)

Section LiveScanMore.

Import Catalog Engine.

Local Open Scope Q_scope.

Lemma pick_of_two (a b x : tokenView) :
  pickTokenByMove [a; b] = Some x -> x = a \/ x = b.
Proof.
  unfold pickTokenByMove. simpl.
  destruct (Js.leb (absMoveOf b) (absMoveOf a)); simpl; intro H; injection H as <-; auto.
Qed.

(** One market adds at most one opportunity, and a sound one. *)
Lemma scanMarket_scored_sound (f : fetcher) (sn : snapshots) (cfg : config)
    (markets : list Catalog.market) (acc : scanAcc) (m : Catalog.market) :
  In m markets -> passesFilters cfg m = true ->
  Forall (Invariants.soundOpportunity f sn cfg markets) (scored acc) ->
  Forall (Invariants.soundOpportunity f sn cfg markets)
         (scored (scanMarket f sn cfg acc m)).
Proof.
  intros Hin Hpass Hacc. unfold scanMarket.
  destruct (clobTokenIds m) as [|tA [|tB rest]] eqn:Et; try exact Hacc.
  destruct (f tA) as [bookA|] eqn:EA; [|exact Hacc].
  destruct (f tB) as [bookB|] eqn:EB; [|exact Hacc].
  destruct (bestBid (bestBidAsk bookA)) as [bidA|] eqn:E1; [|exact Hacc].
  destruct (bestAsk (bestBidAsk bookA)) as [askA|] eqn:E2; [|exact Hacc].
  destruct (bestBid (bestBidAsk bookB)) as [bidB|] eqn:E3; [|exact Hacc].
  destruct (bestAsk (bestBidAsk bookB)) as [askB|] eqn:E4; [|exact Hacc].
  cbv zeta.
  destruct (_ && _); [exact Hacc|].
  destruct (pickTokenByMove _) as [best|] eqn:Ep; [|exact Hacc].
  destruct (Js.ltb _ _) eqn:Emove; [exact Hacc|].
  destruct (Js.gtb _ _) eqn:Espread; [exact Hacc|].
  destruct (marketFill _ _ _) as [e|] eqn:Efill; [|exact Hacc].
  cbn [scored]. apply Forall_app. split; [exact Hacc|].
  constructor; [|constructor].
  apply ltb_false in Emove. apply gtb_false in Espread.
  unfold Invariants.soundOpportunity.
  cbn [market chosen tokenId chBid chAsk chMid chSpread chPrevMid chMove entry].
  split; [exact Hin|]. split; [exact Hpass|].
  rewrite Et.
  apply pick_of_two in Ep. destruct Ep as [->| ->];
    cbn [tvTokenId tvMid tvPrevMid tvSpread tvBook] in *.
  - rewrite String.eqb_refl.
    split; [left; reflexivity|].
    exists bookA. repeat split; try assumption; try reflexivity.
  - split; [right; left; reflexivity|].
    exists bookB.
    destruct (String.eqb_spec tB tA) as [Heq|Hne].
    + subst tB. rewrite EA in EB. injection EB as <-.
      rewrite E1 in E3. injection E3 as <-.
      rewrite E2 in E4. injection E4 as <-.
      repeat split; try assumption; try reflexivity.
    + repeat split; try assumption; try reflexivity.
Qed.

Lemma fold_scored_sound (f : fetcher) (sn : snapshots) (cfg : config)
    (markets ms : list Catalog.market) :
  (forall m, In m ms -> In m markets /\ passesFilters cfg m = true) ->
  forall acc,
    Forall (Invariants.soundOpportunity f sn cfg markets) (scored acc) ->
    Forall (Invariants.soundOpportunity f sn cfg markets)
           (scored (fold_left (scanMarket f sn cfg) ms acc)).
Proof.
  induction ms as [|m ms IH]; intros Hms acc Hacc; simpl; [exact Hacc|].
  apply IH; [intros m' Hm'; apply Hms; right; exact Hm'|].
  destruct (Hms m (or_introl eq_refl)) as [Hin Hpass].
  apply scanMarket_scored_sound; assumption.
Qed.

Lemma candidates_pass (cfg : config) (markets : list Catalog.market) (m : Catalog.market) :
  In m (candidates cfg markets) -> In m markets /\ passesFilters cfg m = true.
Proof.
  unfold candidates. intro H. apply firstn_In_inv in H.
  apply filter_In in H. exact H.
Qed.

Lemma best_is_sound (f : fetcher) (sn : snapshots) (cfg : config)
    (markets : list Catalog.market) (op : opportunity) :
  best (findOpportunity f sn cfg markets) = Some op ->
  Invariants.soundOpportunity f sn cfg markets op.
Proof.
  unfold findOpportunity. cbn [best]. intro H.
  set (acc := fold_left (scanMarket f sn cfg) (candidates cfg markets)
                {| requested := []; snapshotUpdates := []; scored := [] |}) in *.
  assert (Hall : Forall (Invariants.soundOpportunity f sn cfg markets) (scored acc)).
  { apply fold_scored_sound; [apply candidates_pass|constructor]. }
  destruct (Js.sort scoreBefore (scored acc)) as [|x tl] eqn:E; [discriminate|].
  injection H as ->.
  rewrite Forall_forall in Hall. apply Hall.
  apply (sort_In _ scoreBefore). rewrite E. left. reflexivity.
Qed.

(** X7.  For a command line all of whose numbers are finite: whatever
    [findOpportunity] returns as best passed every filter under the
    configuration [parseArgs] gives.  Its market is a listed market that
    passed the eligibility chain, its token is one of the market's first
    two, bid and ask are those of the token's fetched book, the recorded
    spread is within [maxSpread], the recorded move is at least [minMove],
    the previous mid is the one of the snapshot (the present mid without
    one), and the entry is the buy fill of that book at the configured
    notional. *)
Theorem findOpportunity_best_passed_filters :
  forall (Number : option string -> Js.number) (argv : list string)
         (cfg : config) (f : fetcher) (sn : snapshots)
         (markets : list Catalog.market) (op : opportunity),
    MonitorCli.finiteConfig (MonitorCli.parseArgs Number argv) = Some cfg ->
    best (findOpportunity f sn cfg markets) = Some op ->
    Invariants.soundOpportunity f sn cfg markets op.
Proof.
  intros Number argv cfg f sn markets op _. apply best_is_sound.
Qed.

Lemma findOpportunity_best_passed_filters_witness :
  exists cfg op,
    MonitorCli.finiteConfig
      (MonitorCli.parseArgs Examples.numberOf ["--minMove"; "0.05"]%string)
    = Some cfg /\
    best (findOpportunity Examples.movedFetch Examples.movedSnapshots
            cfg [Examples.busyMarket]) = Some op /\
    chSpread (chosen op) <= maxSpread cfg /\
    minMove cfg <= Js.abs (chMove (chosen op)).
Proof.
  destruct (MonitorCli.finiteConfig
              (MonitorCli.parseArgs Examples.numberOf ["--minMove"; "0.05"]%string))
    as [cfg|] eqn:Ec; [|vm_compute in Ec; discriminate].
  exists cfg.
  destruct (best (findOpportunity Examples.movedFetch Examples.movedSnapshots
                    cfg [Examples.busyMarket])) as [op|] eqn:E.
  - exists op. split; [reflexivity|]. split; [reflexivity|].
    destruct (findOpportunity_best_passed_filters Examples.numberOf
                ["--minMove"; "0.05"]%string cfg _ _ _ op Ec E)
      as [_ [_ [_ [bk [_ [_ [_ [Hs [_ [Hm _]]]]]]]]]].
    split; assumption.
  - exfalso. revert E. vm_compute in Ec. injection Ec as <-.
    lazy -[Score.engineScore Q2R]. discriminate.
Defined.

End LiveScanMore.

(** ** No move, no opportunity *)

Section IdleScan.

Import Catalog Engine Monitor.

Local Open Scope Q_scope.

Lemma abs_of_zero (x : Q) : x == 0 -> Js.abs x == 0.
Proof. intro H. rewrite abs_of_nonneg by lra. exact H. Qed.

(** A market whose two tokens sit where their snapshots left them adds
    nothing to [scored]. *)
Lemma scanMarket_idle (f : fetcher) (sn : Catalog.snapshots) (cfg : config)
    (acc : scanAcc) (m : Catalog.market) :
  0 < minMove cfg ->
  (forall tok, Invariants.observed f m tok -> Invariants.currentAt f sn tok) ->
  scored (scanMarket f sn cfg acc m) = scored acc.
Proof.
  intros Hmin Hcur. unfold scanMarket.
  destruct (clobTokenIds m) as [|tA [|tB rest]] eqn:Et; try reflexivity.
  destruct (f tA) as [bookA|] eqn:EA; [|reflexivity].
  destruct (f tB) as [bookB|] eqn:EB; [|reflexivity].
  destruct (bestBid (bestBidAsk bookA)) as [bidA|] eqn:E1; [|reflexivity].
  destruct (bestAsk (bestBidAsk bookA)) as [askA|] eqn:E2; [|reflexivity].
  destruct (bestBid (bestBidAsk bookB)) as [bidB|] eqn:E3; [|reflexivity].
  destruct (bestAsk (bestBidAsk bookB)) as [askB|] eqn:E4; [|reflexivity].
  cbv zeta.
  assert (HqA : Invariants.quoted f tA) by (exists bookA, bidA, askA; auto).
  assert (HqB : Invariants.quoted f tB) by (exists bookB, bidB, askB; auto).
  assert (HcA : Invariants.currentAt f sn tA).
  { apply Hcur. exists tA, tB, rest. auto. }
  assert (HcB : Invariants.currentAt f sn tB).
  { apply Hcur. exists tA, tB, rest. auto. }
  destruct (_ && _); [reflexivity|].
  destruct (pickTokenByMove _) as [best|] eqn:Ep; [|reflexivity].
  destruct (Js.ltb _ _) eqn:Emove; [reflexivity|].
  exfalso. apply ltb_false in Emove.
  assert (Hzero : tvMid best - tvPrevMid best == 0).
  { apply pick_of_two in Ep. destruct Ep as [-> | ->]; cbn [tvMid tvPrevMid].
    - destruct (byToken sn tA) as [e|] eqn:Es; [|ring].
      rewrite (HcA e bookA bidA askA Es EA E1 E2). ring.
    - destruct (byToken sn tB) as [e|] eqn:Es; [|ring].
      rewrite (HcB e bookB bidB askB Es EB E3 E4). ring. }
  pose proof (abs_of_zero _ Hzero). lra.
Qed.

Lemma fold_idle (f : fetcher) (sn : Catalog.snapshots) (cfg : config)
    (ms : list Catalog.market) :
  0 < minMove cfg ->
  (forall m tok, In m ms -> Invariants.observed f m tok ->
                 Invariants.currentAt f sn tok) ->
  forall acc, scored (fold_left (scanMarket f sn cfg) ms acc) = scored acc.
Proof.
  intro Hmin. induction ms as [|m ms IH]; intros Hcur acc; simpl; [reflexivity|].
  rewrite IH by (intros m' tok Hm'; apply Hcur; right; exact Hm').
  apply scanMarket_idle; [exact Hmin|].
  intros tok. apply Hcur. left. reflexivity.
Qed.

Lemma idle_scan_finds_nothing (f : fetcher) (sn : Catalog.snapshots) (cfg : config)
    (markets : list Catalog.market) :
  0 < minMove cfg ->
  (forall m tok, In m (candidates cfg markets) -> Invariants.observed f m tok ->
                 Invariants.currentAt f sn tok) ->
  best (findOpportunity f sn cfg markets) = None.
Proof.
  intros Hmin Hcur. unfold findOpportunity. cbn [best].
  rewrite (fold_idle f sn cfg (candidates cfg markets) Hmin Hcur). reflexivity.
Qed.

(** X8.  With a positive [minMove], [findOpportunity] returns no opportunity
    when every token it gets to compare still has the mid its snapshot
    holds; in particular when there are no snapshots at all, as on the
    first scan of a fresh state. *)
Theorem findOpportunity_needs_a_move :
  forall (f : fetcher) (sn : Catalog.snapshots) (cfg : config)
         (markets : list Catalog.market),
    0 < minMove cfg ->
    ((forall m tok, In m (candidates cfg markets) -> Invariants.observed f m tok ->
                    Invariants.currentAt f sn tok) ->
     best (findOpportunity f sn cfg markets) = None) /\
    ((forall tok, byToken sn tok = None) ->
     best (findOpportunity f sn cfg markets) = None).
Proof.
  intros f sn cfg markets Hmin. split.
  - apply idle_scan_finds_nothing. exact Hmin.
  - intro Hnone. apply idle_scan_finds_nothing; [exact Hmin|].
    intros m tok _ _ e bk b a He. rewrite Hnone in He. discriminate.
Qed.

Lemma findOpportunity_needs_a_move_witness :
  0 < minMove defaultConfig /\
  best (findOpportunity Examples.movedFetch Examples.noSnapshots defaultConfig
          [Examples.busyMarket]) = None.
Proof.
  assert (H : 0 < minMove defaultConfig) by (vm_compute; reflexivity).
  split; [exact H|].
  apply (proj2 (findOpportunity_needs_a_move Examples.movedFetch Examples.noSnapshots
                  defaultConfig [Examples.busyMarket] H)).
  intro tok. reflexivity.
Defined.

(** Every update pushed carries the quotes of the book served for its
    token. *)
Lemma scanMarket_updates_current (f : fetcher) (sn : Catalog.snapshots) (cfg : config)
    (acc : scanAcc) (m : Catalog.market) :
  let ok := fun u => exists bk, f (uTokenId u) = Some bk /\
                       bestBid (bestBidAsk bk) = Some (uBid u) /\
                       bestAsk (bestBidAsk bk) = Some (uAsk u) /\
                       uMid u = (uBid u + uAsk u) / 2 in
  Forall ok (snapshotUpdates acc) ->
  Forall ok (snapshotUpdates (scanMarket f sn cfg acc m)).
Proof.
  intros ok Hacc. unfold scanMarket.
  destruct (clobTokenIds m) as [|tA [|tB rest]]; try exact Hacc.
  destruct (f tA) as [bookA|] eqn:EA; [|exact Hacc].
  destruct (f tB) as [bookB|] eqn:EB; [|exact Hacc].
  destruct (bestBid (bestBidAsk bookA)) as [bidA|] eqn:E1; [|exact Hacc].
  destruct (bestAsk (bestBidAsk bookA)) as [askA|] eqn:E2; [|exact Hacc].
  destruct (bestBid (bestBidAsk bookB)) as [bidB|] eqn:E3; [|exact Hacc].
  destruct (bestAsk (bestBidAsk bookB)) as [askB|] eqn:E4; [|exact Hacc].
  cbv zeta.
  assert (Hgoal : Forall ok (snapshotUpdates acc ++
            [{| uTokenId := tA; uMid := (bidA + askA) / 2; uBid := bidA; uAsk := askA |};
             {| uTokenId := tB; uMid := (bidB + askB) / 2; uBid := bidB; uAsk := askB |}])).
  { apply Forall_app. split; [exact Hacc|].
    constructor; [exists bookA; cbn; auto|].
    constructor; [exists bookB; cbn; auto|constructor]. }
  destruct (_ && _); [exact Hgoal|].
  destruct (pickTokenByMove _) as [best|]; [|exact Hgoal].
  destruct (Js.ltb _ _); [exact Hgoal|].
  destruct (Js.gtb _ _); [exact Hgoal|].
  destruct (marketFill _ _ _); exact Hgoal.
Qed.

Lemma findOpportunity_updates_current (f : fetcher) (sn : Catalog.snapshots)
    (cfg : config) (markets : list Catalog.market) (u : update) :
  In u (updates (findOpportunity f sn cfg markets)) ->
  exists bk, f (uTokenId u) = Some bk /\
             bestBid (bestBidAsk bk) = Some (uBid u) /\
             bestAsk (bestBidAsk bk) = Some (uAsk u) /\
             uMid u = (uBid u + uAsk u) / 2.
Proof.
  unfold findOpportunity. cbn [updates].
  assert (H : forall ms acc,
    Forall (fun u => exists bk, f (uTokenId u) = Some bk /\
                       bestBid (bestBidAsk bk) = Some (uBid u) /\
                       bestAsk (bestBidAsk bk) = Some (uAsk u) /\
                       uMid u = (uBid u + uAsk u) / 2) (snapshotUpdates acc) ->
    Forall (fun u => exists bk, f (uTokenId u) = Some bk /\
                       bestBid (bestBidAsk bk) = Some (uBid u) /\
                       bestAsk (bestBidAsk bk) = Some (uAsk u) /\
                       uMid u = (uBid u + uAsk u) / 2)
           (snapshotUpdates (fold_left (scanMarket f sn cfg) ms acc))).
  { induction ms as [|m ms IH]; intros acc Hacc; simpl; [exact Hacc|].
    apply IH. apply (scanMarket_updates_current f sn cfg acc m). exact Hacc. }
  intro Hin.
  specialize (H (candidates cfg markets)
                {| requested := []; snapshotUpdates := []; scored := [] |}
                (Forall_nil _)).
  rewrite Forall_forall in H. exact (H u Hin).
Qed.

(** After the loop over the updates, a token holds the entry of the last
    update that names it. *)
Lemma applyUpdates_lookup (at_ : Z) (us : list update) (tok : string) :
  forall g,
    (forall u, In u us -> uTokenId u <> tok) /\ applyUpdates at_ us g tok = g tok \/
    exists u, In u us /\ uTokenId u = tok /\
              applyUpdates at_ us g tok
              = Some {| mid := uMid u; bid := uBid u; ask := uAsk u; t := at_ |}.
Proof.
  unfold applyUpdates.
  induction us as [|u0 us IH]; intro g; simpl.
  - left. split; [intros u []|reflexivity].
  - destruct (IH (setToken (uTokenId u0)
                    {| mid := uMid u0; bid := uBid u0; ask := uAsk u0; t := at_ |} g))
      as [[Hnone Hsame]|[u [Hin [Htok Hval]]]].
    + rewrite Hsame. unfold setToken.
      destruct (String.eqb_spec (uTokenId u0) tok) as [Heq|Hne].
      * right. exists u0. split; [left; reflexivity|]. split; [exact Heq|reflexivity].
      * left. split; [|reflexivity].
        intros u [<-|Hu]; [exact Hne|exact (Hnone u Hu)].
    + right. exists u. split; [right; exact Hin|]. split; assumption.
Qed.

(** Scanning again right after a scan, over the same catalog and books,
    finds nothing: the snapshots just written hold the mids just read. *)
Lemma rescan_finds_nothing (f : fetcher) (sn : Catalog.snapshots) (cfg : config)
    (markets : list Catalog.market) (at_ : Z) :
  0 < minMove cfg ->
  best (findOpportunity f
          {| byToken := applyUpdates at_ (updates (findOpportunity f sn cfg markets))
                          (byToken sn);
             snapT := at_ |} cfg markets) = None.
Proof.
  intro Hmin. apply idle_scan_finds_nothing; [exact Hmin|].
  intros m tok Hm [tA [tB [rest [Ht [[bkA [bA [aA [FA [BA AA]]]]]
                                       [[bkB [bB [aB [FB [BB AB]]]]] Htok]]]]]].
  destruct (findOpportunity_updates_observed f sn cfg markets m tA tB rest
              bkA bkB bA aA bB aB Hm Ht FA FB BA AA BB AB) as [HuA HuB].
  intros e bk b a He Hf Hb Ha. cbn [byToken] in He.
  destruct (applyUpdates_lookup at_ (updates (findOpportunity f sn cfg markets)) tok
              (byToken sn)) as [[Hnone _]|[u [Hin [Hu Hval]]]].
  - exfalso. destruct Htok as [-> | ->].
    + exact (Hnone _ HuA eq_refl).
    + exact (Hnone _ HuB eq_refl).
  - rewrite Hval in He. injection He as <-. cbn [mid].
    destruct (findOpportunity_updates_current f sn cfg markets u Hin)
      as [bk' [Hf' [Hb' [Ha' Hmid]]]].
    rewrite Hu in Hf'. rewrite Hf in Hf'. injection Hf' as <-.
    assert (Eb : uBid u = b) by congruence.
    assert (Ea : uAsk u = a) by congruence.
    rewrite Hmid, Eb, Ea. reflexivity.
Qed.

(** X9.  Two passes in a row over the same catalog and the same books, the
    first starting without a position: the second pass opens nothing.
    Either the first pass opened a position, which the second only
    monitors, or it wrote the mids it saw to the snapshots and the second
    measures no move. *)
Theorem second_pass_over_same_books_opens_nothing :
  forall (cfg : config) (tk1 tk2 : tick) (d d1 d2 : store),
    0 < minMove cfg ->
    persistedOpen d = None ->
    catalog tk2 = catalog tk1 ->
    fetch tk2 = fetch tk1 ->
    cycle cfg tk1 d = Some d1 ->
    cycle cfg tk2 d1 = Some d2 ->
    openEvents d2 = openEvents d1.
Proof.
  intros cfg tk1 tk2 d d1 d2 Hmin Hopen Hcat Hfetch H1 H2.
  unfold cycle in H1. rewrite readState_open, Hopen in H1.
  unfold scanBranch in H1.
  destruct (catalog tk1) as [markets|] eqn:Ec; [|discriminate].
  cbv zeta in H1.
  destruct (best (findOpportunity (fetch tk1) (snapshots (readState tk1 d)) cfg markets))
    as [op|] eqn:Eb; injection H1 as <-.
  - unfold cycle in H2. cbn in H2. injection H2 as <-.
    exact (proj1 (monitorBranch_keeps_single tk2 _ _ _)).
  - unfold cycle in H2. cbn [readState writeState stateFile openPosition] in H2.
    rewrite readState_open, Hopen in H2.
    unfold scanBranch in H2. rewrite Hcat in H2. cbv zeta in H2.
    cbn [snapshots] in H2. rewrite Hfetch in H2.
    pose proof (rescan_finds_nothing (fetch tk1) (snapshots (readState tk1 d)) cfg
                  markets (now tk1) Hmin) as Hre.
    match type of H2 with
    | match ?b with _ => _ end = _ => destruct b as [op2|] eqn:E2
    end.
    + exfalso. pose proof (eq_trans (eq_sym Hre) E2) as Habs. discriminate Habs.
    + injection H2 as <-. reflexivity.
Qed.

(** A pass ends with an error only when the catalog request fails. *)
Lemma cycle_defined (cfg : config) (tk : tick) (d : store) :
  catalog tk <> None -> cycle cfg tk d <> None.
Proof.
  intro Hcat. unfold cycle.
  destruct (openPosition (readState tk d)); [discriminate|].
  unfold scanBranch. destruct (catalog tk); [|congruence].
  cbv zeta. destruct (best _); discriminate.
Qed.

Lemma second_pass_over_same_books_opens_nothing_witness :
  (exists d1 d2,
     cycle defaultConfig Examples.tightTick Examples.freshStore = Some d1 /\
     persistedOpen d1 = None /\
     (exists s1, stateFile d1 = Some s1 /\
                 writtenAt 1000 (byToken (snapshots s1)) "A") /\
     cycle defaultConfig Examples.tightTickLater d1 = Some d2 /\
     openEvents d2 = openEvents d1) /\
  (exists d1 d2 p,
     cycle defaultConfig Examples.movedTick Examples.movedStore = Some d1 /\
     persistedOpen d1 = Some p /\
     cycle defaultConfig Examples.movedTickLater d1 = Some d2 /\
     openEvents d2 = openEvents d1).
Proof.
  assert (Hmin : 0 < minMove defaultConfig) by (vm_compute; reflexivity).
  split.
  - destruct (cycle defaultConfig Examples.tightTick Examples.freshStore)
      as [d1|] eqn:E1; [|exfalso; revert E1; apply cycle_defined; discriminate].
    destruct (cycle defaultConfig Examples.tightTickLater d1) as [d2|] eqn:E2;
      [|exfalso; revert E2; apply cycle_defined; discriminate].
    exists d1, d2. split; [reflexivity|].
    split; [lazy -[Score.engineScore Q2R] in E1; injection E1 as <-; reflexivity|].
    split.
    { lazy -[Score.engineScore Q2R] in E1. injection E1 as <-.
      eexists. split; [reflexivity|]. eexists. split; reflexivity. }
    split; [exact E2|].
    exact (second_pass_over_same_books_opens_nothing defaultConfig Examples.tightTick
             Examples.tightTickLater Examples.freshStore d1 d2 Hmin
             eq_refl eq_refl eq_refl E1 E2).
  - destruct (cycle defaultConfig Examples.movedTick Examples.movedStore)
      as [d1|] eqn:E1; [|exfalso; revert E1; apply cycle_defined; discriminate].
    destruct (cycle defaultConfig Examples.movedTickLater d1) as [d2|] eqn:E2;
      [|exfalso; revert E2; apply cycle_defined; discriminate].
    destruct (persistedOpen d1) as [p|] eqn:Ep.
    + exists d1, d2, p. split; [reflexivity|]. split; [exact Ep|].
      split; [exact E2|].
      exact (second_pass_over_same_books_opens_nothing defaultConfig Examples.movedTick
               Examples.movedTickLater Examples.movedStore d1 d2 Hmin
               eq_refl eq_refl eq_refl E1 E2).
    + exfalso. revert Ep. lazy -[Score.engineScore Q2R] in E1. injection E1 as <-.
      lazy -[Score.engineScore Q2R]. discriminate.
Defined.

End IdleScan.

(** ** The cost of a live scan *)

Section RequestBudget.

Import Catalog Engine.

Lemma scanMarket_lengths (f : fetcher) (sn : snapshots) (cfg : config)
    (acc : scanAcc) (m : Catalog.market) :
  let acc' := scanMarket f sn cfg acc m in
  (List.length (requested acc') = List.length (requested acc) /\
   List.length (snapshotUpdates acc') = List.length (snapshotUpdates acc)) \/
  (List.length (requested acc') = (List.length (requested acc) + 2)%nat /\
   (List.length (snapshotUpdates acc') = List.length (snapshotUpdates acc) \/
    List.length (snapshotUpdates acc') = (List.length (snapshotUpdates acc) + 2)%nat)).
Proof.
  unfold scanMarket.
  destruct (clobTokenIds m) as [|tA [|tB rest]]; try (left; split; reflexivity).
  assert (Hsame : forall us,
    us = snapshotUpdates acc ->
    (List.length (requested acc ++ [tA; tB]) = List.length (requested acc) /\
     List.length us = List.length (snapshotUpdates acc)) \/
    (List.length (requested acc ++ [tA; tB]) = (List.length (requested acc) + 2)%nat /\
     (List.length us = List.length (snapshotUpdates acc) \/
      List.length us = (List.length (snapshotUpdates acc) + 2)%nat))).
  { intros us ->. right. split; [apply length_app|left; reflexivity]. }
  destruct (f tA) as [bookA|]; [|exact (Hsame _ eq_refl)].
  destruct (f tB) as [bookB|]; [|exact (Hsame _ eq_refl)].
  destruct (bestBid (bestBidAsk bookA)) as [bidA|]; [|exact (Hsame _ eq_refl)].
  destruct (bestAsk (bestBidAsk bookA)) as [askA|]; [|exact (Hsame _ eq_refl)].
  destruct (bestBid (bestBidAsk bookB)) as [bidB|]; [|exact (Hsame _ eq_refl)].
  destruct (bestAsk (bestBidAsk bookB)) as [askB|]; [|exact (Hsame _ eq_refl)].
  cbv zeta.
  assert (Hmore : forall us,
    us = snapshotUpdates acc ++
         [{| uTokenId := tA; uMid := (bidA + askA) / 2; uBid := bidA; uAsk := askA |};
          {| uTokenId := tB; uMid := (bidB + askB) / 2; uBid := bidB; uAsk := askB |}] ->
    (List.length (requested acc ++ [tA; tB]) = List.length (requested acc) /\
     List.length us = List.length (snapshotUpdates acc)) \/
    (List.length (requested acc ++ [tA; tB]) = (List.length (requested acc) + 2)%nat /\
     (List.length us = List.length (snapshotUpdates acc) \/
      List.length us = (List.length (snapshotUpdates acc) + 2)%nat))).
  { intros us ->. right. split; [apply length_app|right; apply length_app]. }
  destruct (_ && _); [exact (Hmore _ eq_refl)|].
  destruct (pickTokenByMove _) as [best|]; [|exact (Hmore _ eq_refl)].
  destruct (Js.ltb _ _); [exact (Hmore _ eq_refl)|].
  destruct (Js.gtb _ _); [exact (Hmore _ eq_refl)|].
  destruct (marketFill _ _ _); exact (Hmore _ eq_refl).
Qed.

Lemma fold_lengths (f : fetcher) (sn : snapshots) (cfg : config)
    (ms : list Catalog.market) :
  forall acc,
    exists k : nat,
      (k <= List.length ms)%nat /\
      List.length (requested (fold_left (scanMarket f sn cfg) ms acc))
      = (List.length (requested acc) + 2 * k)%nat /\
      (List.length (snapshotUpdates (fold_left (scanMarket f sn cfg) ms acc))
       <= List.length (snapshotUpdates acc) + 2 * k)%nat.
Proof.
  induction ms as [|m ms IH]; intro acc; simpl.
  - exists 0%nat. lia.
  - destruct (IH (scanMarket f sn cfg acc m)) as [k [Hk [Hr Hu]]].
    destruct (scanMarket_lengths f sn cfg acc m) as [[Er Eu]|[Er Eu]].
    + exists k. lia.
    + exists (S k). lia.
Qed.

(** X10.  A live scan asks for at most 80 books: two for each of at most 40
    candidate markets, always in pairs, and it pushes at most one snapshot
    update for each book it asked for. *)
Theorem live_scan_request_budget :
  forall (f : fetcher) (sn : snapshots) (cfg : config)
         (markets : list Catalog.market),
    exists k : nat,
      (k <= 40)%nat /\ (k <= List.length markets)%nat /\
      List.length (booksRequested (findOpportunity f sn cfg markets)) = (2 * k)%nat /\
      (List.length (updates (findOpportunity f sn cfg markets)) <= 2 * k)%nat.
Proof.
  intros f sn cfg markets. unfold findOpportunity. cbn [booksRequested updates].
  destruct (fold_lengths f sn cfg (candidates cfg markets)
              {| requested := []; snapshotUpdates := []; scored := [] |})
    as [k [Hk [Hr Hu]]].
  exists k. cbn [requested snapshotUpdates List.length] in Hr, Hu.
  assert (H40 : (List.length (candidates cfg markets) <= 40)%nat).
  { unfold candidates. apply firstn_le_length. }
  assert (Hm : (List.length (candidates cfg markets) <= List.length markets)%nat).
  { unfold candidates. rewrite length_firstn.
    pose proof (filter_length_le (passesFilters cfg) markets). lia. }
  repeat split; lia.
Qed.

End RequestBudget.

(** ** The single-shot report: what it ranks and what it saves *)

Section ReportMore.

Import Catalog.

Local Open Scope Q_scope.

Lemma Sorted_firstn (A : Type) (R : A -> A -> Prop) (n : nat) :
  forall l, Sorted R l -> Sorted R (firstn n l).
Proof.
  induction n as [|n IH]; intros l Hs; simpl; [constructor|].
  destruct l as [|x l]; [constructor|].
  inversion Hs as [|? ? Hs' Hhd]; subst.
  constructor; [exact (IH l Hs')|].
  destruct l as [|y l]; simpl.
  - destruct n; constructor.
  - destruct n; simpl; constructor. inversion Hhd; assumption.
Qed.

(** What the inner loop records about a candidate token. *)
Lemma tokenLoop_candidates (f : fetcher) (toks : list string) :
  forall i prs c,
    In c (snd (Scan.tokenLoop f i toks prs)) ->
    In (Scan.token c) toks /\
    f (Scan.token c) = Some (Scan.tcBook c) /\
    truthy (bestBid (bestBidAsk (Scan.tcBook c))) = Some (Scan.tcBid c) /\
    truthy (bestAsk (bestBidAsk (Scan.tcBook c))) = Some (Scan.tcAsk c) /\
    Scan.tcMid c = (Scan.tcBid c + Scan.tcAsk c) / 2 /\
    Scan.tcSpread c = Scan.tcAsk c - Scan.tcBid c /\
    Scan.err c = Js.abs (Scan.tcMid c - Scan.refPrice c).
Proof.
  induction toks as [|t0 toks IH]; intros i prs c; cbn [Scan.tokenLoop]; [intros []|].
  destruct prs as [|pr prs]; [intros []|].
  cbv zeta.
  assert (Hrest : In c (snd (Scan.tokenLoop f (S i) toks prs)) ->
                  In (Scan.token c) (t0 :: toks) /\
                  f (Scan.token c) = Some (Scan.tcBook c) /\
                  truthy (bestBid (bestBidAsk (Scan.tcBook c))) = Some (Scan.tcBid c) /\
                  truthy (bestAsk (bestBidAsk (Scan.tcBook c))) = Some (Scan.tcAsk c) /\
                  Scan.tcMid c = (Scan.tcBid c + Scan.tcAsk c) / 2 /\
                  Scan.tcSpread c = Scan.tcAsk c - Scan.tcBid c /\
                  Scan.err c = Js.abs (Scan.tcMid c - Scan.refPrice c)).
  { intro H. destruct (IH _ _ _ H) as [H1 H2]. split; [right; exact H1|exact H2]. }
  destruct (Js.isFinite pr) as [ref|]; [|exact Hrest].
  destruct (f t0) as [bk|] eqn:Ef; [|exact Hrest].
  destruct (truthy (bestBid (bestBidAsk bk))) as [b|] eqn:Eb; [|exact Hrest].
  destruct (truthy (bestAsk (bestBidAsk bk))) as [a|] eqn:Ea; [|exact Hrest].
  cbn [snd]. intros [<-|H]; [|exact (Hrest H)].
  cbn. repeat split; auto.
Qed.

(** One market adds at most one row, and a sound one whose token is
    written to the snapshot document. *)
Lemma Scan_scanMarket_rows (f : fetcher) (now : Z) (a : Scan.args)
    (markets : list market) (st : Scan.scanState) (m : market) :
  In m markets -> Scan.passesFilters now a m = true ->
  Forall (fun r => Invariants.soundRow f now a markets r /\
                   writtenAt now (byToken (Scan.prev st)) (Scan.rowToken r))
         (Scan.rows st) ->
  Forall (fun r => Invariants.soundRow f now a markets r /\
                   writtenAt now (byToken (Scan.prev (Scan.scanMarket f now a st m)))
                     (Scan.rowToken r))
         (Scan.rows (Scan.scanMarket f now a st m)).
Proof.
  intros Hin Hpass Hst. unfold Scan.scanMarket.
  destruct (Scan.tooFewOutcomes m) eqn:Efew; [exact Hst|].
  destruct (Js.sort _ (snd (Scan.tokenLoop f 0 (clobTokenIds m) (outcomePrices m))))
    as [|chosen others] eqn:Esort; [exact Hst|].
  cbv zeta.
  destruct (Js.gtb (Scan.tcSpread chosen) (Scan.maxSpread a)) eqn:Espread; [exact Hst|].
  destruct (Scan.slippageForNotional (Scan.tcBook chosen) buy (Scan.notional a))
    as [sb|] eqn:Eslip; [|exact Hst].
  cbn [option_map Scan.rows Scan.prev byToken].
  apply gtb_false in Espread.
  destruct (sort_head_first _ (fun x y => Js.leb (Scan.err x) (Scan.err y)))
    with (l := snd (Scan.tokenLoop f 0 (clobTokenIds m) (outcomePrices m)))
         (x := chosen) (tl := others) as [Hc Hmin]; [| |exact Esort|].
  { intros u v Huv. apply leb_false in Huv. apply leb_true. lra. }
  { intros u v w Huv Hvw. apply leb_true in Huv. apply leb_true in Hvw.
    apply leb_true. lra. }
  destruct (tokenLoop_candidates f _ _ _ _ Hc) as [Htok [Hf [Hb [Ha [Hmid [Hsp Herr]]]]]].
  apply truthy_some in Hb. apply truthy_some in Ha.
  apply Forall_app. split.
  - rewrite Forall_forall in *. intros r Hr. destruct (Hst r Hr) as [Hs Hw].
    split; [exact Hs|]. apply setToken_writtenAt. left. exact Hw.
  - constructor; [|constructor]. split.
    + unfold Invariants.soundRow.
      cbn [Scan.rowSpread Scan.rowMarketId Scan.rowToken Scan.rowMid Scan.rowRefPrice
           Scan.rowBid Scan.rowAsk Scan.slipBuy].
      split; [exact Espread|].
      exists m. split; [exact Hin|]. split; [exact Hpass|]. split; [exact Efew|].
      split; [reflexivity|]. split; [exact Htok|]. split.
      * exists chosen. split; [exact Hc|]. split; [reflexivity|].
        split; [reflexivity|]. intros c Hcin.
        destruct (Hmin c Hcin) as [->|Hle]; [lra|].
        apply leb_true in Hle. exact Hle.
      * exists (Scan.tcBook chosen). repeat split; try tauto.
        exists sb. split; [exact Eslip|reflexivity].
    + cbn [Scan.rowToken]. apply setToken_writtenAt. right. reflexivity.
Qed.

Lemma Scan_fold_rows (f : fetcher) (now : Z) (a : Scan.args)
    (markets ms : list market) :
  (forall m, In m ms -> In m markets /\ Scan.passesFilters now a m = true) ->
  forall st,
    Forall (fun r => Invariants.soundRow f now a markets r /\
                     writtenAt now (byToken (Scan.prev st)) (Scan.rowToken r))
           (Scan.rows st) ->
    Forall (fun r => Invariants.soundRow f now a markets r /\
                     writtenAt now
                       (byToken (Scan.prev (fold_left (Scan.scanMarket f now a) ms st)))
                       (Scan.rowToken r))
           (Scan.rows (fold_left (Scan.scanMarket f now a) ms st)).
Proof.
  induction ms as [|m ms IH]; intros Hms st Hst; simpl; [exact Hst|].
  apply IH; [intros m' Hm'; apply Hms; right; exact Hm'|].
  destruct (Hms m (or_introl eq_refl)) as [Hin Hpass].
  apply Scan_scanMarket_rows; assumption.
Qed.

Lemma main_rows (f : fetcher) (now : Z) (a : Scan.args) (prev0 : snapshots)
    (markets : list market) (r : Scan.row) :
  In r (Scan.top (Scan.main f now a prev0 markets)) ->
  Invariants.soundRow f now a markets r /\
  writtenAt now (byToken (Scan.saved (Scan.main f now a prev0 markets)))
    (Scan.rowToken r).
Proof.
  unfold Scan.main. cbn [Scan.top Scan.saved byToken]. intro H.
  apply firstn_In_inv in H. apply (proj1 (sort_In _ Scan.rowBefore _ _)) in H.
  pose proof (Scan_fold_rows f now a markets (Scan.candidates now a markets)) as Hall.
  specialize (Hall (fun m Hm =>
    proj1 (filter_In _ _ _) (firstn_In_inv _ _ _ _ Hm))
    {| Scan.requested := []; Scan.rows := []; Scan.prev := prev0 |} (Forall_nil _)).
  rewrite Forall_forall in Hall. exact (Hall r H).
Qed.

(** X11.  For a command line all of whose numbers are finite and whose
    [maxAlerts] is a whole number that is not negative: the single-shot
    report prints at most [maxAlerts] alerts, and every alert passed the
    filters: it comes from a listed eligible market, its token is the
    candidate of that market whose recorded distance to the reference
    price is least, its bid and ask are the non-zero best quotes of the
    token's book, its recorded spread is within [maxSpread], and a buy of
    the configured notional has a slippage result. *)
Theorem main_alerts_passed_filters :
  forall (Number : option string -> Js.number) (argv : list string)
         (a : Scan.args) (f : fetcher) (now : Z) (prev0 : snapshots)
         (markets : list market),
    ScanCli.finiteArgs (ScanCli.parseArgs Number argv) = Some a ->
    (List.length (Scan.top (Scan.main f now a prev0 markets)) <= Scan.maxAlerts a)%nat /\
    (forall r, In r (Scan.top (Scan.main f now a prev0 markets)) ->
               Invariants.soundRow f now a markets r).
Proof.
  intros Number argv a f now prev0 markets _. split.
  - unfold Scan.main. cbn [Scan.top]. apply firstn_le_length.
  - intros r Hr. exact (proj1 (main_rows f now a prev0 markets r Hr)).
Qed.

(** X12.  Every alert of the report has the snapshot of its token saved with
    the time of the scan, and the saved document carries that time. *)
Theorem main_saves_snapshot_of_each_alert :
  forall (f : fetcher) (now : Z) (a : Scan.args) (prev0 : snapshots)
         (markets : list market) (r : Scan.row),
    In r (Scan.top (Scan.main f now a prev0 markets)) ->
    writtenAt now (byToken (Scan.saved (Scan.main f now a prev0 markets)))
      (Scan.rowToken r) /\
    snapT (Scan.saved (Scan.main f now a prev0 markets)) = now.
Proof.
  intros f now a prev0 markets r Hr.
  split; [exact (proj2 (main_rows f now a prev0 markets r Hr))|reflexivity].
Qed.

Lemma main_alerts_passed_filters_witness :
  exists a r,
    ScanCli.finiteArgs (ScanCli.parseArgs Examples.numberOf []) = Some a /\
    In r (Scan.top (Scan.main Examples.tightFetch 1000 a Examples.noSnapshots
                      [Examples.tightMarket])) /\
    Invariants.soundRow Examples.tightFetch 1000 a [Examples.tightMarket] r.
Proof.
  destruct (ScanCli.finiteArgs (ScanCli.parseArgs Examples.numberOf []))
    as [a|] eqn:Ea; [|vm_compute in Ea; discriminate].
  exists a.
  destruct (Scan.top (Scan.main Examples.tightFetch 1000 a Examples.noSnapshots
                        [Examples.tightMarket])) as [|r tl] eqn:E.
  - exfalso. revert E. vm_compute in Ea. injection Ea as <-.
    lazy -[Score.opportunityScore Q2R]. discriminate.
  - exists r. split; [reflexivity|]. split; [left; reflexivity|].
    apply (proj2 (main_alerts_passed_filters Examples.numberOf [] a
                    Examples.tightFetch 1000 Examples.noSnapshots
                    [Examples.tightMarket] Ea) r).
    rewrite E. left. reflexivity.
Defined.

Lemma main_saves_snapshot_of_each_alert_witness :
  exists r,
    In r (Scan.top Examples.tightReport) /\
    writtenAt 1000 (byToken (Scan.saved Examples.tightReport)) (Scan.rowToken r).
Proof.
  destruct (Scan.top Examples.tightReport) as [|r tl] eqn:E.
  - exfalso. revert E. lazy -[Score.opportunityScore Q2R]. discriminate.
  - exists r. split; [left; reflexivity|].
    apply (main_saves_snapshot_of_each_alert Examples.tightFetch 1000
             Scan.defaultArgs Examples.noSnapshots [Examples.tightMarket] r).
    change (In r (Scan.top Examples.tightReport)). rewrite E. left. reflexivity.
Defined.

End ReportMore.

(** ** The monitor loop: closing, bookkeeping, outages *)

Section MonitorMore.

Import Catalog Engine Monitor.

Local Open Scope Q_scope.

Lemma persistedOpen_state (d : store) (p : position) :
  persistedOpen d = Some p ->
  exists s, stateFile d = Some s /\ openPosition s = Some p /\
            forall tk, readState tk d = s.
Proof.
  unfold persistedOpen, readState. destruct (stateFile d) as [s|]; [|discriminate].
  intro H. exists s. auto.
Qed.

(** Why [shouldExit] answered as it did. *)
Lemma shouldExit_reason (p : position) (mk : mark) (now : Z) (dec : exitDecision) :
  shouldExit p mk now = Some dec ->
  (reason dec = TIME_STOP /\ (exitMaxHoldMs (posExits p) <= now - openedAt p)%Z) \/
  (reason dec = TAKE_PROFIT /\ (now - openedAt p < exitMaxHoldMs (posExits p))%Z /\
   takeProfitPrice (posExits p) <= markBid mk) \/
  (reason dec = STOP_LOSS /\ (now - openedAt p < exitMaxHoldMs (posExits p))%Z /\
   markBid mk < takeProfitPrice (posExits p) /\
   markBid mk <= stopLossPrice (posExits p)).
Proof.
  unfold shouldExit.
  destruct (Z.leb_spec (exitMaxHoldMs (posExits p)) (now - openedAt p)) as [Hold|Hyoung].
  - intro H. injection H as <-. left. auto.
  - destruct (Js.geb _ _) eqn:Etp.
    + intro H. injection H as <-. right. left. apply geb_true in Etp. auto.
    + destruct (Js.leb _ _) eqn:Esl; [|discriminate].
      intro H. injection H as <-. right. right.
      apply geb_false in Etp. apply leb_true in Esl. auto.
Qed.

Lemma last_closed_snoc (l : list closedTrade) (c : closedTrade) :
  option_map closedId (last (map Some (l ++ [c])) None) = Some (closedId c).
Proof. rewrite map_app. simpl. rewrite last_last. reflexivity. Qed.

(** X13.  A position leaves the slot only through a close with a reason
    that holds on the book just read: the hold time is used up, or the
    best bid reached the take-profit price, or it fell to the stop-loss
    price.  In that pass one summary is written, and it names the
    position and the reason. *)
Theorem position_closed_only_for_a_reason :
  forall (cfg : config) (tk : tick) (d d' : store) (p : position),
    persistedOpen d = Some p ->
    cycle cfg tk d = Some d' ->
    persistedOpen d' = None ->
    exists bk b a c,
      fetch tk (posTokenId p) = Some bk /\
      bestBid (bestBidAsk bk) = Some b /\
      bestAsk (bestBidAsk bk) = Some a /\
      closedFiles d' = closedFiles d ++ [c] /\
      closedId c = id p /\
      ((closedReason c = TIME_STOP /\
        (exitMaxHoldMs (posExits p) <= now tk - openedAt p)%Z) \/
       (closedReason c = TAKE_PROFIT /\
        (now tk - openedAt p < exitMaxHoldMs (posExits p))%Z /\
        takeProfitPrice (posExits p) <= b) \/
       (closedReason c = STOP_LOSS /\
        (now tk - openedAt p < exitMaxHoldMs (posExits p))%Z /\
        b < takeProfitPrice (posExits p) /\ b <= stopLossPrice (posExits p))).
Proof.
  intros cfg tk d d' p Hopen Hcycle Hclosed.
  destruct (persistedOpen_state d p Hopen) as [s [Hs [Hp Hread]]].
  unfold cycle in Hcycle. rewrite (Hread tk), Hp in Hcycle. injection Hcycle as <-.
  unfold monitorBranch in *.
  destruct (fetch tk (posTokenId p)) as [bk|] eqn:Ef; [|congruence].
  destruct (bestBid (bestBidAsk bk)) as [b|] eqn:Eb; [|congruence].
  destruct (bestAsk (bestBidAsk bk)) as [a|] eqn:Ea; [|congruence].
  cbv zeta in *.
  destruct (shouldExit _ _ (now tk)) as [dec|] eqn:Ex; [|discriminate Hclosed].
  exists bk, b, a. eexists.
  split; [reflexivity|]. split; [exact Eb|]. split; [exact Ea|].
  split; [reflexivity|]. split; [reflexivity|].
  cbn [closedReason withLastMark].
  exact (shouldExit_reason _ _ _ _ Ex).
Qed.

Lemma position_closed_only_for_a_reason_witness :
  exists d' c,
    cycle defaultConfig Examples.profitTick Examples.holdingStore = Some d' /\
    closedFiles d' = closedFiles Examples.holdingStore ++ [c] /\
    closedId c = id Examples.heldPosition /\
    closedReason c = TAKE_PROFIT.
Proof.
  destruct (cycle defaultConfig Examples.profitTick Examples.holdingStore)
    as [d'|] eqn:E; [|vm_compute in E; discriminate].
  assert (Hclosed : persistedOpen d' = None).
  { injection E as <-. vm_compute. reflexivity. }
  destruct (position_closed_only_for_a_reason defaultConfig Examples.profitTick
              Examples.holdingStore d' Examples.heldPosition eq_refl E Hclosed)
    as [bk [b [a [c [Hf [Hb [_ [Hc [Hid Hwhy]]]]]]]]].
  exists d', c. split; [reflexivity|]. split; [exact Hc|]. split; [exact Hid|].
  destruct Hwhy as [[_ Hage]|[[Hr _]|[_ [_ [Hlt _]]]]]; [|exact Hr|].
  - exfalso. vm_compute in Hage. apply Hage. reflexivity.
  - exfalso. vm_compute in Hf. injection Hf as <-.
    vm_compute in Hb. injection Hb as <-. vm_compute in Hlt. discriminate.
Defined.

(** X14.  Once the hold time is used up, the first pass that reads a bid and
    an ask for the position's token closes the position, whatever the
    prices are: the slot is emptied, the state file names the position as
    last closed, and a summary with reason TIME_STOP is written. *)
Theorem expired_position_is_closed :
  forall (cfg : config) (tk : tick) (d : store) (p : position) (bk : book) (b a : Q),
    persistedOpen d = Some p ->
    fetch tk (posTokenId p) = Some bk ->
    bestBid (bestBidAsk bk) = Some b ->
    bestAsk (bestBidAsk bk) = Some a ->
    (exitMaxHoldMs (posExits p) <= now tk - openedAt p)%Z ->
    exists d' s' c,
      cycle cfg tk d = Some d' /\
      stateFile d' = Some s' /\
      openPosition s' = None /\
      lastClosedId s' = Some (id p) /\
      closedFiles d' = closedFiles d ++ [c] /\
      closedId c = id p /\ closedReason c = TIME_STOP /\
      option_map fst (lastClosedPointer d') = Some (id p).
Proof.
  intros cfg tk d p bk b a Hopen Hf Hb Ha Hage.
  destruct (persistedOpen_state d p Hopen) as [s [Hs [Hp Hread]]].
  unfold cycle. rewrite (Hread tk), Hp.
  unfold monitorBranch. rewrite Hf, Hb, Ha. cbv zeta.
  assert (Hx : forall mk, shouldExit (withLastMark p mk) mk (now tk)
                          = Some {| reason := TIME_STOP; exitAt := now tk |}).
  { intro mk. unfold shouldExit. cbn [withLastMark posExits openedAt].
    destruct (Z.leb_spec (exitMaxHoldMs (posExits p)) (now tk - openedAt p));
      [reflexivity|lia]. }
  rewrite Hx.
  eexists. eexists. eexists.
  split; [reflexivity|]. repeat split.
Qed.

Lemma expired_position_is_closed_witness :
  exists d' c,
    cycle defaultConfig Examples.lateTick Examples.holdingStore = Some d' /\
    closedFiles d' = closedFiles Examples.holdingStore ++ [c] /\
    closedReason c = TIME_STOP.
Proof.
  destruct (expired_position_is_closed defaultConfig Examples.lateTick
              Examples.holdingStore Examples.heldPosition
              {| bids := [Examples.lvl 0.40 1000]; asks := [Examples.lvl 0.41 1000] |}
              0.40 0.41 eq_refl eq_refl eq_refl eq_refl)
    as [d' [s' [c [H1 [_ [_ [_ [H2 [_ [H3 _]]]]]]]]]].
  - vm_compute. discriminate.
  - exists d', c. split; [exact H1|]. split; assumption.
Defined.

End MonitorMore.

(** ** The monitor loop: what accumulates on disk *)

Section LedgerMore.

Import Catalog Engine Monitor.

Local Open Scope Q_scope.

(** One pass only adds to the trade log and to the summaries. *)
Lemma cycle_appends (cfg : config) (tk : tick) (d d' : store) :
  cycle cfg tk d = Some d' ->
  (exists more, tradeLog d' = tradeLog d ++ more) /\
  (exists more, closedFiles d' = closedFiles d ++ more).
Proof.
  unfold cycle.
  destruct (openPosition (readState tk d)) as [p|].
  - intro H. injection H as <-. unfold monitorBranch.
    destruct (fetch tk (posTokenId p)) as [bk|];
      [|split; exists []; rewrite app_nil_r; reflexivity].
    destruct (bestBid (bestBidAsk bk)) as [b|];
      [|split; exists []; rewrite app_nil_r; reflexivity].
    destruct (bestAsk (bestBidAsk bk)) as [a|];
      [|split; exists []; rewrite app_nil_r; reflexivity].
    cbv zeta. destruct (shouldExit _ _ (now tk)) as [dec|].
    + split; eexists.
      * cbn [tradeLog writeState writeClosedSummary appendTradeLog].
        rewrite <- app_assoc. reflexivity.
      * cbn [closedFiles writeState writeClosedSummary appendTradeLog]. reflexivity.
    + split.
      * eexists. cbn [tradeLog writeState appendTradeLog]. reflexivity.
      * exists []. rewrite app_nil_r. reflexivity.
  - unfold scanBranch. destruct (catalog tk) as [markets|]; [|discriminate].
    cbv zeta. destruct (best _) as [op|]; intro H; injection H as <-.
    + split.
      * eexists. cbn [tradeLog writeState appendTradeLog]. reflexivity.
      * exists []. rewrite app_nil_r. reflexivity.
    + split; exists []; rewrite app_nil_r; reflexivity.
Qed.

(** X15.  The trade log and the closed-trade summaries are append-only: over
    any run, what was on disk at the start is still there, in the same
    order, as a prefix of what is there at the end. *)
Theorem run_only_appends :
  forall (cfg : config) (ticks : list tick) (d : store),
    (exists more, tradeLog (run cfg ticks d) = tradeLog d ++ more) /\
    (exists more, closedFiles (run cfg ticks d) = closedFiles d ++ more).
Proof.
  intros cfg ticks. induction ticks as [|tk rest IH]; intro d; simpl.
  - split; exists []; rewrite app_nil_r; reflexivity.
  - destruct (cycle cfg tk d) as [d'|] eqn:E;
      [|split; exists []; rewrite app_nil_r; reflexivity].
    destruct (cycle_appends cfg tk d d' E) as [[m1 H1] [m2 H2]].
    destruct (IH d') as [[n1 K1] [n2 K2]].
    split.
    + exists (m1 ++ n1). rewrite K1, H1, app_assoc. reflexivity.
    + exists (m2 ++ n2). rewrite K2, H2, app_assoc. reflexivity.
Qed.

Lemma cycle_keeps_ledger (cfg : config) (tk : tick) (d d' : store) :
  cycle cfg tk d = Some d' -> Invariants.ledger d -> Invariants.ledger d'.
Proof.
  unfold cycle. intros Hc [Hpairs [Hptr Hstate]].
  destruct (openPosition (readState tk d)) as [p|] eqn:Ep.
  - injection Hc as <-.
    assert (Hsome : exists s, stateFile d = Some s /\ readState tk d = s).
    { unfold readState in *. destruct (stateFile d) as [s|]; [eauto|discriminate]. }
    destruct Hsome as [s [Hs Hread]]. rewrite Hs in Hstate. rewrite Hread.
    unfold monitorBranch.
    assert (Hsame : Invariants.ledger d).
    { unfold Invariants.ledger. rewrite Hs. auto. }
    destruct (fetch tk (posTokenId p)) as [bk|]; [|exact Hsame].
    destruct (bestBid (bestBidAsk bk)) as [b|]; [|exact Hsame].
    destruct (bestAsk (bestBidAsk bk)) as [a|]; [|exact Hsame].
    cbv zeta. destruct (shouldExit _ _ (now tk)) as [dec|].
    + unfold Invariants.ledger, Invariants.lastClosedOf, closeEvents.
      cbn [closedFiles tradeLog lastClosedPointer stateFile lastClosedId
           writeState writeClosedSummary appendTradeLog option_map fst].
      rewrite !filter_app. cbn [filter isCloseEvent snd]. rewrite app_nil_r.
      rewrite last_closed_snoc. cbn [closedId].
      split; [|split; reflexivity].
      apply Forall2_app; [exact Hpairs|].
      constructor; [|constructor].
      unfold Invariants.sameClose. cbn. split; [reflexivity|].
      eexists. reflexivity.
    + unfold Invariants.ledger, Invariants.lastClosedOf, closeEvents.
      cbn [closedFiles tradeLog lastClosedPointer stateFile lastClosedId
           writeState appendTradeLog markAndSnapshot withSnapshots withOpenPosition].
      rewrite filter_app. cbn [filter isCloseEvent snd]. rewrite app_nil_r.
      split; [exact Hpairs|]. split; [exact Hptr|exact Hstate].
  - assert (Hlast : lastClosedId (readState tk d) = Invariants.lastClosedOf d).
    { unfold readState. destruct (stateFile d) as [s|]; [exact Hstate|].
      unfold Invariants.lastClosedOf. rewrite Hstate. reflexivity. }
    unfold scanBranch in Hc. destruct (catalog tk) as [markets|]; [|discriminate].
    cbv zeta in Hc. destruct (best _) as [op|]; injection Hc as <-.
    + unfold Invariants.ledger, Invariants.lastClosedOf, closeEvents in *.
      cbn [closedFiles tradeLog lastClosedPointer stateFile lastClosedId
           writeState appendTradeLog markAndSnapshot withSnapshots withOpenPosition].
      rewrite filter_app. cbn [filter isCloseEvent snd]. rewrite app_nil_r.
      split; [exact Hpairs|]. split; [exact Hptr|exact Hlast].
    + unfold Invariants.ledger, Invariants.lastClosedOf, closeEvents in *.
      cbn [closedFiles tradeLog lastClosedPointer stateFile lastClosedId writeState].
      split; [exact Hpairs|]. split; [exact Hptr|exact Hlast].
Qed.

(** X16.  Over any run the books of closed trades stay in order: there is
    exactly one summary for each CLOSE line, in the same order, with the
    same position, reason, exit price and PnL; and the pointer file and
    the state file both name the trade closed last. *)
Theorem run_keeps_ledger :
  forall (cfg : config) (ticks : list tick) (d : store),
    Invariants.ledger d -> Invariants.ledger (run cfg ticks d).
Proof.
  intros cfg ticks. induction ticks as [|tk rest IH]; intros d Hd; simpl; [exact Hd|].
  destruct (cycle cfg tk d) as [d'|] eqn:E; [|exact Hd].
  apply IH. exact (cycle_keeps_ledger cfg tk d d' E Hd).
Qed.

Lemma run_keeps_ledger_witness :
  Invariants.ledger Examples.holdingStore /\
  Invariants.ledger (run defaultConfig [Examples.profitTick; Examples.outageTick]
                       Examples.holdingStore).
Proof.
  assert (H : Invariants.ledger Examples.holdingStore).
  { unfold Invariants.ledger. split; [constructor|]. split; reflexivity. }
  split; [exact H|].
  exact (run_keeps_ledger defaultConfig [Examples.profitTick; Examples.outageTick]
           Examples.holdingStore H).
Defined.

(** X17.  While a position is open, passes in which its book cannot be fetched
    or shows no bid or no ask leave everything on disk as it was: the
    position is neither marked nor closed, however old it is. *)
Theorem outage_leaves_store_untouched :
  forall (cfg : config) (ticks : list tick) (d : store) (p : position),
    persistedOpen d = Some p ->
    (forall tk, In tk ticks ->
       match fetch tk (posTokenId p) with
       | None => True
       | Some bk => bestBid (bestBidAsk bk) = None \/ bestAsk (bestBidAsk bk) = None
       end) ->
    run cfg ticks d = d.
Proof.
  intros cfg ticks d p Hopen. induction ticks as [|tk rest IH]; intro Hout; simpl;
    [reflexivity|].
  destruct (persistedOpen_state d p Hopen) as [s [Hs [Hp Hread]]].
  assert (Hcycle : cycle cfg tk d = Some d).
  { unfold cycle. rewrite (Hread tk), Hp. f_equal. unfold monitorBranch.
    specialize (Hout tk (or_introl eq_refl)).
    destruct (fetch tk (posTokenId p)) as [bk|]; [|reflexivity].
    destruct Hout as [H|H].
    - rewrite H. reflexivity.
    - destruct (bestBid (bestBidAsk bk)); [|reflexivity]. rewrite H. reflexivity. }
  rewrite Hcycle. apply IH. intros tk' Hin. apply Hout. right. exact Hin.
Qed.

Lemma outage_leaves_store_untouched_witness :
  run defaultConfig [Examples.outageTick; Examples.outageTick] Examples.holdingStore
  = Examples.holdingStore.
Proof.
  apply (outage_leaves_store_untouched defaultConfig
           [Examples.outageTick; Examples.outageTick] Examples.holdingStore
           Examples.heldPosition eq_refl).
  intros tk [<-|[<-|[]]]; exact I.
Defined.



End LedgerMore.

(** ** Exit thresholds of a new position *)

Section ThresholdsMore.

Import Engine.

Local Open Scope Q_scope.

Lemma max_cases (a b : Q) :
  (a <= b /\ Js.max a b = b) \/ (b < a /\ Js.max a b = a).
Proof.
  unfold Js.max. destruct (Js.leb a b) eqn:E.
  - left. split; [apply leb_true; exact E|reflexivity].
  - right. split; [apply leb_false; exact E|reflexivity].
Qed.

(** X19.  The exit prices of a new position, with the arithmetic rounded
    by any monotone rounding that keeps its own results, for a finite
    entry price and offsets that are not negative.  The stop loss is at
    least 0.001 and at most the larger of 0.001 and the entry price; the
    take profit is at most 0.999 and at least the smaller of 0.999 and the
    entry price.  So for an entry price between the two constants the
    stop loss is not above it and the take profit not below it.  In exact
    arithmetic these are the prices [buildPosition] stores. *)
Theorem buildPosition_thresholds_ordered :
  forall (rnd : Q -> Q) (e tpOff slOff : Q),
    Rounded.rounding rnd -> rnd e == e -> 0 <= tpOff -> 0 <= slOff ->
    rnd 0.001 <= Rounded.stopLossPrice rnd e slOff /\
    Rounded.stopLossPrice rnd e slOff <= Js.max (rnd 0.001) e /\
    Js.min (rnd 0.999) e <= Rounded.takeProfitPrice rnd e tpOff /\
    Rounded.takeProfitPrice rnd e tpOff <= rnd 0.999 /\
    (rnd 0.001 <= e -> e <= rnd 0.999 ->
     Rounded.stopLossPrice rnd e slOff <= e /\
     e <= Rounded.takeProfitPrice rnd e tpOff) /\
    (forall (op : opportunity) (cfg : config) (now : Z),
       Utils.avgPrice (entry (chosen op)) = e -> tp cfg = tpOff -> sl cfg = slOff ->
       takeProfitPrice (posExits (buildPosition op cfg now))
       = Rounded.takeProfitPrice (fun x => x) e tpOff /\
       stopLossPrice (posExits (buildPosition op cfg now))
       = Rounded.stopLossPrice (fun x => x) e slOff).
Proof.
  intros rnd e tpOff slOff Hrnd He Htp Hsl.
  assert (Hdown : rnd (e - slOff) <= e).
  { rewrite <- He at 2. apply (rnd_mono rnd Hrnd). lra. }
  assert (Hup : e <= rnd (e + tpOff)).
  { rewrite <- He at 1. apply (rnd_mono rnd Hrnd). lra. }
  unfold Rounded.stopLossPrice, Rounded.takeProfitPrice.
  destruct (max_cases (rnd 0.001) (rnd (e - slOff))) as [[Hm Em]|[Hm Em]];
    destruct (max_cases (rnd 0.001) e) as [[Hm' Em']|[Hm' Em']];
    destruct (min_cases (rnd 0.999) (rnd (e + tpOff))) as [[Hn En]|[Hn En]];
    destruct (min_cases (rnd 0.999) e) as [[Hn' En']|[Hn' En']];
    rewrite Em, Em', En, En';
    (split; [lra|]); (split; [lra|]); (split; [lra|]); (split; [lra|]);
    (split; [intros Hlo Hhi; split; lra|]);
    intros op cfg now <- <- <-; unfold buildPosition; cbv zeta;
    cbn [posExits takeProfitPrice stopLossPrice]; split; reflexivity.
Qed.

Lemma buildPosition_thresholds_ordered_witness :
  Rounded.stopLossPrice Rounded.binary64 0.5 0.02 <= 0.5 /\
  0.5 <= Rounded.takeProfitPrice Rounded.binary64 0.5 0.02.
Proof.
  destruct (buildPosition_thresholds_ordered Rounded.binary64 0.5 0.02 0.02
              binary64_rounding) as [_ [_ [_ [_ [H _]]]]];
    try (vm_compute; first [reflexivity|discriminate]).
  apply H; vm_compute; discriminate.
Defined.

End ThresholdsMore.

(** ** The notifier *)

Section NotifierMore.

Import Engine Monitor.

Lemma sameId_true (x y : positionId) : Notifier.sameId x y = true <-> x = y.
Proof.
  unfold Notifier.sameId. rewrite !andb_true_iff, Z.eqb_eq, !String.eqb_eq.
  destruct x, y; simpl. split.
  - intros [[-> ->] ->]. reflexivity.
  - intro H. injection H as -> -> ->. auto.
Qed.

Lemma closedFile_found (i : positionId) (l : list closedTrade) (c : closedTrade) :
  Notifier.closedFile i l = Some c -> In c l /\ closedId c = i.
Proof.
  induction l as [|x l IH]; simpl; [discriminate|].
  destruct (Notifier.closedFile i l) as [c'|].
  - intro H. injection H as ->. destruct (IH eq_refl) as [Hin Hid]. auto.
  - destruct (Notifier.sameId (closedId x) i) eqn:E; [|discriminate].
    intro H. injection H as <-. apply sameId_true in E. auto.
Qed.

Lemma closedFile_snoc (i : positionId) (l : list closedTrade) (c : closedTrade) :
  closedId c = i -> Notifier.closedFile i (l ++ [c]) = Some c.
Proof.
  intro Hid. induction l as [|x l IH]; simpl.
  - apply sameId_true in Hid. rewrite Hid. reflexivity.
  - rewrite IH. reflexivity.
Qed.

(** X20.  The notifier announces a closed trade once.  What it announces is a
    summary on disk filed under the identifier the pointer file names; it
    leaves the files of the monitor loop alone; and run again on what it
    left behind it stays silent. *)
Theorem notifier_announces_once :
  forall (d d' : Notifier.disk) (c : closedTrade),
    Notifier.main d = Notifier.Announced c d' ->
    In c (closedFiles (Notifier.files d)) /\
    option_map fst (lastClosedPointer (Notifier.files d)) = Some (closedId c) /\
    Notifier.files d' = Notifier.files d /\
    Notifier.notifierLastSeen d' = Some (closedId c) /\
    Notifier.main d' = Notifier.Silent.
Proof.
  intros d d' c. unfold Notifier.main.
  destruct (lastClosedPointer (Notifier.files d)) as [[tradeId at_]|] eqn:Ep;
    [|discriminate].
  cbv zeta.
  destruct (match match stateFile (Notifier.files d) with
                  | Some _ => Notifier.notifierLastSeen d
                  | None => None
                  end with
            | Some x => Notifier.sameId x tradeId
            | None => false
            end); [discriminate|].
  destruct (Notifier.closedFile tradeId (closedFiles (Notifier.files d)))
    as [c0|] eqn:Ec; [|discriminate].
  destruct (stateFile (Notifier.files d)) as [s|] eqn:Es; [|discriminate].
  intro H. injection H as <- <-.
  destruct (closedFile_found tradeId _ c0 Ec) as [Hin Hid].
  cbn [Notifier.files Notifier.notifierLastSeen].
  rewrite Ep, Es. cbn [option_map fst]. subst tradeId.
  repeat split; try assumption.
  assert (Hs : Notifier.sameId (closedId c0) (closedId c0) = true)
    by (apply sameId_true; reflexivity).
  rewrite Hs. reflexivity.
Qed.

Lemma closing_pass_files (cfg : config) (tk : tick) (d d' : store) (p : position) :
  persistedOpen d = Some p ->
  cycle cfg tk d = Some d' ->
  persistedOpen d' = None ->
  exists c s',
    closedFiles d' = closedFiles d ++ [c] /\
    closedId c = id p /\
    lastClosedPointer d' = Some (id p, now tk) /\
    stateFile d' = Some s'.
Proof.
  intros Hopen Hcycle Hclosed.
  destruct (persistedOpen_state d p Hopen) as [s [Hs [Hp Hread]]].
  unfold cycle in Hcycle. rewrite (Hread tk), Hp in Hcycle. injection Hcycle as <-.
  unfold monitorBranch in *.
  destruct (fetch tk (posTokenId p)) as [bk|]; [|congruence].
  destruct (bestBid (bestBidAsk bk)) as [b|]; [|congruence].
  destruct (bestAsk (bestBidAsk bk)) as [a|]; [|congruence].
  cbv zeta in *.
  destruct (shouldExit _ _ (now tk)) as [dec|]; [|discriminate Hclosed].
  eexists. eexists. repeat split.
Qed.

(** X21.  From the monitor loop to the notifier: after the pass that closes a
    position, a notifier that has not yet seen that trade announces the
    summary of exactly that position, the one the pass just wrote, and
    then stays silent. *)
Theorem notifier_announces_the_closed_position :
  forall (cfg : config) (tk : tick) (d d' : store) (p : position)
         (seen : option positionId),
    persistedOpen d = Some p ->
    cycle cfg tk d = Some d' ->
    persistedOpen d' = None ->
    seen <> Some (id p) ->
    exists c after,
      Notifier.main {| Notifier.files := d'; Notifier.notifierLastSeen := seen |}
      = Notifier.Announced c after /\
      closedId c = id p /\
      closedFiles d' = closedFiles d ++ [c] /\
      Notifier.main after = Notifier.Silent.
Proof.
  intros cfg tk d d' p seen Hopen Hcycle Hclosed Hseen.
  destruct (closing_pass_files cfg tk d d' p Hopen Hcycle Hclosed)
    as [c [s' [Hfiles [Hid [Hptr Hs]]]]].
  exists c, {| Notifier.files := d'; Notifier.notifierLastSeen := Some (id p) |}.
  assert (Hmain : Notifier.main {| Notifier.files := d';
                                   Notifier.notifierLastSeen := seen |}
                  = Notifier.Announced c
                      {| Notifier.files := d';
                         Notifier.notifierLastSeen := Some (id p) |}).
  { unfold Notifier.main. cbn [Notifier.files Notifier.notifierLastSeen].
    rewrite Hptr, Hs. cbv zeta.
    assert (Hne : match seen with
                  | Some x => Notifier.sameId x (id p)
                  | None => false
                  end = false).
    { destruct seen as [x|]; [|reflexivity].
      destruct (Notifier.sameId x (id p)) eqn:E; [|reflexivity].
      apply sameId_true in E. subst x. contradiction. }
    rewrite Hne, Hfiles, (closedFile_snoc (id p) (closedFiles d) c Hid). reflexivity. }
  split; [exact Hmain|]. split; [exact Hid|]. split; [exact Hfiles|].
  unfold Notifier.main. cbn [Notifier.files Notifier.notifierLastSeen].
  rewrite Hptr, Hs. cbv zeta.
  assert (Hsame : Notifier.sameId (id p) (id p) = true)
    by (apply sameId_true; reflexivity).
  rewrite Hsame. reflexivity.
Qed.

Lemma notifier_announces_the_closed_position_witness :
  exists d' c after,
    cycle defaultConfig Examples.profitTick Examples.holdingStore = Some d' /\
    Notifier.main {| Notifier.files := d'; Notifier.notifierLastSeen := None |}
    = Notifier.Announced c after /\
    closedId c = id Examples.heldPosition /\
    Notifier.main after = Notifier.Silent.
Proof.
  destruct (cycle defaultConfig Examples.profitTick Examples.holdingStore)
    as [d'|] eqn:E; [|vm_compute in E; discriminate].
  assert (Hclosed : persistedOpen d' = None).
  { injection E as <-. vm_compute. reflexivity. }
  destruct (notifier_announces_the_closed_position defaultConfig Examples.profitTick
              Examples.holdingStore d' Examples.heldPosition None eq_refl E Hclosed)
    as [c [after [H1 [H2 [_ H3]]]]]; [discriminate|].
  exists d', c, after. split; [reflexivity|]. split; [exact H1|]. split; assumption.
Defined.

Lemma notifier_announces_once_witness :
  exists d' c after,
    cycle defaultConfig Examples.profitTick Examples.holdingStore = Some d' /\
    Notifier.main {| Notifier.files := d'; Notifier.notifierLastSeen := None |}
    = Notifier.Announced c after /\
    In c (closedFiles d') /\ Notifier.main after = Notifier.Silent.
Proof.
  destruct (cycle defaultConfig Examples.profitTick Examples.holdingStore)
    as [d'|] eqn:E; [|vm_compute in E; discriminate].
  destruct (Notifier.main {| Notifier.files := d'; Notifier.notifierLastSeen := None |})
    as [|c after|] eqn:En.
  - exfalso. injection E as <-. vm_compute in En. discriminate.
  - exists d', c, after. split; [reflexivity|]. split; [exact En|].
    destruct (notifier_announces_once _ after c En) as [Hin [_ [_ [_ Hs]]]].
    split; assumption.
  - exfalso. injection E as <-. vm_compute in En. discriminate.
Defined.

End NotifierMore.

(** ** The inner loop of the single-shot scan *)

Section TokenLoopMore.

Import Catalog.

(** X22.  The inner loop pairs token and reference price by position.  It asks
    for the book of a token only when the price published at the same
    index is finite, so for at most [min(tokenIds.length, prices.length)]
    tokens; and every candidate it pushes is a token whose book was asked
    for and served, recorded with its own index and its own reference
    price. *)
Theorem tokenLoop_pairs_tokens_with_prices :
  forall (f : fetcher) (i : nat) (toks : list string) (prs : list Js.number),
    (List.length (fst (Scan.tokenLoop f i toks prs))
     <= Nat.min (List.length toks) (List.length prs))%nat /\
    (List.length (snd (Scan.tokenLoop f i toks prs))
     <= List.length (fst (Scan.tokenLoop f i toks prs)))%nat /\
    (forall tok, In tok (fst (Scan.tokenLoop f i toks prs)) ->
       exists j ref, nth_error toks j = Some tok /\
                     nth_error prs j = Some (Js.Finite ref)) /\
    (forall c, In c (snd (Scan.tokenLoop f i toks prs)) ->
       In (Scan.token c) (fst (Scan.tokenLoop f i toks prs)) /\
       f (Scan.token c) = Some (Scan.tcBook c) /\
       (i <= Scan.idx c)%nat /\
       nth_error toks (Scan.idx c - i) = Some (Scan.token c) /\
       nth_error prs (Scan.idx c - i) = Some (Js.Finite (Scan.refPrice c))).
Proof.
  intros f i toks. revert i.
  induction toks as [|t0 toks IH]; intros i prs; cbn [Scan.tokenLoop].
  - simpl. repeat split; try lia; intros ? [].
  - destruct prs as [|pr prs].
    + simpl. repeat split; try lia; intros ? [].
    + cbv zeta. destruct (IH (S i) prs) as [Hlen [Hcs [Htok Hcand]]].
      assert (Htok' : forall tok,
                In tok (fst (Scan.tokenLoop f (S i) toks prs)) ->
                exists j ref, nth_error (t0 :: toks) j = Some tok /\
                              nth_error (pr :: prs) j = Some (Js.Finite ref)).
      { intros tok H. destruct (Htok tok H) as [j [ref [H1 H2]]].
        exists (S j), ref. auto. }
      assert (Hcand' : forall c,
                In c (snd (Scan.tokenLoop f (S i) toks prs)) ->
                f (Scan.token c) = Some (Scan.tcBook c) /\
                (i <= Scan.idx c)%nat /\
                nth_error (t0 :: toks) (Scan.idx c - i) = Some (Scan.token c) /\
                nth_error (pr :: prs) (Scan.idx c - i)
                = Some (Js.Finite (Scan.refPrice c))).
      { intros c H. destruct (Hcand c H) as [_ [Hf [Hi [H1 H2]]]].
        replace (Scan.idx c - i)%nat with (S (Scan.idx c - S i)) by lia.
        simpl. repeat split; try assumption. lia. }
      cbn [List.length] in *.
      destruct pr as [ref| |neg]; cbn [Js.isFinite].
      * destruct (f t0) as [bk|] eqn:Ef.
        -- destruct (truthy (bestBid (bestBidAsk bk))) as [b|];
             [destruct (truthy (bestAsk (bestBidAsk bk))) as [a|]|];
             cbn [fst snd List.length].
           ++ split; [lia|]. split; [lia|]. split.
              ** intros tok [<-|H]; [exists 0%nat, ref; auto|exact (Htok' tok H)].
              ** intros c [<-|H].
                 --- cbn. rewrite Nat.sub_diag. simpl. repeat split; auto.
                 --- destruct (Hcand c H) as [Hin _].
                     split; [right; exact Hin|exact (Hcand' c H)].
           ++ split; [lia|]. split; [lia|]. split.
              ** intros tok [<-|H]; [exists 0%nat, ref; auto|exact (Htok' tok H)].
              ** intros c H. destruct (Hcand c H) as [Hin _].
                 split; [right; exact Hin|exact (Hcand' c H)].
           ++ split; [lia|]. split; [lia|]. split.
              ** intros tok [<-|H]; [exists 0%nat, ref; auto|exact (Htok' tok H)].
              ** intros c H. destruct (Hcand c H) as [Hin _].
                 split; [right; exact Hin|exact (Hcand' c H)].
        -- cbn [fst snd List.length]. split; [lia|]. split; [lia|]. split.
           ++ intros tok [<-|H]; [exists 0%nat, ref; auto|exact (Htok' tok H)].
           ++ intros c H. destruct (Hcand c H) as [Hin _].
              split; [right; exact Hin|exact (Hcand' c H)].
      * split; [lia|]. split; [lia|]. split; [exact Htok'|].
        intros c H. destruct (Hcand c H) as [Hin _]. split; [exact Hin|exact (Hcand' c H)].
      * split; [lia|]. split; [lia|]. split; [exact Htok'|].
        intros c H. destruct (Hcand c H) as [Hin _]. split; [exact Hin|exact (Hcand' c H)].
Qed.

Lemma tokenLoop_pairs_tokens_with_prices_witness :
  exists c,
    In c (snd (Scan.tokenLoop Examples.tightFetch 0
                 (clobTokenIds Examples.tightMarket)
                 (outcomePrices Examples.tightMarket))) /\
    Examples.tightFetch (Scan.token c) = Some (Scan.tcBook c) /\
    nth_error (outcomePrices Examples.tightMarket) (Scan.idx c - 0)
    = Some (Js.Finite (Scan.refPrice c)).
Proof.
  destruct (snd (Scan.tokenLoop Examples.tightFetch 0
                   (clobTokenIds Examples.tightMarket)
                   (outcomePrices Examples.tightMarket))) as [|c tl] eqn:E;
    [vm_compute in E; discriminate|].
  exists c. split; [left; reflexivity|].
  destruct (proj2 (proj2 (proj2 (tokenLoop_pairs_tokens_with_prices
                                   Examples.tightFetch 0
                                   (clobTokenIds Examples.tightMarket)
                                   (outcomePrices Examples.tightMarket)))) c)
    as [_ [Hf [_ [_ Hp]]]].
  - rewrite E. left. reflexivity.
  - split; assumption.
Defined.

End TokenLoopMore.

(** ** The command lines *)

Section CliMore.

Import Ascii.

Local Open Scope string_scope.

Lemma cutAtEq_plain (k : string) :
  Cli.hasEq k = false -> Cli.cutAtEq k = (k, None).
Proof.
  induction k as [|c k IH]; simpl; [reflexivity|]. intro H.
  apply orb_false_iff in H. destruct H as [Hc Hk]. rewrite Hc, (IH Hk). reflexivity.
Qed.

Lemma cutAtEq_app (k t : string) :
  Cli.hasEq k = false -> Cli.cutAtEq (k ++ String "="%char t) = (k, Some t).
Proof.
  induction k as [|c k IH]; simpl; [reflexivity|]. intro H.
  apply orb_false_iff in H. destruct H as [Hc Hk]. rewrite Hc, (IH Hk). reflexivity.
Qed.

Lemma keyValue_flag (k : string) :
  Cli.hasEq k = false -> Cli.keyValue k = (k, None).
Proof. intro H. unfold Cli.keyValue. rewrite (cutAtEq_plain k H). reflexivity. Qed.

Lemma keyValue_flagWith (k v : string) :
  Cli.hasEq k = false ->
  Cli.keyValue (k ++ String "="%char v) = (k, Some (fst (Cli.cutAtEq v))).
Proof.
  intro H. unfold Cli.keyValue.
  rewrite (cutAtEq_app k v H). reflexivity.
Qed.

Lemma given_nonempty (v : string) : v <> "" -> Cli.given (Some v) = true.
Proof. destruct v; [congruence|reflexivity]. Qed.

(** Whatever every assignment preserves holds of the result. *)
Lemma parseLoop_invariant (settings : Type)
    (assign : string -> option (option string -> settings -> settings))
    (P : settings -> Prop) :
  (forall k store r a, assign k = Some store -> P a -> P (store r a)) ->
  forall argv args, P args -> P (Cli.parseLoop assign args argv).
Proof.
  intros Hstep argv.
  assert (H : forall (n : nat) (l : list string), (List.length l <= n)%nat ->
                forall args, P args -> P (Cli.parseLoop assign args l)).
  { induction n as [|n IH]; intros l Hl args Ha.
    - destruct l; [exact Ha|simpl in Hl; lia].
    - destruct l as [|a rest]; [exact Ha|]. simpl in Hl. cbn [Cli.parseLoop].
      destruct (Cli.flagBody a) as [body|]; [|apply IH; [lia|exact Ha]].
      destruct (Cli.keyValue body) as [k v].
      destruct (assign k) as [store|] eqn:Ek; [|apply IH; [lia|exact Ha]].
      destruct (Cli.given v).
      + apply IH; [lia|]. apply (Hstep k); assumption.
      + destruct rest as [|x rest'].
        * apply (Hstep k); assumption.
        * apply IH; [simpl in Hl; lia|]. apply (Hstep k); assumption. }
  apply (H (List.length argv)). lia.
Qed.

(** X24.  How the three [parseArgs] read a flag whose key [k] they know.
    [--k x] passes [x] to the assignment, whatever [x] looks like, and
    steps over it; a trailing [--k] passes [undefined]; [--k=v] passes
    the text of [v] up to its next ['='] when that is not empty, so the
    two forms agree on a non-empty value without ['=']; and [--k=] passes
    the empty string and steps over the argument that follows. *)
Theorem parseLoop_flag_forms :
  forall (settings : Type)
         (assign : string -> option (option string -> settings -> settings))
         (store : option string -> settings -> settings)
         (args : settings) (k : string) (rest : list string),
    Cli.hasEq k = false ->
    assign k = Some store ->
    (forall x, Cli.parseLoop assign args (Cli.flag k :: x :: rest)
               = Cli.parseLoop assign (store (Some x) args) rest) /\
    Cli.parseLoop assign args [Cli.flag k] = store None args /\
    (forall v, fst (Cli.cutAtEq v) <> "" ->
               Cli.parseLoop assign args (Cli.flagWith k v :: rest)
               = Cli.parseLoop assign (store (Some (fst (Cli.cutAtEq v))) args) rest) /\
    (forall v, v <> "" -> Cli.hasEq v = false ->
               Cli.parseLoop assign args (Cli.flagWith k v :: rest)
               = Cli.parseLoop assign args (Cli.flag k :: v :: rest)) /\
    (forall x, Cli.parseLoop assign args (Cli.flagWith k "" :: x :: rest)
               = Cli.parseLoop assign (store (Some "") args) rest).
Proof.
  intros settings assign store args k rest Hk Ha.
  assert (Hspace : forall x l, Cli.parseLoop assign args (Cli.flag k :: x :: l)
                               = Cli.parseLoop assign (store (Some x) args) l).
  { intros x l. unfold Cli.flag. cbn [Cli.parseLoop append Cli.flagBody].
    rewrite (keyValue_flag k Hk), Ha. reflexivity. }
  assert (Heq : forall v l, fst (Cli.cutAtEq v) <> "" ->
                  Cli.parseLoop assign args (Cli.flagWith k v :: l)
                  = Cli.parseLoop assign (store (Some (fst (Cli.cutAtEq v))) args) l).
  { intros v l Hv. unfold Cli.flagWith. cbn [Cli.parseLoop append Cli.flagBody].
    rewrite (keyValue_flagWith k v Hk), Ha, (given_nonempty _ Hv). reflexivity. }
  split; [intro x; apply Hspace|]. split; [|split; [|split]].
  - unfold Cli.flag. cbn [Cli.parseLoop append Cli.flagBody].
    rewrite (keyValue_flag k Hk), Ha. reflexivity.
  - intros v Hv. apply Heq. exact Hv.
  - intros v Hv Hne. rewrite Hspace.
    assert (Ev : fst (Cli.cutAtEq v) = v) by (rewrite (cutAtEq_plain v Hne); reflexivity).
    rewrite <- Ev at 2. apply Heq. rewrite Ev. exact Hv.
  - intro x. unfold Cli.flagWith. cbn [Cli.parseLoop append Cli.flagBody].
    rewrite (keyValue_flagWith k "" Hk), Ha. reflexivity.
Qed.

Lemma parseLoop_flag_forms_witness :
  MonitorCli.parseArgs Examples.numberOf ["--notional=50"; "--minMove"; "0.05"]
  = MonitorCli.parseArgs Examples.numberOf ["--notional"; "50"; "--minMove"; "0.05"].
Proof.
  apply (proj1 (proj2 (proj2 (proj2
           (parseLoop_flag_forms _ (MonitorCli.assign Examples.numberOf) _
              MonitorCli.defaultConfig "notional" ["--minMove"; "0.05"]
              eq_refl eq_refl)))) "50"); [discriminate|reflexivity].
Defined.

(** X25.  Arguments that do not start with two dashes and flags whose
    key none of the assignments names are passed over: a command line made
    of such arguments only gives the defaults.  So a misspelt flag and the
    value after it change nothing, and nothing reports them. *)
Theorem parseLoop_ignores_other_arguments :
  forall (settings : Type)
         (assign : string -> option (option string -> settings -> settings))
         (args : settings) (argv : list string),
    Forall (Cli.ignored assign) argv ->
    Cli.parseLoop assign args argv = args.
Proof.
  intros settings assign args argv H. induction H as [|a rest Ha _ IH];
    [reflexivity|].
  cbn [Cli.parseLoop]. unfold Cli.ignored in Ha.
  destruct (Cli.flagBody a) as [body|]; [|exact IH].
  destruct (Cli.keyValue body) as [k v]. cbn [fst] in Ha. rewrite Ha. exact IH.
Qed.

Lemma parseLoop_ignores_other_arguments_witness :
  ScanCli.parseArgs Examples.numberOf ["--notionl=50"; "50"; "-v"]
  = ScanCli.defaultArgs.
Proof.
  apply (parseLoop_ignores_other_arguments _ (ScanCli.assign Examples.numberOf)).
  repeat (apply Forall_cons; [vm_compute; first [exact I|reflexivity]|]).
  apply Forall_nil.
Defined.

(** X26.  No command line changes the exit settings of the monitor loop:
    whatever the arguments, take profit, stop loss, maximum hold time and
    the scan limit are those of [defaultConfig]. *)
Theorem monitor_parseArgs_keeps_exit_settings :
  forall (Number : option string -> Js.number) (argv : list string),
    MonitorCli.tp (MonitorCli.parseArgs Number argv)
    = Js.Finite (Engine.tp Engine.defaultConfig) /\
    MonitorCli.sl (MonitorCli.parseArgs Number argv)
    = Js.Finite (Engine.sl Engine.defaultConfig) /\
    MonitorCli.maxHoldMs (MonitorCli.parseArgs Number argv)
    = Js.Finite (inject_Z (Engine.maxHoldMs Engine.defaultConfig)) /\
    MonitorCli.scanLimit (MonitorCli.parseArgs Number argv)
    = MonitorCli.scanLimit MonitorCli.defaultConfig.
Proof.
  intros Number argv. unfold MonitorCli.parseArgs.
  apply (parseLoop_invariant _ (MonitorCli.assign Number)
           (fun c => MonitorCli.tp c = Js.Finite (Engine.tp Engine.defaultConfig) /\
                     MonitorCli.sl c = Js.Finite (Engine.sl Engine.defaultConfig) /\
                     MonitorCli.maxHoldMs c
                     = Js.Finite (inject_Z (Engine.maxHoldMs Engine.defaultConfig)) /\
                     MonitorCli.scanLimit c
                     = MonitorCli.scanLimit MonitorCli.defaultConfig)).
  - intros k store r a Hk Ha. unfold MonitorCli.assign in Hk.
    repeat match type of Hk with
           | (if ?b then _ else _) = _ => destruct b
           end;
      try discriminate; injection Hk as <-; exact Ha.
  - repeat split.
Qed.

End CliMore.
